(** * Apex whitelist tooling: the text codec of the Discord bot, its store
      operations, and the role checks of the database read path.

    The development embeds
    - [discord-bot/src/services/whitelist.js] (class [WhitelistService]):
      [parseContent], [updateWhitelistInContent], [addUid], [removeUid],
      [getUids];
    - [discord-bot/src/config.js]: the configured role table;
    - [fn_whitelistDB.sqf] ([QS_fnc_whitelistDB]) and
      [WhitelistDatabase::isValidWhitelistType] for the database variant;
    - [discord-bot/src/services/pterodactyl.js] and
      [discord-bot/src/services/manager.js]: the panel service and the
      manager, over the answers of the panel;
    - [discord-bot/src/commands/whitelist.js]: the texts of the replies of
      [handleList] and [handleStatus];
    - [SteamAuth::validate] and [getCallbackUrl] of the Steam sign-in, over
      the answer of Steam.

    JavaScript strings are sequences of UTF-16 code units, and the two
    regular expressions of the service are run by a backtracking matcher with
    the priorities of ECMAScript (greedy quantifiers, leftmost match). *)

From Stdlib Require Import String Ascii.
From Stdlib Require Import List NArith ZArith Arith Bool Lia.
From Stdlib Require QArith.
Import ListNotations.

Local Open Scope N_scope.

(** ** Code units and strings *)

Definition char := N.
Definition jsstring := list char.

Definition chr (a : ascii) : char := N_of_ascii a.
Definition str (s : string) : jsstring := map chr (list_ascii_of_string s).

Definition eqs (a b : jsstring) : bool :=
  if list_eq_dec N.eq_dec a b then true else false.

(** [\d] *)
Definition isDigit (c : char) : bool := (48 <=? c) && (c <=? 57).

(** [\s], which is also the set removed by [String.prototype.trim]:
    WhiteSpace and LineTerminator code points. *)
Definition isWhiteSpace (c : char) : bool :=
  existsb (N.eqb c)
    [9; 10; 11; 12; 13; 32; 160; 5760; 8232; 8233; 8239; 8287; 12288; 65279]
  || ((8192 <=? c) && (c <=? 8202)).

Module RegExp.

(** Character classes and literal characters of the pattern language. *)
Inductive cclass :=
| CChar (c : char)
| CSpace
| CDigit
| CAnyOf (l : list char)
| CNoneOf (l : list char).

Definition cmatch (cls : cclass) (x : char) : bool :=
  match cls with
  | CChar c => x =? c
  | CSpace => isWhiteSpace x
  | CDigit => isDigit x
  | CAnyOf l => existsb (N.eqb x) l
  | CNoneOf l => negb (existsb (N.eqb x) l)
  end.

(** The fragment of the pattern syntax used by the repository: every
    quantifier is greedy and applies to one character class. *)
Inductive regex :=
| Eps
| Atom (c : cclass)
| Seq (r1 r2 : regex)
| Star (c : cclass)
| Plus (c : cclass)
| Rep (n : nat) (c : cclass)
| Group (n : nat) (r : regex)
| Bol
| Eol.

Definition lit (s : jsstring) : regex :=
  fold_right (fun c r => Seq (Atom (CChar c)) r) Eps s.

Fixpoint seqs (l : list regex) : regex :=
  match l with
  | [] => Eps
  | [r] => r
  | r :: l' => Seq r (seqs l')
  end.

Definition caps := list (nat * jsstring).

Fixpoint getCap (n : nat) (c : caps) : option jsstring :=
  match c with
  | [] => None
  | (i, v) :: c' => if Nat.eqb i n then Some v else getCap n c'
  end.

Fixpoint setCap (n : nat) (v : jsstring) (c : caps) : caps :=
  match c with
  | [] => [(n, v)]
  | (i, w) :: c' => if Nat.eqb i n then (i, v) :: c' else (i, w) :: setCap n v c'
  end.

(** The part of [s] consumed when the matcher has moved on to its suffix [t]. *)
Definition cut (s t : jsstring) : jsstring :=
  firstn (length s - length t) s.

Section Matcher.
Context {R : Type}.

Definition cont := jsstring -> caps -> option R.

(** [cls*]: one more character first, the continuation on the way back. *)
Fixpoint star (cls : cclass) (k : cont) (s : jsstring) (c : caps) : option R :=
  match s with
  | x :: s' =>
      if cmatch cls x then
        match star cls k s' c with
        | Some r => Some r
        | None => k s c
        end
      else k s c
  | [] => k [] c
  end.

Fixpoint rep (n : nat) (cls : cclass) (k : cont) (s : jsstring) (c : caps)
  : option R :=
  match n with
  | O => k s c
  | S n' =>
      match s with
      | x :: s' => if cmatch cls x then rep n' cls k s' c else None
      | [] => None
      end
  end.

(** [m r n0 s c k]: match [r] at the suffix [s] of an input of length [n0],
    with captures [c], then continue with [k]. *)
Fixpoint m (r : regex) (n0 : nat) (s : jsstring) (c : caps) (k : cont)
  : option R :=
  match r with
  | Eps => k s c
  | Atom cls =>
      match s with
      | x :: s' => if cmatch cls x then k s' c else None
      | [] => None
      end
  | Seq r1 r2 => m r1 n0 s c (fun s' c' => m r2 n0 s' c' k)
  | Star cls => star cls k s c
  | Plus cls =>
      match s with
      | x :: s' => if cmatch cls x then star cls k s' c else None
      | [] => None
      end
  | Rep n cls => rep n cls k s c
  | Group n r' => m r' n0 s c (fun s' c' => k s' (setCap n (cut s s') c'))
  | Bol => if Nat.eqb (length s) n0 then k s c else None
  | Eol => match s with [] => k s c | _ :: _ => None end
  end.
End Matcher.

Record MatchResult := mkMatch {
  index : nat;
  matched : jsstring;
  groups : caps;
  after : jsstring
}.

Definition accept : @cont (jsstring * caps) := fun t c => Some (t, c).

(** [RegExp.prototype.exec] for a pattern without the global flag: the first
    start position, from the left, at which the pattern matches. *)
Fixpoint search (r : regex) (n0 : nat) (i : nat) (s : jsstring)
  : option MatchResult :=
  match m r n0 s [] accept with
  | Some (t, c) => Some (mkMatch i (cut s t) c t)
  | None =>
      match s with
      | [] => None
      | _ :: s' => search r n0 (S i) s'
      end
  end.

Definition exec (r : regex) (s : jsstring) : option MatchResult :=
  search r (length s) 0 s.

Definition test (r : regex) (s : jsstring) : bool :=
  match exec r s with Some _ => true | None => false end.

End RegExp.

Import RegExp.

(** Named code units. *)
Definition c_dollar : char := 36.
Definition c_amp : char := 38.
Definition c_squote : char := 39.
Definition c_dquote : char := 34.
Definition c_lparen : char := 40.
Definition c_rparen : char := 41.
Definition c_comma : char := 44.
Definition c_lt : char := 60.
Definition c_equals : char := 61.
Definition c_lbracket : char := 91.
Definition c_rbracket : char := 93.
Definition c_underscore : char := 95.
Definition c_backtick : char := 96.
Definition c_lbrace : char := 123.
Definition c_rbrace : char := 125.
Definition c_tab : char := 9.
Definition c_newline : char := 10.

Module Replace.

Fixpoint ngroups (r : regex) : nat :=
  match r with
  | Seq a b => ngroups a + ngroups b
  | Group _ a => S (ngroups a)
  | _ => 0
  end.

Definition digitVal (c : char) : nat := N.to_nat (c - 48).

(** A capture that did not take part in the match is replaced by the empty
    string. *)
Definition capture (n : nat) (mr : MatchResult) : jsstring :=
  match getCap n (groups mr) with Some v => v | None => [] end.

(** GetSubstitution of ECMAScript, without named groups: [$$], [$&], [$`],
    [$'], [$n] and [$nn]; every other [$] stands for itself. *)
Fixpoint getSubstitution (mr : MatchResult) (before : jsstring) (ncap : nat)
  (t : jsstring) : jsstring :=
  match t with
  | [] => []
  | x :: t1 =>
      if negb (x =? c_dollar) then x :: getSubstitution mr before ncap t1
      else
        match t1 with
        | [] => [x]
        | d :: t2 =>
            let one :=
              if (Nat.leb 1 (digitVal d) && Nat.leb (digitVal d) ncap)%bool
              then capture (digitVal d) mr ++ getSubstitution mr before ncap t2
              else x :: d :: getSubstitution mr before ncap t2 in
            if d =? c_dollar then c_dollar :: getSubstitution mr before ncap t2
            else if d =? c_amp then matched mr ++ getSubstitution mr before ncap t2
            else if d =? c_backtick then before ++ getSubstitution mr before ncap t2
            else if d =? c_squote then after mr ++ getSubstitution mr before ncap t2
            else if isDigit d then
              match t2 with
              | e :: t3 =>
                  let nn := (10 * digitVal d + digitVal e)%nat in
                  if (isDigit e && Nat.leb nn ncap)%bool then
                    if Nat.leb 1 nn
                    then capture nn mr ++ getSubstitution mr before ncap t3
                    else x :: d :: e :: getSubstitution mr before ncap t3
                  else one
              | [] => one
              end
            else x :: getSubstitution mr before ncap t1
        end
  end.

(** [String.prototype.replace(pattern, template)] for a pattern without the
    global flag: the first match is replaced, a string without match is
    returned as it is. *)
Definition replace (r : regex) (template s : jsstring) : jsstring :=
  match exec r s with
  | None => s
  | Some mr =>
      firstn (index mr) s
        ++ getSubstitution mr (firstn (index mr) s) (ngroups r) template
        ++ after mr
  end.

End Replace.

Module Str.

(** [s.split(sep)] for a separator of one code unit. *)
Fixpoint split (sep : char) (s : jsstring) : list jsstring :=
  match s with
  | [] => [[]]
  | x :: s' =>
      if x =? sep then [] :: split sep s'
      else
        match split sep s' with
        | h :: t => (x :: h) :: t
        | [] => [[x]]
        end
  end.

Fixpoint dropWhile (p : char -> bool) (s : jsstring) : jsstring :=
  match s with
  | x :: s' => if p x then dropWhile p s' else s
  | [] => []
  end.

(** [s.trim()] *)
Definition trim (s : jsstring) : jsstring :=
  rev (dropWhile isWhiteSpace (rev (dropWhile isWhiteSpace s))).

(** [s.replace(/[...]/g, '')] for one character class: every code unit of
    the class is dropped. *)
Definition removeAll (cls : cclass) (s : jsstring) : jsstring :=
  filter (fun x => negb (cmatch cls x)) s.

(** [l.join(sep)] *)
Fixpoint join (sep : jsstring) (l : list jsstring) : jsstring :=
  match l with
  | [] => []
  | [a] => a
  | a :: l' => a ++ sep ++ join sep l'
  end.

(** [l.includes(x)] on an array of strings. *)
Definition includes (l : list jsstring) (x : jsstring) : bool :=
  existsb (eqs x) l.

Definition isEmpty (s : jsstring) : bool :=
  match s with [] => true | _ :: _ => false end.

(** The ASCII part of [String.prototype.toUpperCase]: what the built-in
    computes on a string of ASCII code units. *)
Definition asciiUpper (s : jsstring) : jsstring :=
  map (fun c => if (97 <=? c) && (c <=? 122) then c - 32 else c) s.

End Str.

(** ** config.js *)

Record Role := mkRole { name : jsstring; description : jsstring }.

Definition whitelistRoles : list Role :=
  [ mkRole (str "S3") (str "Whitelisted Roles + Skins Access");
    mkRole (str "CAS") (str "Fixed-wing Jets Access");
    mkRole (str "S1") (str "Commander Role Access");
    mkRole (str "OPFOR") (str "OPFOR Slots Access");
    mkRole (str "ALL") (str "All Staff UIDs (required for all staff)");
    mkRole (str "ADMIN") (str "Admin Tools Access");
    mkRole (str "MODERATOR") (str "Moderator Access");
    mkRole (str "TRUSTED") (str "Trusted Non-Staff Access");
    mkRole (str "MEDIA") (str "Media/Camera Access");
    mkRole (str "CURATOR") (str "Zeus/Mission Curation Access");
    mkRole (str "DEVELOPER") (str "Developer/Debug Console Access") ].

(** [config.whitelistRoles.map((r) => r.name)] *)
Definition roleNames : list jsstring := map name whitelistRoles.

(** ** whitelist.js *)

Module Patterns.

Definition notBrace : cclass := CNoneOf [c_rbrace].
Definition notBracket : cclass := CNoneOf [c_rbracket].
Definition quote : cclass := CAnyOf [c_squote; c_dquote].

(** [if\s*\(\s*_type\s+isEqualTo\s+<q>ROLE<q>\s*\)\s*then\s*\{] where
    <q> is the class of the single and the double quote; the configured role
    codes are alphanumeric, so a role stands for itself in the pattern
    source. *)
Definition ifGuard (role : jsstring) : regex :=
  seqs [ lit (str "if"); Star CSpace; Atom (CChar c_lparen); Star CSpace;
         lit (str "_type"); Plus CSpace; lit (str "isEqualTo"); Plus CSpace;
         Atom quote; lit role; Atom quote; Star CSpace;
         Atom (CChar c_rparen); Star CSpace; lit (str "then"); Star CSpace;
         Atom (CChar c_lbrace) ].

(** [_return\s*=\s*\[] *)
Definition returnOpen : regex :=
  seqs [ lit (str "_return"); Star CSpace; Atom (CChar c_equals); Star CSpace;
         Atom (CChar c_lbracket) ].

(** <guard>[[^}]*]<return>[([^\]]+)\]] of [parseContent]. *)
Definition parsePattern (role : jsstring) : regex :=
  seqs [ ifGuard role; Star notBrace; returnOpen;
         Group 1 (Plus notBracket); Atom (CChar c_rbracket) ].

(** [(]<guard>[[^}]*]<return>[)[^\]]*(\])] of [updateWhitelistInContent]. *)
Definition updatePattern (role : jsstring) : regex :=
  seqs [ Group 1 (seqs [ifGuard role; Star notBrace; returnOpen]);
         Star notBracket; Group 2 (Atom (CChar c_rbracket)) ].

(** [/^\d+$/] *)
Definition digitsOnly : regex := seqs [Bol; Plus CDigit; Eol].

(** [/^\d{17}$/] *)
Definition steam64 : regex := seqs [Bol; Rep 17 CDigit; Eol].

End Patterns.

Import Patterns.

Definition WhitelistMap := list (jsstring * list jsstring).

(** [Map.prototype.get] and [Map.prototype.set], insertion order kept. *)
Fixpoint mapGet (k : jsstring) (w : WhitelistMap) : option (list jsstring) :=
  match w with
  | [] => None
  | (k', v) :: w' => if eqs k' k then Some v else mapGet k w'
  end.

Fixpoint mapSet (k : jsstring) (v : list jsstring) (w : WhitelistMap)
  : WhitelistMap :=
  match w with
  | [] => [(k, v)]
  | (k', v') :: w' =>
      if eqs k' k then (k', v) :: w' else (k', v') :: mapSet k v w'
  end.

(** The body of the [if (match)] branch of [parseContent]:
    [split(',')], [trim()] and the removal of every quote character, then
    the digit filter. *)
Definition extractUids (uidsString : jsstring) : list jsstring :=
  filter
    (fun uid => negb (Str.isEmpty uid) && negb (Str.isEmpty uid)
                && test digitsOnly uid)
    (map (fun uid => Str.removeAll quote (Str.trim uid))
         (Str.split c_comma uidsString)).

(** The body of the loop of [parseContent] for one role: the list that
    [whitelists.set] receives. *)
Definition parseRole (content role : jsstring) : list jsstring :=
  match exec (parsePattern role) content with
  | Some mr => extractUids (Replace.capture 1 mr)
  | None => []
  end.

Definition parseContent (content : jsstring) : WhitelistMap :=
  fold_left (fun whitelists role => mapSet role (parseRole content role) whitelists)
            roleNames [].

(** The [replacement] of [updateWhitelistInContent]: every identifier on a
    line of its own, behind two tabs and between single quotes, the lines
    joined by a comma and a line feed; a line feed and a tab for no
    identifier. *)
Definition replacement (uids : list jsstring) : jsstring :=
  let formattedUids :=
    Str.join [c_comma; c_newline]
      (map (fun uid => [c_tab; c_tab; c_squote] ++ uid ++ [c_squote]) uids) in
  if Str.isEmpty formattedUids then [c_newline; c_tab]
  else [c_newline] ++ formattedUids ++ [c_newline; c_tab].

(** [content.replace(pattern, `$1${replacement}$2`)]; at every call site the
    role is a configured code. *)
Definition updateWhitelistInContent (content role : jsstring)
  (uids : list jsstring) : jsstring :=
  Replace.replace (updatePattern role)
    (str "$1" ++ replacement uids ++ str "$2") content.

(** What an [async] method hands back: a value, or a rejection. *)
Inductive completion (A : Type) :=
| Resolved (a : A)
| Rejected (err : jsstring).
Arguments Resolved {A} a.
Arguments Rejected {A} err.

Record Result := mkResult { success : bool; message : jsstring }.

Section WhitelistService.
(** [String.prototype.toUpperCase] is a built-in whose Unicode case table
    is not part of the repository; the service is embedded over it. *)
Variable toUpperCase : jsstring -> jsstring.
(** [this.filePath] *)
Variable filePath : jsstring.

(** The file is [None] when [existsSync] answers false. *)
Definition FileState := option jsstring.

Definition readFile (fs : FileState) : completion jsstring :=
  match fs with
  | None => Rejected (str "Whitelist file not found: " ++ filePath)
  | Some content => Resolved content
  end.

Definition parseWhitelist (fs : FileState) : completion WhitelistMap :=
  match readFile fs with
  | Resolved content => Resolved (parseContent content)
  | Rejected e => Rejected e
  end.

Definition InvalidRole (role : jsstring) : Result :=
  mkResult false
    (str "Invalid role: " ++ role ++ str ". Valid roles: "
     ++ Str.join (str ", ") roleNames).

Definition InvalidIdentifierFormat (uid : jsstring) : Result :=
  mkResult false
    (str "Invalid Steam UID format: " ++ uid ++ str ". Must be a 17-digit number.").

Definition AlreadyWhitelisted (uid normalizedRole : jsstring) : Result :=
  mkResult false
    (str "UID " ++ uid ++ str " is already in the " ++ normalizedRole
     ++ str " whitelist.").

Definition NotWhitelisted (uid normalizedRole : jsstring) : Result :=
  mkResult false
    (str "UID " ++ uid ++ str " is not in the " ++ normalizedRole
     ++ str " whitelist.").

Definition Added (uid normalizedRole : jsstring) : Result :=
  mkResult true
    (str "Successfully added " ++ uid ++ str " to the " ++ normalizedRole
     ++ str " whitelist.").

Definition Removed (uid normalizedRole : jsstring) : Result :=
  mkResult true
    (str "Successfully removed " ++ uid ++ str " from the " ++ normalizedRole
     ++ str " whitelist.").

(** [addUid]: the result and the file afterwards. *)
Definition addUid (fs : FileState) (role uid : jsstring)
  : completion Result * FileState :=
  let validRoles := roleNames in
  if negb (Str.includes validRoles (toUpperCase role)) then
    (Resolved (InvalidRole role), fs)
  else if negb (test steam64 uid) then
    (Resolved (InvalidIdentifierFormat uid), fs)
  else
    match readFile fs with
    | Rejected e => (Rejected e, fs)
    | Resolved content =>
        let whitelists := parseContent content in
        let normalizedRole := toUpperCase role in
        if match mapGet normalizedRole whitelists with
           | Some l => Str.includes l uid
           | None => false
           end
        then (Resolved (AlreadyWhitelisted uid normalizedRole), fs)
        else
          let updatedContent :=
            updateWhitelistInContent content normalizedRole
              (match mapGet normalizedRole whitelists with
               | Some l => l
               | None => []
               end ++ [uid]) in
          (Resolved (Added uid normalizedRole), Some updatedContent)
    end.

(** [removeUid] *)
Definition removeUid (fs : FileState) (role uid : jsstring)
  : completion Result * FileState :=
  let validRoles := roleNames in
  if negb (Str.includes validRoles (toUpperCase role)) then
    (Resolved (InvalidRole role), fs)
  else
    match readFile fs with
    | Rejected e => (Rejected e, fs)
    | Resolved content =>
        let whitelists := parseContent content in
        let normalizedRole := toUpperCase role in
        let currentUids :=
          match mapGet normalizedRole whitelists with
          | Some l => l
          | None => []
          end in
        if negb (Str.includes currentUids uid) then
          (Resolved (NotWhitelisted uid normalizedRole), fs)
        else
          let updatedUids := filter (fun u => negb (eqs u uid)) currentUids in
          let updatedContent :=
            updateWhitelistInContent content normalizedRole updatedUids in
          (Resolved (Removed uid normalizedRole), Some updatedContent)
    end.

(** [getUids] *)
Definition getUids (fs : FileState) (role : jsstring)
  : completion (list jsstring) :=
  match parseWhitelist fs with
  | Rejected e => Rejected e
  | Resolved whitelists =>
      Resolved (match mapGet (toUpperCase role) whitelists with
                | Some l => l
                | None => []
                end)
  end.

(** [getAllWhitelists] *)
Definition getAllWhitelists (fs : FileState) : completion WhitelistMap :=
  parseWhitelist fs.

End WhitelistService.

(** The [whitelist.sqf] shipped with the repository. *)
Definition whitelist_sqf : jsstring :=
  str "/*/
File: whitelist.sqf
Author:

	Quiksilver
	
Last modified:

	28/04/2022 A3 2.08 by Quiksilver
	2024 - SQL Database Support Added
	
Description:

	UIDs - File-based whitelist system
	
SQL Database Mode:
	
	This file-based whitelist can be replaced with an SQL database system for:
	- Real-time whitelist updates without server restart
	- Centralized management across multiple servers
	- Easy integration with Discord bots and web panels
	
	To enable SQL mode:
	1. Set _useDatabase = 1 in parameters.sqf
	2. Configure ExtDB3 with your MySQL/MariaDB database
	3. Import the schema from Extras/SQL/whitelist_schema.sql
	4. See Extras/SQL/SQL-Setup-Guide.md for detailed instructions
	
	When SQL mode is disabled (default), this file is used for whitelists.
	
Comment:
	
	For staff IDs, ensure ID is in only one list. For instance, either moderator, admin or developer, but not all of them together.
	
	They DO all have to be in the 'ALL' list though.
__________________________________________________________________________/*/

_type = param [0,''];
private _return = [];
//================================================== WHITELISTED ROLES + SKINS ACCESS
if (_type isEqualTo 'S3') then {
	/*/ 
	These IDs will have access to Whitelisted roles in Role Selection, and access to vehicle skins, uniform skins and custom shoulder patches. 
	Does NOT include CAS role (a separate whitelist below). 
	/*/
	_return = [
		'76561100000000000',
		'76561100000000000'
	];
};
//================================================== CAS JET
if (_type isEqualTo 'CAS') then {
	/*/These IDs have access to fixed-wing Jets, subject to mission parameters/*/
	_return = [
		'76561100000000000',
		'76561100000000000'
	];
};
//================================================= COMMANDER
if (_type isEqualTo 'S1') then {
	/*/ These IDs have access to the Commander role, if Commander whitelisting is used. /*/
	_return = [
		'76561100000000000',
		'76561100000000000'
	];
};
//================================================= OPFOR
if (_type isEqualTo 'OPFOR') then {
	/*/ These IDs have access to the OPFOR slots, if OPFOR whitelisting is used. /*/
	_return = [
		'76561100000000000',
		'76561100000000000'
	];
};
//================================================== ALL STAFF IDS. IDs below must be registered here first/*/
if (_type isEqualTo 'ALL') then {
	/*/ All staff UIDs (does not grant permissions/menus, that stuff is below). Robocop reports trolling events and hacking events to these people though./*/
	_return = [
		'76561100000000000',
		'76561100000000000'
	];
};
//================================================== ADMIN IDs/*/
if (_type isEqualTo 'ADMIN') then {
	/*/ Admin UIDs. These IDs have access to all admin tools below Developer access. They do not have Debug Console.  - remove ID from MODERATOR IDs/*/
	_return = [
		'76561100000000000',
		'76561100000000000'
	];
};
//================================================== MODERATOR IDS/*/
if (_type isEqualTo 'MODERATOR') then {
	/*/ Moderator IDs - remove ID from ADMIN IDs/*/
	_return = [
		'76561100000000000',
		'76561100000000000'
	];
};
//================================================== TRUSTED NON-STAFF IDS/*/
if (_type isEqualTo 'TRUSTED') then {
	/*/ Trusted non-staff IDs. Potentially obsolete./*/
	_return = [
		'76561100000000000',
		'76561100000000000'
	];
};
//================================================== MEDIA IDS/*/
if (_type isEqualTo 'MEDIA') then {
	/*/ Media. These IDs will have access to a limited Splendid Camera (which is normally only availabe to Developers), but no other options. May be required to be in 'ALL' first./*/
	_return = [
		'76561100000000000',
		'76561100000000000'
	];
};
//================================================== ZEUS IDs/*/
if (_type isEqualTo 'CURATOR') then {
	/*/Zeus. These IDs have access to Zeus and mission curation functionality. They can suspend side missions and main missions, and cycle main missions (this is done on " ++ [c_dquote] ++ str "air defense laptop" ++ [c_dquote] ++ str " at base)./*/
	_return = [
		'76561100000000000',
		'76561100000000000'
	];
};
//================================================== DEVELOPER IDS/*/
if (_type isEqualTo 'DEVELOPER') then {
	/*/ Developer UIDs. These IDs have access to integrated Debug Console (execution is logged and filtered) and all other ingame tools./*/
	_return = [
		'76561100000000000',
		'76561100000000000'
	];
};
_return;".

(** ** fn_whitelistDB.sqf *)

Module SQF.

Import QArith_base.

(** SQF numbers, taken as exact rationals: the function only subtracts two
    clock readings and compares the difference with the cache duration. *)
Definition number := Q.

Definition ltn (a b : number) : bool :=
  if Qlt_le_dec a b then true else false.

(** The variables of [missionNamespace] the function reads and writes;
    [None] is an unset variable, the two caches are keyed by the type that
    [format] puts into the variable name. *)
Record Namespace := mkNamespace {
  QS_server_isUsingDB : option bool;
  QS_whitelist_cacheDuration : option number;
  QS_whitelist_cache : list (jsstring * list jsstring);
  QS_whitelist_cacheTime : list (jsstring * number)
}.

Fixpoint lookup {A : Type} (k : jsstring) (l : list (jsstring * A)) : option A :=
  match l with
  | [] => None
  | (k', v) :: l' => if eqs k' k then Some v else lookup k l'
  end.

(** [namespace getVariable [name, default]] *)
Definition getVariable {A : Type} (v : option A) (default : A) : A :=
  match v with Some a => a | None => default end.

(** What the [try] block leaves behind: an exception for the [catch]
    branch, or the [_return] array filled from the rows of the answer.
    [callExtension] and [parseSimpleArray] are engine commands. *)
Inductive QueryOutcome :=
| QueryThrew
| QueryRows (rows : list jsstring).

Definition _validTypes : list jsstring :=
  [ str "S3"; str "CAS"; str "S1"; str "OPFOR"; str "ALL"; str "ADMIN";
    str "MODERATOR"; str "TRUSTED"; str "MEDIA"; str "CURATOR";
    str "DEVELOPER" ].

(** [_type in _validTypes]: the [in] command compares strings exactly. *)
Definition validType (_type : jsstring) : bool :=
  Str.includes _validTypes _type.

Definition cacheDuration (ns : Namespace) : number :=
  getVariable (QS_whitelist_cacheDuration ns) (Qmake 300 1).

(** The cache test of the [exitWith] at line 79. *)
Definition cacheValid (ns : Namespace) (diag_tickTime : number)
  (_type : jsstring) (_forceRefresh : bool) : bool :=
  let _cachedResult := getVariable (lookup _type (QS_whitelist_cache ns)) [] in
  let _cacheTime := getVariable (lookup _type (QS_whitelist_cacheTime ns)) (Qmake 0 1) in
  negb _forceRefresh
  && Nat.ltb 0 (length _cachedResult)
  && ltn (Qminus diag_tickTime _cacheTime) (cacheDuration ns).

(** The value of [_return] after the query, the [catch] branch and the
    zero-row test. *)
Definition loaded (QS_fnc_whitelistFile : jsstring -> list jsstring)
  (outcome : QueryOutcome) (_type : jsstring) : list jsstring :=
  let _return :=
    match outcome with
    | QueryThrew => QS_fnc_whitelistFile _type
    | QueryRows rows => rows
    end in
  if Nat.eqb (length _return) 0 then QS_fnc_whitelistFile _type else _return.

Definition QS_fnc_whitelistDB (ns : Namespace)
  (QS_fnc_whitelistFile : jsstring -> list jsstring)
  (diag_tickTime : number) (query : jsstring -> QueryOutcome)
  (_type : jsstring) (_forceRefresh : bool) : list jsstring * Namespace :=
  if negb (validType _type) then ([], ns)
  else if negb (getVariable (QS_server_isUsingDB ns) false) then
    (QS_fnc_whitelistFile _type, ns)
  else if cacheValid ns diag_tickTime _type _forceRefresh then
    (getVariable (lookup _type (QS_whitelist_cache ns)) [], ns)
  else
    let _return := loaded QS_fnc_whitelistFile (query _type) _type in
    (_return,
     mkNamespace (QS_server_isUsingDB ns) (QS_whitelist_cacheDuration ns)
       ((_type, _return) :: QS_whitelist_cache ns)
       ((_type, diag_tickTime) :: QS_whitelist_cacheTime ns)).

End SQF.

(** ** WhitelistDatabase.php *)

Section WhitelistDatabase.
(** [type_code = :type_code] is evaluated by the database server under
    the collation of the column, which the PHP code does not fix. *)
Variable sqlEquals : jsstring -> jsstring -> bool.

(** [SELECT COUNT( * ) FROM whitelist_types WHERE type_code = :type_code],
    then [> 0]. *)
Definition isValidWhitelistType (whitelist_types : list jsstring)
  (type : jsstring) : bool :=
  Nat.ltb 0
    (length (filter (fun type_code => sqlEquals type_code type) whitelist_types)).
End WhitelistDatabase.

(** ** Words matched by a pattern *)

Module Lang.

Definition accepts (cls : cclass) (u : jsstring) : Prop :=
  Forall (fun x => cmatch cls x = true) u.

(** The words of an unanchored pattern. *)
Fixpoint L (r : regex) (u : jsstring) : Prop :=
  match r with
  | Eps => u = []
  | Atom cls => exists x, u = [x] /\ cmatch cls x = true
  | Seq a b => exists u1 u2, u = u1 ++ u2 /\ L a u1 /\ L b u2
  | Star cls => accepts cls u
  | Plus cls => u <> [] /\ accepts cls u
  | Rep n cls => length u = n /\ accepts cls u
  | Group _ a => L a u
  | Bol => False
  | Eol => False
  end.

(** No [^] and no [$]. *)
Fixpoint plain (r : regex) : bool :=
  match r with
  | Seq a b => plain a && plain b
  | Group _ a => plain a
  | Bol | Eol => false
  | _ => true
  end.

Fixpoint groupless (r : regex) : bool :=
  match r with
  | Seq a b => groupless a && groupless b
  | Group _ _ => false
  | _ => true
  end.

(** No word of [r] holds the code unit [x]. *)
Fixpoint avoids (r : regex) (x : char) : bool :=
  match r with
  | Eps | Bol | Eol => true
  | Atom cls | Star cls | Plus cls | Rep _ cls => negb (cmatch cls x)
  | Seq a b => avoids a x && avoids b x
  | Group _ a => avoids a x
  end.

(** Every word of [r] ends with its only [x]. *)
Fixpoint endsIn (r : regex) (x : char) : bool :=
  match r with
  | Atom (CChar y) => y =? x
  | Seq a b => avoids a x && endsIn b x
  | Group _ a => endsIn a x
  | _ => false
  end.

(** Every word of [r] starts with its only [x]. *)
Fixpoint startsIn (r : regex) (x : char) : bool :=
  match r with
  | Atom (CChar y) => y =? x
  | Seq a b => startsIn a x && avoids b x
  | Group _ a => startsIn a x
  | _ => false
  end.

End Lang.

Import Lang.

(** ** Well-formed texts and identifiers *)

(** A digit string, as [/^\d+$/] has it. *)
Definition isDigitString (u : jsstring) : bool :=
  negb (Str.isEmpty u) && forallb isDigit u.

(** The code units of a bracketed list of quoted identifiers. *)
Definition listChar (c : char) : bool :=
  isDigit c || isWhiteSpace c || (c =? c_squote) || (c =? c_dquote)
  || (c =? c_comma).

(** The text between the brackets of a match of [updatePattern]: what lies
    between the first capture and the closing bracket. *)
Definition bodyOf (mr : MatchResult) : jsstring :=
  removelast (skipn (length (Replace.capture 1 mr)) (matched mr)).

(** A text is well formed for a role when the guard rule finds the block of
    the role and the bracket of that block holds a list of quoted digit
    strings only. *)
Definition wellFormed (content role : jsstring) : bool :=
  match exec (updatePattern role) content with
  | Some mr => forallb listChar (bodyOf mr)
  | None => false
  end.

(** The role rule in the words of section 4.3 of the specification: a role
    is valid iff its upper-case form is one of the configured codes. *)
Definition caseInsensitiveValid (toUpperCase : jsstring -> jsstring)
  (role : jsstring) : bool :=
  Str.includes roleNames (toUpperCase role).

(** The greedy choice of [cls*]: [B] is the longest run of the class after
    which the continuation succeeds. *)
Definition longest {R : Type} (cls : cclass) (k : @cont R) (c : caps)
  (B U : jsstring) : Prop :=
  forall B' U', B ++ U = B' ++ U' -> accepts cls B' ->
                (length B < length B')%nat -> k U' c = None.

(** The pieces of a guarded block: the guard up to its brace, the text
    before the assignment, the assignment up to its bracket, and the
    bracket body. *)
Definition isBlock (role G B Rt body : jsstring) : Prop :=
  L (ifGuard role) G /\ accepts notBrace B /\ L returnOpen Rt
  /\ accepts notBracket body.

(** What [updatePattern] still has to match once its first group is closed
    at the suffix [s1] of the start [s]. *)
Definition updTail (n0 : nat) (s : jsstring) : @cont (jsstring * caps) :=
  fun s1 c1 =>
    m (Seq (Star notBracket) (Group 2 (Atom (CChar c_rbracket)))) n0 s1
      (setCap 1 (cut s s1) c1) accept.

(** What [parsePattern] still has to match after the text before the
    assignment. *)
Definition parseRest : regex :=
  Seq returnOpen (Seq (Group 1 (Plus notBracket)) (Atom (CChar c_rbracket))).

(** The code units written by [updateWhitelistInContent] for a list of digit
    strings. *)
Definition replChar (c : char) : bool :=
  isDigit c || (c =? c_newline) || (c =? c_tab) || (c =? c_squote)
  || (c =? c_comma).

(** One formatted entry of the bracket body. *)
Definition entry (uid : jsstring) : jsstring :=
  c_tab :: c_tab :: c_squote :: uid ++ [c_squote].

(** One comma-separated piece of the captured text, as the [map] of
    [parseContent] cleans it. *)
Definition cleanPiece (uid : jsstring) : jsstring :=
  Str.removeAll quote (Str.trim uid).

(** The block of the role is found by [updatePattern] and its bracket body
    holds no closing brace. *)
Definition editable (content role : jsstring) : bool :=
  match exec (updatePattern role) content with
  | Some mr => forallb (cmatch notBrace) (bodyOf mr)
  | None => false
  end.

(** ** Sample texts *)

Definition uid99 : jsstring := str "76561198000000099".
Definition uid01 : jsstring := str "76561198000000001".
Definition uid02 : jsstring := str "76561198000000002".

(** A whitelist with a block for S3 only. *)
Definition s3OnlyDoc : jsstring :=
  str "if (_type isEqualTo 'S3') then {
	_return = [
		'76561198000000001',
		'76561198000000002'
	];
};
_return;".

(** A hand-edited block: a closing brace inside the first bracket, and a
    second assignment behind it. *)
Definition braceDoc : jsstring :=
  str "if (_type isEqualTo 'ADMIN') then { _return = [ '76561198000000001', } ]; _return = ['76561198000000001']; };".

(** A block that keeps an identifier of 18 digits. *)
Definition legacy18 : jsstring := str "765611980000000011".

Definition legacyDoc : jsstring :=
  str "if (_type isEqualTo 'CAS') then { _return = ['765611980000000011']; };".



Definition path0 : jsstring := str "../@Apex_cfg/whitelist.sqf".

(** A mission namespace with the database switched on and nothing cached. *)
Definition ns0 : SQF.Namespace :=
  SQF.mkNamespace (Some true) None [] [].

(** The same namespace with a list cached for S3 at clock reading 100. *)
Definition ns1 : SQF.Namespace :=
  SQF.mkNamespace (Some true) None [(str "S3", [uid01])]
    [(str "S3", QArith_base.Qmake 100%Z 1)].

(** ** pterodactyl.js *)

Definition c_slash : char := 47.
Definition c_colon : char := 58.
Definition c_dot : char := 46.
Definition c_minus : char := 45.

Module Pterodactyl.

(** [/\/$/] *)
Definition trailingSlash : regex := Seq (Atom (CChar c_slash)) Eol.

(** [/[:.]/g] replaced by a string without a dollar sign: every code unit of
    the class gives way to the string. *)
Definition replaceEach (cls : cclass) (by_ : jsstring) (s : jsstring) : jsstring :=
  flat_map (fun x => if cmatch cls x then by_ else [x]) s.

(** The fields of the service; [None] is [undefined], the value of an
    environment variable that is not set. *)
Record Service := mkService {
  panelUrl : option jsstring;
  apiKey : option jsstring;
  serverId : option jsstring;
  whitelistPath : jsstring
}.

(** The constructor, from the four values of [config.pterodactyl]. *)
Definition construct (cfgPanelUrl cfgApiKey cfgServerId : option jsstring)
  (cfgWhitelistPath : jsstring) : Service :=
  mkService
    (match cfgPanelUrl with
     | Some url => Some (Replace.replace trailingSlash [] url)
     | None => None
     end)
    cfgApiKey cfgServerId cfgWhitelistPath.

(** ToBoolean on a string or [undefined]. *)
Definition truthy (v : option jsstring) : bool :=
  match v with
  | Some (_ :: _) => true
  | _ => false
  end.

Definition isEnabled (svc : Service) : bool :=
  truthy (panelUrl svc) && truthy (apiKey svc) && truthy (serverId svc).

Definition notConfigured : jsstring :=
  str "Pterodactyl integration is not configured".

(** [new Date().toISOString().replace(/[:.]/g, '-')] over the string of the
    clock. *)
Definition timestamp (iso : jsstring) : jsstring :=
  replaceEach (CAnyOf [c_colon; c_dot]) [c_minus] iso.

(** [this.whitelistPath.replace('.sqf', `_backup_${timestamp}.sqf`)]: a
    string pattern is searched literally, its first occurrence replaced, and
    the replacement goes through GetSubstitution with no capture. *)
Definition backupPath (svc : Service) (iso : jsstring) : jsstring :=
  Replace.replace (lit (str ".sqf"))
    (str "_backup_" ++ timestamp iso ++ str ".sqf") (whitelistPath svc).

Section Panel.
(** The panel behind [fetch]: its state, the answer to
    [GET /files/contents?file=<path>] read as text, and the answer to
    [POST /files/write?file=<path>] with a body; a response that is not
    [ok] is the rejection that [request] throws. *)
Variable Panel : Type.
Variable fetchContents : jsstring -> Panel -> completion jsstring * Panel.
Variable postWrite : jsstring -> jsstring -> Panel -> completion unit * Panel.

Definition getWhitelistFile (svc : Service) (p : Panel)
  : completion jsstring * Panel :=
  if negb (isEnabled svc) then (Rejected notConfigured, p)
  else fetchContents (whitelistPath svc) p.

Definition writeWhitelistFile (svc : Service) (content : jsstring) (p : Panel)
  : completion unit * Panel :=
  if negb (isEnabled svc) then (Rejected notConfigured, p)
  else postWrite (whitelistPath svc) content p.

(** [backupWhitelist]; [iso] is the clock string read after the download. *)
Definition backupWhitelist (svc : Service) (iso : jsstring) (p : Panel)
  : completion jsstring * Panel :=
  if negb (isEnabled svc) then (Rejected notConfigured, p)
  else
    match getWhitelistFile svc p with
    | (Rejected e, p1) => (Rejected e, p1)
    | (Resolved content, p1) =>
        match postWrite (backupPath svc iso) content p1 with
        | (Rejected e, p2) => (Rejected e, p2)
        | (Resolved _, p2) => (Resolved (backupPath svc iso), p2)
        end
    end.

End Panel.

End Pterodactyl.

(** ** manager.js *)

Module Manager.

Section Manager.
Variable Panel : Type.
Variable fetchContents : jsstring -> Panel -> completion jsstring * Panel.
Variable postWrite : jsstring -> jsstring -> Panel -> completion unit * Panel.
Variable toUpperCase : jsstring -> jsstring.
(** [config.whitelistPath], and the path of [whitelist.sqf] in the
    temporary directory. *)
Variable whitelistPath : jsstring.
Variable tempPath : jsstring.
(** The rejection of [fs.readFile] on a file that does not exist. *)
Variable noSuchFile : jsstring.
(** [pterodactylService] *)
Variable svc : Pterodactyl.Service.

(** The two files the manager works on, and the panel. *)
Record World := mkWorld {
  localFile : FileState;
  tempFile : FileState;
  panel : Panel
}.

(** [this.usePterodactyl], set by the constructor. *)
Definition usePterodactyl : bool := Pterodactyl.isEnabled svc.

(** A [WhitelistService] is known by the file it was made for. *)
Inductive Service := OnTemp | OnLocal.

Definition filePath (service : Service) : jsstring :=
  match service with OnTemp => tempPath | OnLocal => whitelistPath end.

Definition fileOf (service : Service) (w : World) : FileState :=
  match service with OnTemp => tempFile w | OnLocal => localFile w end.

Definition setFile (service : Service) (fs : FileState) (w : World) : World :=
  match service with
  | OnTemp => mkWorld (localFile w) fs (panel w)
  | OnLocal => mkWorld fs (tempFile w) (panel w)
  end.

Definition setPanel (p : Panel) (w : World) : World :=
  mkWorld (localFile w) (tempFile w) p.

Definition getWhitelistService (w : World) : completion Service * World :=
  if usePterodactyl then
    match Pterodactyl.getWhitelistFile Panel fetchContents svc (panel w) with
    | (Rejected e, p) => (Rejected e, setPanel p w)
    | (Resolved content, p) =>
        (Resolved OnTemp, setFile OnTemp (Some content) (setPanel p w))
    end
  else (Resolved OnLocal, w).

Definition syncToPterodactyl (service : Service) (w : World)
  : completion unit * World :=
  if usePterodactyl then
    match fileOf service w with
    | None => (Rejected noSuchFile, w)
    | Some content =>
        match Pterodactyl.writeWhitelistFile Panel postWrite svc content
                (panel w) with
        | (r, p) => (r, setPanel p w)
        end
    end
  else (Resolved tt, w).

(** [result.message += ' (synced to Pterodactyl server)'] *)
Definition synced (result : Result) : Result :=
  mkResult (success result)
    (message result ++ str " (synced to Pterodactyl server)").

Definition addUid (w : World) (role uid : jsstring)
  : completion Result * World :=
  match getWhitelistService w with
  | (Rejected e, w1) => (Rejected e, w1)
  | (Resolved service, w1) =>
      match addUid toUpperCase (filePath service) (fileOf service w1)
              role uid with
      | (Rejected e, fs) => (Rejected e, setFile service fs w1)
      | (Resolved result, fs) =>
          if success result && usePterodactyl then
            match syncToPterodactyl service (setFile service fs w1) with
            | (Rejected e, w3) => (Rejected e, w3)
            | (Resolved _, w3) => (Resolved (synced result), w3)
            end
          else (Resolved result, setFile service fs w1)
      end
  end.

Definition removeUid (w : World) (role uid : jsstring)
  : completion Result * World :=
  match getWhitelistService w with
  | (Rejected e, w1) => (Rejected e, w1)
  | (Resolved service, w1) =>
      match removeUid toUpperCase (filePath service) (fileOf service w1)
              role uid with
      | (Rejected e, fs) => (Rejected e, setFile service fs w1)
      | (Resolved result, fs) =>
          if success result && usePterodactyl then
            match syncToPterodactyl service (setFile service fs w1) with
            | (Rejected e, w3) => (Rejected e, w3)
            | (Resolved _, w3) => (Resolved (synced result), w3)
            end
          else (Resolved result, setFile service fs w1)
      end
  end.

(** The shape that [addUid] and [removeUid] share, over the operation of
    the service. *)
Definition change
  (operation : jsstring -> FileState -> jsstring -> jsstring
               -> completion Result * FileState)
  (w : World) (role uid : jsstring) : completion Result * World :=
  match getWhitelistService w with
  | (Rejected e, w1) => (Rejected e, w1)
  | (Resolved service, w1) =>
      match operation (filePath service) (fileOf service w1) role uid with
      | (Rejected e, fs) => (Rejected e, setFile service fs w1)
      | (Resolved result, fs) =>
          if success result && usePterodactyl then
            match syncToPterodactyl service (setFile service fs w1) with
            | (Rejected e, w3) => (Rejected e, w3)
            | (Resolved _, w3) => (Resolved (synced result), w3)
            end
          else (Resolved result, setFile service fs w1)
      end
  end.

Definition getUids (w : World) (role : jsstring)
  : completion (list jsstring) * World :=
  match getWhitelistService w with
  | (Rejected e, w1) => (Rejected e, w1)
  | (Resolved service, w1) =>
      (getUids toUpperCase (filePath service) (fileOf service w1) role, w1)
  end.

Definition getAllWhitelists (w : World) : completion WhitelistMap * World :=
  match getWhitelistService w with
  | (Rejected e, w1) => (Rejected e, w1)
  | (Resolved service, w1) =>
      (getAllWhitelists (filePath service) (fileOf service w1), w1)
  end.

(** [getRoles] *)
Definition getRoles : list Role := whitelistRoles.

(** [createBackup]: [null] without the panel. *)
Definition createBackup (iso : jsstring) (w : World)
  : completion (option jsstring) * World :=
  if usePterodactyl then
    match Pterodactyl.backupWhitelist Panel fetchContents postWrite svc iso
            (panel w) with
    | (Rejected e, p) => (Rejected e, setPanel p w)
    | (Resolved path, p) => (Resolved (Some path), setPanel p w)
    end
  else (Resolved None, w).

End Manager.

End Manager.

(** A clock string as [toISOString] gives it. *)
Definition iso0 : jsstring := str "2024-05-06T07:08:09.123Z".

(** A configured panel service, the address given with a slash at its end. *)
Definition svc0 : Pterodactyl.Service :=
  Pterodactyl.construct (Some (str "https://panel.example.com/"))
    (Some (str "ptlc_key")) (Some (str "1a2b3c4d"))
    (str "@Apex_cfg/whitelist.sqf").

(** A panel that keeps the files it is sent, by path, and answers 404 for a
    path it does not hold. *)
Definition Files := list (jsstring * jsstring).

Fixpoint fileAt (path : jsstring) (p : Files) : option jsstring :=
  match p with
  | [] => None
  | (path', content) :: p' => if eqs path' path then Some content else fileAt path p'
  end.

Definition fetch0 (path : jsstring) (p : Files) : completion jsstring * Files :=
  match fileAt path p with
  | Some content => (Resolved content, p)
  | None => (Rejected (str "Pterodactyl API error (404): "), p)
  end.

Definition post0 (path content : jsstring) (p : Files)
  : completion unit * Files :=
  (Resolved tt, (path, content) :: p).

(** The panel holding the S3-only whitelist, a stale temporary copy and no
    local file. *)
Definition world0 : Manager.World Files :=
  Manager.mkWorld Files None (Some legacyDoc)
    [(str "@Apex_cfg/whitelist.sqf", s3OnlyDoc)].

Definition tempPath0 : jsstring := str "/tmp/apex-whitelist-Ab12Cd/whitelist.sqf".

Definition noSuchFile0 : jsstring :=
  str "ENOENT: no such file or directory, open".

(** ** commands/whitelist.js *)

Module Commands.

(** The decimal digits of a natural number, most significant first; [fuel]
    bounds the number of digits. *)
Fixpoint decimal (fuel : nat) (n : N) : jsstring :=
  match fuel with
  | O => []
  | S fuel' =>
      if n <? 10 then [48 + n]
      else decimal fuel' (n / 10) ++ [48 + n mod 10]
  end.

(** Number::toString on an integer, as a template literal applies it; a
    number has no more decimal digits than binary ones. *)
Definition numberToString (z : Z) : jsstring :=
  match z with
  | Z0 => [48]
  | Zpos p => decimal (N.size_nat (Npos p)) (Npos p)
  | Zneg p => c_minus :: decimal (N.size_nat (Npos p)) (Npos p)
  end.

(** [Math.floor(1000 / 20)] *)
Definition maxUids : nat := Nat.div 1000 20.

(** [uidDisplay] of [handleList]. *)
Definition uidDisplay (uids : list jsstring) : jsstring :=
  if Nat.eqb (length uids) 0 then str "*No UIDs in this whitelist*"
  else
    let formattedUids :=
      map (fun uid => [c_backtick] ++ uid ++ [c_backtick]) uids in
    let joined := Str.join [c_newline] formattedUids in
    if Nat.ltb 1000 (length joined) then
      Str.join [c_newline] (firstn maxUids formattedUids)
        ++ [c_newline] ++ str "... and "
        ++ numberToString (Z.of_nat (length uids) - Z.of_nat maxUids)
        ++ str " more"
    else joined.

(** [roleInfo?.description || 'No description available'] of [handleList]. *)
Definition roleDescription (role : jsstring) : jsstring :=
  match find (fun r => eqs (name r) role) whitelistRoles with
  | Some roleInfo =>
      if Str.isEmpty (description roleInfo)
      then str "No description available"
      else description roleInfo
  | None => str "No description available"
  end.

(** [whitelistStats] of [handleStatus], and the value of the field made
    from it. *)
Definition whitelistStats (whitelists : WhitelistMap) : jsstring :=
  Str.join [c_newline]
    (map (fun entry =>
            str "**" ++ fst entry ++ str "**: "
              ++ numberToString (Z.of_nat (length (snd entry)))
              ++ str " UIDs")
         whitelists).

Definition statisticsField (whitelists : WhitelistMap) : jsstring :=
  if Str.isEmpty (whitelistStats whitelists) then str "No data available"
  else whitelistStats whitelists.

End Commands.

(** ** SteamAuth.php *)

Module SteamAuth.

Definition STEAM_ID_LENGTH : nat := 17.

(** A PHP array of strings under string keys, in insertion order; PHP
    strings are strings of bytes. A key that reads as a decimal integer is
    kept by PHP as an integer; such keys are outside this type. *)
Definition Params := list (jsstring * jsstring).

(** [$params[$key]] *)
Fixpoint get (key : jsstring) (params : Params) : option jsstring :=
  match params with
  | [] => None
  | (key', value) :: params' =>
      if eqs key' key then Some value else get key params'
  end.

(** [isset($params[$key])] *)
Definition isset (key : jsstring) (params : Params) : bool :=
  match get key params with Some _ => true | None => false end.

(** [$params[$key] = $value] *)
Fixpoint set (key value : jsstring) (params : Params) : Params :=
  match params with
  | [] => [(key, value)]
  | (key', value') :: params' =>
      if eqs key' key then (key', value) :: params'
      else (key', value') :: set key value params'
  end.

(** [strpos($subject, $needle) === 0] *)
Fixpoint startsWith (needle subject : jsstring) : bool :=
  match needle, subject with
  | [], _ => true
  | a :: needle', x :: subject' => (x =? a) && startsWith needle' subject'
  | _ :: _, [] => false
  end.

(** [str_replace($search, $replace, $subject)] for a search string that is
    not empty: every occurrence from the left, without overlap; [skip]
    counts the bytes of an occurrence still to pass. *)
Fixpoint str_replace_from (search replace : jsstring) (skip : nat)
  (subject : jsstring) : jsstring :=
  match subject with
  | [] => []
  | x :: rest =>
      match skip with
      | S skip' => str_replace_from search replace skip' rest
      | O =>
          if startsWith search subject
          then replace ++ str_replace_from search replace (length search - 1) rest
          else x :: str_replace_from search replace 0 rest
      end
  end.

Definition str_replace (search replace subject : jsstring) : jsstring :=
  str_replace_from search replace 0 subject.

Definition requiredParams : list jsstring :=
  [ str "openid_assoc_handle"; str "openid_signed"; str "openid_sig";
    str "openid_claimed_id" ].

(** The request built for the verification. *)
Definition verifyParams (params : Params) : Params :=
  set (str "openid.mode") (str "check_authentication")
    (fold_left
       (fun verifyParams entry =>
          if startsWith (str "openid_") (fst entry)
          then set (str_replace (str "openid_") (str "openid.") (fst entry))
                 (snd entry) verifyParams
          else verifyParams)
       params []).

(** The pattern of [validate] up to its last item:
    [^https:\/\/steamcommunity\.com\/openid\/id\/(\d{17})]. *)
Definition claimedIdPattern : regex :=
  seqs [ Bol; lit (str "https://steamcommunity.com/openid/id/");
         Group 1 (Rep STEAM_ID_LENGTH CDigit) ].

(** The last item, [$]: without the modifiers D and m, PCRE takes it at the
    end of the subject and also before a line feed that ends the subject. *)
Definition dollar : @cont caps :=
  fun t c =>
    match t with
    | [] => Some c
    | [x] => if x =? c_newline then Some c else None
    | _ :: _ :: _ => None
    end.

(** [preg_match] for a pattern that ends in [$]: the captures of the
    leftmost match. *)
Fixpoint preg_search (r : regex) (n0 : nat) (s : jsstring) : option caps :=
  match m r n0 s [] dollar with
  | Some c => Some c
  | None =>
      match s with
      | [] => None
      | _ :: s' => preg_search r n0 s'
      end
  end.

Definition preg_match (r : regex) (subject : jsstring) : option caps :=
  preg_search r (length subject) subject.

Section Validate.
(** [verifyWithSteam]: whether the answer of Steam to the request holds
    [is_valid:true]. *)
Variable verifyWithSteam : Params -> bool.

(** [validate]; [None] is [null]. *)
Definition validate (params : Params) : option jsstring :=
  match get (str "openid_mode") params with
  | None => None
  | Some mode =>
      if negb (eqs mode (str "id_res")) then None
      else if negb (forallb (fun param => isset param params) requiredParams)
      then None
      else if negb (verifyWithSteam (verifyParams params)) then None
      else
        match get (str "openid_claimed_id") params with
        | None => None
        | Some claimedId =>
            match preg_match claimedIdPattern claimedId with
            | Some matches => getCap 1 matches
            | None => None
            end
        end
  end.

End Validate.

End SteamAuth.

(** ** index.php *)

Module Index.

(** [rtrim($string, $characters)] for a list of characters without a
    range. *)
Definition rtrim (s characters : jsstring) : jsstring :=
  rev (Str.dropWhile (fun x => existsb (N.eqb x) characters) (rev s)).

Definition getCallbackUrl (baseUrl : jsstring) : jsstring :=
  rtrim baseUrl [c_slash] ++ str "/index.php?action=callback".

End Index.

(** The parameters of a callback that Steam confirms. *)
Definition callback0 : SteamAuth.Params :=
  [ (str "action", str "callback");
    (str "openid_ns", str "http://specs.openid.net/auth/2.0");
    (str "openid_mode", str "id_res");
    (str "openid_claimed_id",
     str "https://steamcommunity.com/openid/id/76561198000000099");
    (str "openid_assoc_handle", str "1234567890");
    (str "openid_signed", str "signed,op_endpoint,claimed_id");
    (str "openid_sig", str "c2lnbmF0dXJl") ].

(** Two results of a matcher run on two texts that differ only in a bracket
    body, [w1] in the one and [w2] in the other, in front of the closing
    bracket and [Z]: the first capture is the same, or the match ends at that
    bracket and the first capture ends with the body. *)
Definition holeRel (w1 w2 Z : jsstring) (y1 y2 : jsstring * caps) : Prop :=
  (exists u, y1 = (Z, [(1%nat, u ++ w1)]) /\ y2 = (Z, [(1%nat, u ++ w2)]))
  \/ snd y1 = snd y2.

(** The bracket of [role] is not empty, and the block found for [other],
    when there is one, does not end at the closing bracket of the block of
    [role]. *)
Definition apart (content role other : jsstring) : bool :=
  match exec (updatePattern role) content with
  | None => false
  | Some mr =>
      negb (Str.isEmpty (bodyOf mr))
      && match exec (parsePattern other) content with
         | None => true
         | Some mr' => negb (Nat.eqb (length (after mr')) (length (after mr)))
         end
  end.

(** * Properties *)

(** ** The matcher *)

Section MatcherFacts.
Context {R : Type}.
Implicit Types (k : @cont R) (s t u : jsstring) (c : caps).

Lemma star_sound cls k s c y :
  star cls k s c = Some y ->
  exists u t, s = u ++ t /\ accepts cls u /\ k t c = Some y.
Proof.
  induction s as [|x s IH]; simpl; intros H.
  - exists [], []; repeat split; [constructor | exact H].
  - destruct (cmatch cls x) eqn:Hx.
    + destruct (star cls k s c) as [r|] eqn:Hs.
      * injection H as ->.
        destruct (IH eq_refl) as (u & t & -> & Hu & Hk).
        exists (x :: u), t; repeat split; [constructor; assumption | exact Hk].
      * exists [], (x :: s); repeat split; [constructor | exact H].
    + exists [], (x :: s); repeat split; [constructor | exact H].
Qed.

Lemma star_complete cls k u t c :
  accepts cls u -> k t c <> None -> star cls k (u ++ t) c <> None.
Proof.
  intros Hu Hk; induction Hu as [|x u Hx Hu IH]; simpl.
  - destruct t as [|x t]; simpl; [exact Hk|].
    destruct (cmatch cls x); [|exact Hk].
    destruct (star cls k t c); [discriminate | exact Hk].
  - rewrite Hx. destruct (star cls k (u ++ t) c); [discriminate | contradiction].
Qed.

Lemma star_none cls k s c :
  star cls k s c = None ->
  forall u t, s = u ++ t -> accepts cls u -> k t c = None.
Proof.
  intros Hn u t -> Hu.
  destruct (k t c) eqn:Hk; [|reflexivity].
  exfalso; apply (star_complete cls k u t c Hu); [rewrite Hk; discriminate | exact Hn].
Qed.

Lemma star_elim cls k s c y :
  star cls k s c = Some y ->
  exists B U, s = B ++ U /\ accepts cls B /\ k U c = Some y
              /\ longest cls k c B U.
Proof.
  induction s as [|x s IH]; simpl; intros H.
  - exists [], []; repeat split; [constructor | exact H |].
    intros B' U' HB _ Hlen. destruct B'; simpl in *; [lia | discriminate].
  - assert (Hstop : k (x :: s) c = Some y ->
                    (forall B' U', x :: s = B' ++ U' -> accepts cls B' ->
                                   (0 < length B')%nat -> k U' c = None) ->
                    exists B U, x :: s = B ++ U /\ accepts cls B
                                /\ k U c = Some y /\ longest cls k c B U).
    { intros Hk Hmax. exists [], (x :: s); repeat split;
        [constructor | exact Hk | exact Hmax]. }
    destruct (cmatch cls x) eqn:Hx.
    + destruct (star cls k s c) as [r|] eqn:Hs.
      * injection H as ->.
        destruct (IH eq_refl) as (B & U & -> & HB & Hk & Hmax).
        exists (x :: B), U; repeat split; [constructor; assumption | exact Hk |].
        intros B' U' Heq HB' Hlen.
        destruct B' as [|b B']; simpl in *; [lia|].
        injection Heq as -> Heq. inversion HB'; subst.
        apply (Hmax B' U' Heq); [assumption | lia].
      * apply Hstop; [exact H|].
        intros B' U' Heq HB' Hlen.
        destruct B' as [|b B']; simpl in *; [lia|].
        injection Heq as -> Heq. inversion HB'; subst.
        apply (star_none cls k _ c Hs B' U' eq_refl); assumption.
    + apply Hstop; [exact H|].
      intros B' U' Heq HB' Hlen.
      destruct B' as [|b B']; simpl in *; [lia|].
      injection Heq as -> Heq. inversion HB'; subst. congruence.
Qed.

Lemma app_same_length (B B' U U' : jsstring) :
  B ++ U = B' ++ U' -> length B = length B' -> B = B' /\ U = U'.
Proof.
  revert B'; induction B as [|b B IH]; intros [|b' B'] Heq Hlen;
    simpl in *; try discriminate.
  - split; [reflexivity | exact Heq].
  - injection Heq as -> Heq. injection Hlen as Hlen.
    destruct (IH B' Heq Hlen) as [-> ->]; split; reflexivity.
Qed.

Lemma star_intro cls k B U c y :
  accepts cls B -> k U c = Some y -> longest cls k c B U ->
  star cls k (B ++ U) c = Some y.
Proof.
  intros HB Hk Hmax.
  destruct (star cls k (B ++ U) c) as [y'|] eqn:Hs.
  - destruct (star_elim _ _ _ _ _ Hs) as (B1 & U1 & Heq & HB1 & Hk1 & Hmax1).
    destruct (Nat.lt_trichotomy (length B) (length B1)) as [Hlt|[He|Hlt]].
    + rewrite (Hmax B1 U1 Heq HB1 Hlt) in Hk1; discriminate.
    + destruct (app_same_length _ _ _ _ Heq He) as [-> ->]. congruence.
    + rewrite (Hmax1 B U (eq_sym Heq) HB Hlt) in Hk; discriminate.
  - exfalso. apply (star_complete cls k B U c HB); [rewrite Hk; discriminate | exact Hs].
Qed.

Lemma rep_sound n cls k s c y :
  rep n cls k s c = Some y ->
  exists u t, s = u ++ t /\ length u = n /\ accepts cls u /\ k t c = Some y.
Proof.
  revert s; induction n as [|n IH]; simpl; intros s H.
  - exists [], s; repeat split; [constructor | exact H].
  - destruct s as [|x s]; [discriminate|].
    destruct (cmatch cls x) eqn:Hx; [|discriminate].
    destruct (IH _ H) as (u & t & -> & Hl & Hu & Hk).
    exists (x :: u), t; repeat split; simpl;
      [congruence | constructor; assumption | exact Hk].
Qed.

Lemma rep_complete n cls k u t c :
  length u = n -> accepts cls u -> k t c <> None ->
  rep n cls k (u ++ t) c <> None.
Proof.
  intros Hl Hu Hk; revert n Hl; induction Hu as [|x u Hx Hu IH];
    intros n Hl; simpl in Hl; subst n; simpl.
  - exact Hk.
  - rewrite Hx. apply IH; reflexivity.
Qed.

Lemma m_sound r :
  plain r = true ->
  forall n0 s c k y, m r n0 s c k = Some y ->
    exists u t c', s = u ++ t /\ L r u /\ k t c' = Some y
                   /\ (groupless r = true -> c' = c).
Proof.
  induction r as [|cls|r1 IH1 r2 IH2|cls|cls|n cls|n r IH| |];
    intros Hp n0 s c k y H; simpl in *; try discriminate.
  - exists [], s, c; auto.
  - destruct s as [|x s]; [discriminate|].
    destruct (cmatch cls x) eqn:Hx; [|discriminate].
    exists [x], s, c; repeat split; eauto.
  - apply andb_prop in Hp as [Hp1 Hp2].
    destruct (IH1 Hp1 _ _ _ _ _ H) as (u1 & t1 & c1 & -> & Hu1 & Hk1 & Hc1).
    destruct (IH2 Hp2 _ _ _ _ _ Hk1) as (u2 & t2 & c2 & -> & Hu2 & Hk2 & Hc2).
    exists (u1 ++ u2), t2, c2; repeat split.
    + now rewrite app_assoc.
    + exists u1, u2; auto.
    + exact Hk2.
    + intros Hg. apply andb_prop in Hg as [Hg1 Hg2].
      rewrite (Hc2 Hg2). auto.
  - destruct (star_sound _ _ _ _ _ H) as (u & t & -> & Hu & Hk).
    exists u, t, c; auto.
  - destruct s as [|x s]; [discriminate|].
    destruct (cmatch cls x) eqn:Hx; [|discriminate].
    destruct (star_sound _ _ _ _ _ H) as (u & t & -> & Hu & Hk).
    exists (x :: u), t, c; repeat split; auto; [discriminate | constructor; auto].
  - destruct (rep_sound _ _ _ _ _ _ H) as (u & t & -> & Hl & Hu & Hk).
    exists u, t, c; repeat split; auto.
  - destruct (IH Hp _ _ _ _ _ H) as (u & t & c' & -> & Hu & Hk & _).
    exists u, t, (setCap n (cut (u ++ t) t) c'); repeat split; auto.
    discriminate.
Qed.

Lemma m_complete r :
  plain r = true ->
  forall n0 u t c k, L r u ->
    (forall c', (groupless r = true -> c' = c) -> k t c' <> None) ->
    m r n0 (u ++ t) c k <> None.
Proof.
  induction r as [|cls|r1 IH1 r2 IH2|cls|cls|n cls|n r IH| |];
    intros Hp n0 u t c k Hu Hk; simpl in *; try discriminate; try contradiction.
  - subst u; simpl. apply Hk; auto.
  - destruct Hu as (x & -> & Hx); simpl. rewrite Hx. apply Hk; auto.
  - apply andb_prop in Hp as [Hp1 Hp2].
    destruct Hu as (u1 & u2 & -> & Hu1 & Hu2).
    rewrite <- app_assoc. apply IH1; [assumption | assumption |].
    intros c1 Hc1. apply IH2; [assumption | assumption |].
    intros c2 Hc2. apply Hk. intros Hg. apply andb_prop in Hg as [Hg1 Hg2].
    rewrite (Hc2 Hg2). auto.
  - apply star_complete; [assumption | apply Hk; auto].
  - destruct Hu as [Hne Hu]. destruct Hu as [|x u Hx Hu]; [contradiction|].
    simpl. rewrite Hx. apply star_complete; [assumption | apply Hk; auto].
  - destruct Hu as [Hl Hu]. apply rep_complete; auto.
  - apply IH; [assumption | assumption |].
    intros c' _. apply Hk. discriminate.
Qed.

End MatcherFacts.

(** ** Splitting a text at a code unit *)

Section Splits.
Implicit Types (a b c p q h t u : jsstring) (x : char).

Lemma split_left a c p q x :
  a ++ c = p ++ x :: q -> ~ In x a ->
  exists p0, p = a ++ p0 /\ c = p0 ++ x :: q.
Proof.
  revert p; induction a as [|y a IH]; intros p Heq Hx; simpl in *.
  - exists p; auto.
  - destruct p as [|y' p]; simpl in *; injection Heq as -> Heq.
    + exfalso; apply Hx; auto.
    + destruct (IH p Heq) as (p0 & -> & ->); [tauto|]. exists p0; auto.
Qed.

Lemma split_right a c p q x :
  a ++ c = p ++ x :: q -> ~ In x c ->
  exists q0, a = p ++ x :: q0 /\ q = q0 ++ c.
Proof.
  revert a; induction p as [|y p IH]; intros a Heq Hx; simpl in *.
  - destruct a as [|y a]; simpl in *.
    + exfalso; apply Hx; rewrite Heq; simpl; auto.
    + injection Heq as -> Heq. exists a; auto.
  - destruct a as [|y' a]; simpl in *.
    + exfalso; apply Hx; rewrite Heq; simpl; right; apply in_or_app; simpl; auto.
    + injection Heq as -> Heq.
      destruct (IH a Heq Hx) as (q0 & -> & ->). exists q0; auto.
Qed.

Lemma split_mid a b c p q x :
  a ++ b ++ c = p ++ x :: q -> ~ In x a -> ~ In x c ->
  exists b1 b2, b = b1 ++ x :: b2 /\ p = a ++ b1 /\ q = b2 ++ c.
Proof.
  intros Heq Ha Hc.
  destruct (split_left _ _ _ _ _ Heq Ha) as (p0 & -> & Heq').
  destruct (split_right _ _ _ _ _ Heq' Hc) as (q0 & -> & ->).
  exists p0, q0; auto.
Qed.

Lemma first_split_unique h h' t t' x :
  h ++ x :: t = h' ++ x :: t' -> ~ In x h -> ~ In x h' ->
  h = h' /\ t = t'.
Proof.
  intros Heq Hh Hh'.
  destruct (split_left _ _ _ _ _ Heq Hh) as (p0 & -> & Heq').
  destruct p0 as [|y p0]; simpl in *.
  - injection Heq' as ->. rewrite app_nil_r; auto.
  - injection Heq' as <- _. exfalso; apply Hh'; apply in_or_app; simpl; auto.
Qed.

Lemma first_occurrence x u :
  In x u -> exists h t, u = h ++ x :: t /\ ~ In x h.
Proof.
  induction u as [|y u IH]; simpl; [contradiction|].
  intros Hin. destruct (N.eq_dec y x) as [->|Hne].
  - exists [], u; auto.
  - destruct Hin as [|Hin]; [contradiction|].
    destruct (IH Hin) as (h & t & -> & Hh).
    exists (y :: h), t; split; [reflexivity|].
    simpl; intros [|]; auto.
Qed.

Lemma cut_app u t : cut (u ++ t) t = u.
Proof.
  unfold cut. rewrite length_app.
  replace (length u + length t - length t)%nat with (length u) by lia.
  rewrite firstn_app, Nat.sub_diag, firstn_all; simpl. apply app_nil_r.
Qed.

Lemma accepts_app cls u v :
  accepts cls (u ++ v) <-> accepts cls u /\ accepts cls v.
Proof. apply Forall_app. Qed.

End Splits.

(** ** What the syntactic checks mean *)

Lemma avoids_sound r x :
  avoids r x = true -> forall u, L r u -> ~ In x u.
Proof.
  assert (Hcls : forall cls u, negb (cmatch cls x) = true -> accepts cls u -> ~ In x u).
  { intros cls u Hc Hu Hin. unfold accepts in Hu. rewrite Forall_forall in Hu.
    rewrite (Hu _ Hin) in Hc. discriminate. }
  induction r as [|cls|r1 IH1 r2 IH2|cls|cls|n cls|n r IH| |];
    simpl; intros Ha u Hu; try contradiction.
  - subst u; auto.
  - destruct Hu as (y & -> & Hy). intros [->|[]].
    rewrite Hy in Ha; discriminate.
  - apply andb_prop in Ha as [Ha1 Ha2].
    destruct Hu as (u1 & u2 & -> & Hu1 & Hu2).
    intros Hin; apply in_app_or in Hin as [Hin|Hin];
      [apply (IH1 Ha1 _ Hu1 Hin) | apply (IH2 Ha2 _ Hu2 Hin)].
  - eauto.
  - destruct Hu; eauto.
  - destruct Hu; eauto.
  - eauto.
Qed.

Lemma endsIn_sound r x :
  endsIn r x = true -> forall u, L r u -> exists h, u = h ++ [x] /\ ~ In x h.
Proof.
  induction r as [|cls|r1 IH1 r2 IH2|cls|cls|n cls|n r IH| |];
    simpl; intros He u Hu; try discriminate.
  - destruct cls; try discriminate. apply N.eqb_eq in He; subst c.
    destruct Hu as (y & -> & Hy). simpl in Hy. apply N.eqb_eq in Hy; subst y.
    exists []; auto.
  - apply andb_prop in He as [Ha He].
    destruct Hu as (u1 & u2 & -> & Hu1 & Hu2).
    destruct (IH2 He _ Hu2) as (h & -> & Hh).
    exists (u1 ++ h); split; [now rewrite app_assoc|].
    intros Hin; apply in_app_or in Hin as [Hin|Hin]; [|tauto].
    exact (avoids_sound _ _ Ha _ Hu1 Hin).
  - eauto.
Qed.

Lemma startsIn_sound r x :
  startsIn r x = true -> forall u, L r u -> exists h, u = x :: h /\ ~ In x h.
Proof.
  induction r as [|cls|r1 IH1 r2 IH2|cls|cls|n cls|n r IH| |];
    simpl; intros He u Hu; try discriminate.
  - destruct cls; try discriminate. apply N.eqb_eq in He; subst c.
    destruct Hu as (y & -> & Hy). simpl in Hy. apply N.eqb_eq in Hy; subst y.
    exists []; auto.
  - apply andb_prop in He as [He Ha].
    destruct Hu as (u1 & u2 & -> & Hu1 & Hu2).
    destruct (IH1 He _ Hu1) as (h & -> & Hh).
    exists (h ++ u2); split; [reflexivity|].
    intros Hin; apply in_app_or in Hin as [Hin|Hin]; [tauto|].
    exact (avoids_sound _ _ Ha _ Hu2 Hin).
  - eauto.
Qed.

(** A pattern without groups whose words end with their only [x] has one way
    to match: the matcher goes on right after the first [x]. *)
Lemma m_det {R : Type} r x n0 u t c (k : @cont R) :
  plain r = true -> groupless r = true -> endsIn r x = true ->
  L r u -> m r n0 (u ++ t) c k = k t c.
Proof.
  intros Hp Hg He Hu.
  destruct (endsIn_sound _ _ He _ Hu) as (h & -> & Hh).
  assert (Huniq : forall y, m r n0 ((h ++ [x]) ++ t) c k = Some y -> k t c = Some y).
  { intros y Hm.
    destruct (m_sound r Hp _ _ _ _ _ Hm) as (u' & t' & c' & Heq & Hu' & Hk & Hc).
    rewrite (Hc Hg) in Hk.
    destruct (endsIn_sound _ _ He _ Hu') as (h' & -> & Hh').
    rewrite <- !app_assoc in Heq; simpl in Heq.
    destruct (first_split_unique _ _ _ _ _ Heq Hh Hh') as [_ ->]. exact Hk. }
  destruct (m r n0 ((h ++ [x]) ++ t) c k) as [y|] eqn:Hm.
  - symmetry; apply Huniq; reflexivity.
  - destruct (k t c) as [y|] eqn:Hk; [|reflexivity].
    exfalso. eapply (m_complete r Hp n0 (h ++ [x]) t c k Hu); [|exact Hm].
    intros c' Hc'. rewrite (Hc' Hg), Hk. discriminate.
Qed.

(** ** Leftmost search *)

Lemma search_elim r n0 i s mr :
  search r n0 i s = Some mr ->
  exists A M, s = A ++ M /\ index mr = (i + length A)%nat
    /\ (forall A1 A2, A = A1 ++ A2 -> A2 <> [] ->
          m r n0 (A2 ++ M) [] accept = None)
    /\ m r n0 M [] accept = Some (after mr, groups mr)
    /\ matched mr = cut M (after mr).
Proof.
  revert i; induction s as [|x s IH]; intros i; simpl.
  - destruct (m r n0 [] [] accept) as [[t c]|] eqn:Hm; [|discriminate].
    intros [= <-]. exists [], []; simpl; repeat split; auto.
    intros [|] [|] ? ?; simpl in *; congruence.
  - destruct (m r n0 (x :: s) [] accept) as [[t c]|] eqn:Hm.
    + intros [= <-]. exists [], (x :: s); simpl; repeat split; auto.
      intros [|] [|] ? ?; simpl in *; congruence.
    + intros H. destruct (IH _ H) as (A & M & -> & Hi & Hnone & Hm' & Hcut).
      exists (x :: A), M; simpl; repeat split; auto; [lia|].
      intros A1 A2 Heq Hne. destruct A1 as [|a A1]; simpl in Heq.
      * subst A2. exact Hm.
      * injection Heq as _ Heq. eapply Hnone; eauto.
Qed.

Lemma search_intro r n0 i A M t c :
  (forall A1 A2, A = A1 ++ A2 -> A2 <> [] -> m r n0 (A2 ++ M) [] accept = None) ->
  m r n0 M [] accept = Some (t, c) ->
  search r n0 i (A ++ M) = Some (mkMatch (i + length A) (cut M t) c t).
Proof.
  revert i; induction A as [|a A IH]; intros i Hnone Hm; simpl.
  - replace (i + 0)%nat with i by lia.
    destruct M as [|x M]; simpl; rewrite Hm; reflexivity.
  - assert (H0 : m r n0 (a :: A ++ M) [] accept = None)
      by (apply (Hnone [] (a :: A) eq_refl); discriminate).
    rewrite H0.
    rewrite IH; [do 2 f_equal; lia | | exact Hm].
    intros A1 A2 -> Hne. apply (Hnone (a :: A1) A2); auto.
Qed.

Lemma search_none r n0 i s :
  search r n0 i s = None ->
  forall A M, s = A ++ M -> m r n0 M [] accept = None.
Proof.
  revert i; induction s as [|x s IH]; intros i; simpl.
  - destruct (m r n0 [] [] accept) as [[t c]|] eqn:Hm; [discriminate|].
    intros _ A M Heq. symmetry in Heq. apply app_eq_nil in Heq as [_ ->]. exact Hm.
  - destruct (m r n0 (x :: s) [] accept) as [[t c]|] eqn:Hm; [discriminate|].
    intros H A M Heq. destruct A as [|a A]; simpl in Heq.
    + subst M; exact Hm.
    + injection Heq as _ Heq. eapply IH; eauto.
Qed.

(** ** The two patterns of the service *)

Lemma role_checks R :
  In R roleNames ->
  plain (ifGuard R) = true /\ groupless (ifGuard R) = true
  /\ endsIn (ifGuard R) c_lbrace = true
  /\ avoids (ifGuard R) c_lbracket = true.
Proof.
  unfold roleNames; simpl.
  intros H; repeat (destruct H as [<-|H]; [vm_compute; auto|]); contradiction.
Qed.

Lemma returnOpen_checks :
  plain returnOpen = true /\ groupless returnOpen = true
  /\ endsIn returnOpen c_lbracket = true
  /\ startsIn returnOpen c_underscore = true
  /\ avoids returnOpen c_lbrace = true
  /\ avoids returnOpen c_rbrace = true.
Proof. vm_compute; auto 10. Qed.

Lemma notIn_accepts x h : ~ In x h -> accepts (CNoneOf [x]) h.
Proof.
  intros Hh. apply Forall_forall. intros y Hy. simpl.
  destruct (N.eqb_spec y x) as [->|]; [contradiction | reflexivity].
Qed.

Lemma accepts_notIn x h : accepts (CNoneOf [x]) h -> ~ In x h.
Proof.
  intros Hh Hin. unfold accepts in Hh. rewrite Forall_forall in Hh.
  specialize (Hh _ Hin). simpl in Hh. rewrite N.eqb_refl in Hh. discriminate.
Qed.

Lemma updatePattern_unfold R n0 s :
  m (updatePattern R) n0 s [] accept =
  m (ifGuard R) n0 s []
    (fun s2 c2 =>
       star notBrace (fun s3 c3 => m returnOpen n0 s3 c3 (updTail n0 s)) s2 c2).
Proof. reflexivity. Qed.

Lemma parsePattern_unfold R n0 s :
  m (parsePattern R) n0 s [] accept =
  m (ifGuard R) n0 s []
    (fun s2 c2 => star notBrace (fun s3 c3 => m parseRest n0 s3 c3 accept) s2 c2).
Proof. reflexivity. Qed.

Lemma updTail_elim n0 s W c Z cs :
  updTail n0 s W c = Some (Z, cs) ->
  exists body, W = body ++ c_rbracket :: Z /\ accepts notBracket body
               /\ cs = setCap 2 [c_rbracket] (setCap 1 (cut s W) c).
Proof.
  unfold updTail; simpl. intros H.
  destruct (star_sound _ _ _ _ _ H) as (body & t & -> & Hb & Hk).
  destruct t as [|x t]; [discriminate|].
  destruct (N.eqb_spec x c_rbracket) as [->|]; [|discriminate].
  unfold accept in Hk. injection Hk as -> <-.
  exists body; repeat split; auto.
  change (c_rbracket :: Z) with ([c_rbracket] ++ Z). now rewrite cut_app.
Qed.

Lemma updTail_some n0 s W c :
  In c_rbracket W -> updTail n0 s W c <> None.
Proof.
  intros Hin. destruct (first_occurrence _ _ Hin) as (h & t & -> & Hh).
  unfold updTail; simpl.
  apply star_complete; [apply notIn_accepts; exact Hh|].
  rewrite N.eqb_refl. discriminate.
Qed.

(** A run of [updatePattern] that succeeds: the pieces of the block it
    found, its captures, and the greedy choice of the assignment. *)
Lemma update_run_elim R n0 s Z cs :
  In R roleNames ->
  m (updatePattern R) n0 s [] accept = Some (Z, cs) ->
  exists G B Rt body,
    s = G ++ B ++ Rt ++ body ++ c_rbracket :: Z
    /\ isBlock R G B Rt body
    /\ cs = [(1%nat, G ++ B ++ Rt); (2%nat, [c_rbracket])]
    /\ (forall B' Rt' W, B ++ Rt ++ body ++ c_rbracket :: Z = B' ++ Rt' ++ W ->
          accepts notBrace B' -> (length B < length B')%nat ->
          L returnOpen Rt' -> ~ In c_rbracket W).
Proof.
  intros HR H. rewrite updatePattern_unfold in H.
  destruct (role_checks R HR) as (Hp & Hg & He & Ha).
  destruct returnOpen_checks as (Hp' & Hg' & He' & _).
  destruct (m_sound _ Hp _ _ _ _ _ H) as (G & T & c' & -> & HG & Hk & Hc).
  rewrite (Hc Hg) in Hk; clear Hc c'.
  destruct (star_elim _ _ _ _ _ Hk) as (B & U & -> & HB & Hk2 & Hmax).
  destruct (m_sound _ Hp' _ _ _ _ _ Hk2) as (Rt & W & c' & -> & HRt & Hk3 & Hc).
  rewrite (Hc Hg') in Hk3; clear Hc c'.
  destruct (updTail_elim _ _ _ _ _ _ Hk3) as (body & -> & Hbody & ->).
  exists G, B, Rt, body; repeat split; auto.
  - replace (G ++ B ++ Rt ++ body ++ c_rbracket :: Z)
      with ((G ++ B ++ Rt) ++ body ++ c_rbracket :: Z)
      by (now rewrite <- !app_assoc).
    rewrite cut_app. reflexivity.
  - intros B' Rt' W Heq HB' Hlen HRt' Hin.
    specialize (Hmax B' (Rt' ++ W) Heq HB' Hlen). cbv beta in Hmax.
    rewrite (m_det returnOpen c_lbracket) in Hmax by assumption.
    exact (updTail_some _ _ _ _ Hin Hmax).
Qed.

(** A text that starts with a block makes [updatePattern] succeed. *)
Lemma update_run_some R n0 G B Rt W :
  In R roleNames ->
  L (ifGuard R) G -> accepts notBrace B -> L returnOpen Rt ->
  In c_rbracket W ->
  m (updatePattern R) n0 (G ++ B ++ Rt ++ W) [] accept <> None.
Proof.
  intros HR HG HB HRt Hin. rewrite updatePattern_unfold.
  destruct (role_checks R HR) as (Hp & Hg & He & Ha).
  destruct returnOpen_checks as (Hp' & Hg' & He' & _).
  rewrite (m_det (ifGuard R) c_lbrace) by assumption.
  apply star_complete; [assumption|].
  rewrite (m_det returnOpen c_lbracket) by assumption.
  apply updTail_some; assumption.
Qed.

Lemma parseRest_elim n0 s c y :
  m parseRest n0 s c accept = Some y ->
  exists Rt body Z, s = Rt ++ body ++ c_rbracket :: Z /\ L returnOpen Rt
                    /\ body <> [] /\ accepts notBracket body.
Proof.
  intros H.
  destruct (m_sound parseRest eq_refl _ _ _ _ _ H)
    as (u & t & c' & -> & Hu & _ & _).
  destruct Hu as (Rt & u2 & -> & HRt & body & u3 & -> & [Hne Hb] & x & -> & Hx).
  simpl in Hx. apply N.eqb_eq in Hx; subst x.
  exists Rt, body, t; repeat split; auto.
  now rewrite <- !app_assoc.
Qed.

(** A run of [parsePattern] that succeeds found a block with a bracket body
    that is not empty. *)
Lemma parse_run_elim R n0 s y :
  In R roleNames ->
  m (parsePattern R) n0 s [] accept = Some y ->
  exists G B Rt body Z,
    s = G ++ B ++ Rt ++ body ++ c_rbracket :: Z
    /\ isBlock R G B Rt body /\ body <> [].
Proof.
  intros HR H. rewrite parsePattern_unfold in H.
  destruct (role_checks R HR) as (Hp & Hg & He & Ha).
  destruct (m_sound _ Hp _ _ _ _ _ H) as (G & T & c' & -> & HG & Hk & _).
  destruct (star_sound _ _ _ _ _ Hk) as (B & U & -> & HB & Hk2).
  destruct (parseRest_elim _ _ _ _ Hk2) as (Rt & body & Z & -> & HRt & Hne & Hb).
  exists G, B, Rt, body, Z; repeat split; auto.
Qed.

(** The exact result of [parsePattern] at a block, when no later assignment
    of the same block could be taken instead. *)
Lemma parse_run_exact R n0 G B Rt body Z :
  In R roleNames ->
  isBlock R G B Rt body -> body <> [] ->
  (forall B' Rt' body' Z',
      B ++ Rt ++ body ++ c_rbracket :: Z = B' ++ Rt' ++ body' ++ c_rbracket :: Z' ->
      accepts notBrace B' -> (length B < length B')%nat ->
      L returnOpen Rt' -> False) ->
  m (parsePattern R) n0 (G ++ B ++ Rt ++ body ++ c_rbracket :: Z) [] accept
  = Some (Z, [(1%nat, body)]).
Proof.
  intros HR (HG & HB & HRt & Hb) Hne Hmax. rewrite parsePattern_unfold.
  destruct (role_checks R HR) as (Hp & Hg & He & Ha).
  destruct returnOpen_checks as (Hp' & Hg' & He' & _).
  rewrite (m_det (ifGuard R) c_lbrace) by assumption.
  apply star_intro; [assumption | |].
  - change (m parseRest n0 (Rt ++ body ++ c_rbracket :: Z) [] accept)
      with (m returnOpen n0 (Rt ++ body ++ c_rbracket :: Z) []
              (fun s' c' => m (Seq (Group 1 (Plus notBracket))
                                   (Atom (CChar c_rbracket))) n0 s' c' accept)).
    rewrite (m_det returnOpen c_lbracket) by assumption.
    destruct body as [|x body]; [contradiction|].
    inversion Hb as [|? ? Hx Hb']; subst. simpl m. 
    change (cmatch notBracket x) with (cmatch (CNoneOf [c_rbracket]) x) in Hx.
    simpl in Hx. simpl. rewrite Hx.
    apply star_intro; [assumption | |].
    + rewrite N.eqb_refl. unfold accept. do 3 f_equal.
      change (x :: body ++ c_rbracket :: Z) with ((x :: body) ++ c_rbracket :: Z).
      now rewrite cut_app.
    + intros B' U' Heq HB' Hlen.
      exfalso. apply (accepts_notIn c_rbracket B' HB').
      assert (Hcut : firstn (length body) (B' ++ U') = body).
      { rewrite <- Heq, firstn_app, Nat.sub_diag, firstn_all; simpl.
        apply app_nil_r. }
      assert (Hn : nth_error (B' ++ U') (length body) = Some c_rbracket).
      { rewrite <- Heq, nth_error_app2, Nat.sub_diag by lia. reflexivity. }
      rewrite nth_error_app1 in Hn by lia.
      eapply nth_error_In; eauto.
  - intros B' U' Heq HB' Hlen. cbv beta.
    destruct (m parseRest n0 U' [] accept) as [y|] eqn:Hm; [|reflexivity].
    exfalso.
    destruct (parseRest_elim _ _ _ _ Hm) as (Rt' & body' & Z' & -> & HRt' & _ & _).
    eapply Hmax; eauto.
Qed.

Lemma accepts_of_avoids r x u :
  avoids r x = true -> L r u -> accepts (CNoneOf [x]) u.
Proof. intros Ha Hu. apply notIn_accepts. exact (avoids_sound _ _ Ha _ Hu). Qed.

(** [exec] of [updatePattern]: where the block starts, its pieces, the two
    captures, that no earlier start position holds a block, and the greedy
    choice of the assignment inside the block. *)
Lemma exec_update_elim R D mr :
  In R roleNames ->
  exec (updatePattern R) D = Some mr ->
  exists A G B Rt body Z,
    D = A ++ G ++ B ++ Rt ++ body ++ c_rbracket :: Z
    /\ isBlock R G B Rt body
    /\ index mr = length A
    /\ matched mr = G ++ B ++ Rt ++ body ++ [c_rbracket]
    /\ groups mr = [(1%nat, G ++ B ++ Rt); (2%nat, [c_rbracket])]
    /\ after mr = Z
    /\ (forall A1 A2 G' B' Rt' W,
          A = A1 ++ A2 -> A2 <> [] ->
          A2 ++ G ++ B ++ Rt ++ body ++ c_rbracket :: Z = G' ++ B' ++ Rt' ++ W ->
          L (ifGuard R) G' -> accepts notBrace B' -> L returnOpen Rt' ->
          ~ In c_rbracket W)
    /\ (forall B' Rt' W,
          B ++ Rt ++ body ++ c_rbracket :: Z = B' ++ Rt' ++ W ->
          accepts notBrace B' -> (length B < length B')%nat ->
          L returnOpen Rt' -> ~ In c_rbracket W).
Proof.
  intros HR H. unfold exec in H.
  destruct (search_elim _ _ _ _ _ H) as (A & M & -> & Hi & Hnone & Hm & Hcut).
  destruct (update_run_elim _ _ _ _ _ HR Hm)
    as (G & B & Rt & body & -> & Hblk & Hcs & Hmax).
  exists A, G, B, Rt, body, (after mr).
  split; [reflexivity|]. split; [exact Hblk|]. split; [exact Hi|].
  split; [|split; [exact Hcs|split; [reflexivity|split; [|exact Hmax]]]].
  - rewrite Hcut.
    replace (G ++ B ++ Rt ++ body ++ c_rbracket :: after mr)
      with ((G ++ B ++ Rt ++ body ++ [c_rbracket]) ++ after mr)
      by (now rewrite <- !app_assoc).
    apply cut_app.
  - intros A1 A2 G' B' Rt' W -> Hne Heq HG' HB' HRt' Hin.
    apply (update_run_some R (length ((A1 ++ A2) ++
             G ++ B ++ Rt ++ body ++ c_rbracket :: after mr)) G' B' Rt' W);
      auto.
    rewrite <- Heq. apply (Hnone A1 A2); auto.
Qed.

(** A block found by [parsePattern] after the bracket body of a block was
    rewritten was a block before the rewrite as well. *)
Lemma block_transfer R X0 Rt Y G' B' Rt' Y' W :
  In R roleNames ->
  L returnOpen Rt ->
  L (ifGuard R) G' -> accepts notBrace B' -> L returnOpen Rt' ->
  X0 ++ Rt ++ Y = G' ++ B' ++ Rt' ++ Y' ->
  In c_rbracket W ->
  exists G2 B2 Rt2 W2,
    X0 ++ Rt ++ W = G2 ++ B2 ++ Rt2 ++ W2
    /\ L (ifGuard R) G2 /\ accepts notBrace B2 /\ L returnOpen Rt2
    /\ In c_rbracket W2.
Proof.
  intros HR HRt HG' HB' HRt' Heq HW.
  destruct (role_checks R HR) as (_ & _ & HeG & HaG).
  destruct returnOpen_checks as (_ & _ & HeR & _ & HaR & _).
  destruct (endsIn_sound _ _ HeR _ HRt) as (Rh & -> & HRh).
  destruct (endsIn_sound _ _ HeR _ HRt') as (Rh' & -> & HRh').
  assert (HprefCase : forall X2, X0 ++ Rh ++ [c_lbracket]
                                 = G' ++ B' ++ (Rh' ++ [c_lbracket]) ++ X2 ->
            exists G2 B2 Rt2 W2,
              X0 ++ (Rh ++ [c_lbracket]) ++ W = G2 ++ B2 ++ Rt2 ++ W2
              /\ L (ifGuard R) G2 /\ accepts notBrace B2 /\ L returnOpen Rt2
              /\ In c_rbracket W2).
  { intros X2 HX. exists G', B', (Rh' ++ [c_lbracket]), (X2 ++ W).
    repeat split; auto.
    - replace (X0 ++ (Rh ++ [c_lbracket]) ++ W)
        with ((X0 ++ Rh ++ [c_lbracket]) ++ W) by (now rewrite <- !app_assoc).
      rewrite HX. now rewrite <- !app_assoc.
    - apply in_or_app; auto. }
  assert (Heq' : (X0 ++ Rh) ++ c_lbracket :: Y
                 = (G' ++ B' ++ Rh') ++ c_lbracket :: Y')
    by (rewrite <- !app_assoc in *; simpl in *; exact Heq).
  apply app_eq_app in Heq' as [l [[HP Hl]|[HP Hl]]].
  - destruct l as [|x l]; simpl in Hl.
    + apply (HprefCase []). rewrite app_nil_r in *. rewrite app_assoc, HP.
      now rewrite <- !app_assoc.
    + injection Hl as Hx Hl; subst x. apply (HprefCase (l ++ [c_lbracket])).
      rewrite app_assoc, HP. rewrite <- !app_assoc; simpl. reflexivity.
  - destruct l as [|x l]; simpl in Hl.
    + apply (HprefCase []). rewrite app_nil_r in *. rewrite app_assoc, <- HP.
      now rewrite <- !app_assoc.
    + injection Hl as Hx Hl; subst x.
      assert (HG'lb : ~ In c_lbracket G') by exact (avoids_sound _ _ HaG _ HG').
      destruct (split_mid _ _ _ _ _ _ HP HG'lb HRh') as (b1 & b2 & -> & Hb1 & _).
      destruct (endsIn_sound _ _ HeG _ HG') as (Gh & -> & HGh).
      rewrite <- app_assoc in Hb1; simpl in Hb1.
      assert (HRhb : ~ In c_lbrace Rh).
      { intros Hin. apply (avoids_sound _ _ HaR _ HRt). apply in_or_app; auto. }
      destruct (split_right _ _ _ _ _ Hb1 HRhb) as (q0 & -> & ->).
      exists (Gh ++ [c_lbrace]), q0, (Rh ++ [c_lbracket]), W.
      repeat split; auto.
      * rewrite <- !app_assoc; reflexivity.
      * apply accepts_app in HB' as [HB' _]. apply accepts_app in HB' as [HB' _].
        exact HB'.
Qed.

Lemma longer_prefix (B B' X Y : jsstring) :
  B ++ X = B' ++ Y -> (length B < length B')%nat ->
  exists z, z <> [] /\ B' = B ++ z /\ X = z ++ Y.
Proof.
  intros Heq Hlen. apply app_eq_app in Heq as [l [[HP Hl]|[HP Hl]]].
  - subst B. rewrite length_app in Hlen. lia.
  - exists l; repeat split; auto. intros ->. rewrite app_nil_r in HP. subst. lia.
Qed.

(** A later assignment that [parsePattern] could take after the rewrite was
    a later assignment before the rewrite. *)
Lemma later_transfer B Rt repl body Z B' Rt' W' :
  L returnOpen Rt -> L returnOpen Rt' ->
  ~ In c_underscore repl -> accepts notBrace repl -> accepts notBrace body ->
  B ++ Rt ++ repl ++ c_rbracket :: Z = B' ++ Rt' ++ W' ->
  accepts notBrace B -> accepts notBrace B' -> (length B < length B')%nat ->
  exists B3, B ++ Rt ++ body ++ c_rbracket :: Z = B3 ++ Rt' ++ W'
             /\ accepts notBrace B3 /\ (length B < length B3)%nat.
Proof.
  intros HRt HRt' Hus Hrepl Hbody Heq HB HB' Hlen.
  destruct returnOpen_checks as (_ & _ & _ & HsR & _ & HaR).
  destruct (longer_prefix _ _ _ _ Heq Hlen) as (z & Hz & -> & Heq').
  pose proof (accepts_of_avoids _ _ _ HaR HRt) as HRtnb.
  destruct (startsIn_sound _ _ HsR _ HRt) as (Rm & -> & HRm).
  destruct (startsIn_sound _ _ HsR _ HRt') as (Rm' & -> & HRm').
  destruct z as [|x z']; [contradiction|].
  simpl in Heq'. injection Heq' as <- Heq'.
  assert (Hnot : ~ In c_underscore (Rm ++ repl ++ [c_rbracket])).
  { intros Hin. apply in_app_or in Hin as [Hin|Hin]; [tauto|].
    apply in_app_or in Hin as [Hin|[Hin|[]]]; [tauto | discriminate]. }
  assert (Heq2 : (Rm ++ repl ++ [c_rbracket]) ++ Z
                 = z' ++ c_underscore :: Rm' ++ W')
    by (rewrite <- !app_assoc; simpl; exact Heq').
  destruct (split_left _ _ _ _ _ Heq2 Hnot) as (p0 & -> & ->).
  exists (B ++ (c_underscore :: Rm) ++ body ++ c_rbracket :: p0).
  repeat split.
  - repeat (rewrite <- ?app_assoc; simpl). reflexivity.
  - apply accepts_app in HB' as [_ HB'].
    change (c_underscore :: (Rm ++ repl ++ [c_rbracket]) ++ p0)
      with ((c_underscore :: Rm ++ repl ++ [c_rbracket]) ++ p0) in HB'.
    apply accepts_app in HB' as [_ Hp0].
    repeat (apply accepts_app; split); auto.
    constructor; [reflexivity | exact Hp0].
  - rewrite !length_app; simpl. lia.
Qed.

Ltac lnorm := repeat (rewrite <- ?app_assoc; simpl).

Lemma bodyOf_block mr X body :
  groups mr = [(1%nat, X); (2%nat, [c_rbracket])] ->
  matched mr = X ++ body ++ [c_rbracket] ->
  bodyOf mr = body.
Proof.
  intros Hg Hm. unfold bodyOf, Replace.capture. rewrite Hg, Hm; simpl.
  rewrite skipn_app, Nat.sub_diag, skipn_all; simpl.
  apply removelast_last.
Qed.

(** The heart of the round trip: once the bracket body of the block found by
    [updatePattern] is replaced by a text without bracket, brace and
    underscore, [parsePattern] finds the same block and captures that text. *)
Lemma rewrite_then_parse R D mr repl :
  In R roleNames ->
  exec (updatePattern R) D = Some mr ->
  accepts notBrace (bodyOf mr) ->
  repl <> [] -> ~ In c_underscore repl -> ~ In c_rbracket repl ->
  ~ In c_rbrace repl ->
  exists mr',
    exec (parsePattern R)
      (firstn (index mr) D ++ Replace.capture 1 mr ++ repl
         ++ Replace.capture 2 mr ++ after mr) = Some mr'
    /\ Replace.capture 1 mr' = repl.
Proof.
  intros HR Hex Hbody Hne Hus Hrb Hbr.
  destruct (exec_update_elim _ _ _ HR Hex)
    as (A & G & B & Rt & body & Z & -> & Hblk & Hi & Hm & Hg & Hz & Hearly & Hmax).
  assert (Hm' : matched mr = (G ++ B ++ Rt) ++ body ++ [c_rbracket])
    by (rewrite Hm; now lnorm).
  rewrite (bodyOf_block _ _ _ Hg Hm') in Hbody.
  destruct Hblk as (HG & HB & HRt & Hb).
  unfold Replace.capture. rewrite Hg, Hi, Hz; simpl.
  rewrite firstn_app, Nat.sub_diag, firstn_all; simpl. rewrite app_nil_r.
  replace (A ++ (G ++ B ++ Rt) ++ repl ++ c_rbracket :: Z)
    with (A ++ G ++ B ++ Rt ++ repl ++ c_rbracket :: Z) by (now lnorm).
  unfold exec.
  match goal with |- exists _, search ?r ?n _ _ = _ /\ _ =>
    assert (Hs : search r n 0 (A ++ G ++ B ++ Rt ++ repl ++ c_rbracket :: Z)
                 = Some (mkMatch (0 + length A)
                           (cut (G ++ B ++ Rt ++ repl ++ c_rbracket :: Z) Z)
                           [(1%nat, repl)] Z));
    [apply search_intro | rewrite Hs; eexists; split; reflexivity]
  end.
  - intros A1 A2 HA Hne2.
    match goal with |- ?t = None => destruct t as [y|] eqn:Hrun; [|reflexivity] end.
    exfalso.
    destruct (parse_run_elim _ _ _ _ HR Hrun)
      as (G' & B' & Rt' & body' & Z' & Heq & (HG' & HB' & HRt' & _) & _).
    destruct (block_transfer R (A2 ++ G ++ B) Rt (repl ++ c_rbracket :: Z)
                G' B' Rt' (body' ++ c_rbracket :: Z') (body ++ c_rbracket :: Z))
      as (G2 & B2 & Rt2 & W2 & Heq2 & HG2 & HB2 & HRt2 & Hin); auto.
    + rewrite <- Heq. now lnorm.
    + apply in_or_app; simpl; auto.
    + apply (Hearly A1 A2 G2 B2 Rt2 W2); auto.
      rewrite <- Heq2. now lnorm.
  - apply parse_run_exact; auto.
    + repeat split; auto. apply notIn_accepts; exact Hrb.
    + intros B' Rt' body' Z' Heq HB' Hlen HRt'.
      destruct (later_transfer B Rt repl body Z B' Rt' (body' ++ c_rbracket :: Z'))
        as (B3 & Heq3 & HB3 & Hlen3); auto.
      * apply notIn_accepts; exact Hbr.
      * apply (Hmax B3 Rt' (body' ++ c_rbracket :: Z')); auto.
        apply in_or_app; simpl; auto.
Qed.

(** ** Strings, anchored tests and the map of [parseContent] *)

Lemma eqs_true a b : eqs a b = true <-> a = b.
Proof. unfold eqs. destruct (list_eq_dec N.eq_dec a b); split; congruence. Qed.

Lemma eqs_false a b : eqs a b = false <-> a <> b.
Proof. unfold eqs. destruct (list_eq_dec N.eq_dec a b); split; congruence. Qed.

Lemma eqs_refl a : eqs a a = true.
Proof. apply eqs_true; reflexivity. Qed.

Lemma includes_In l x : Str.includes l x = true <-> In x l.
Proof.
  unfold Str.includes. rewrite existsb_exists. split.
  - intros (y & Hy & He). apply eqs_true in He. now subst.
  - intros H. exists x; split; [assumption | apply eqs_refl].
Qed.

Lemma includes_not_In l x : Str.includes l x = false <-> ~ In x l.
Proof.
  rewrite <- includes_In. destruct (Str.includes l x); split; congruence.
Qed.

Lemma star_eol {R : Type} cls (ke : @cont R) u c :
  (forall x s c', ke (x :: s) c' = None) ->
  star cls ke u c = if forallb (cmatch cls) u then ke [] c else None.
Proof.
  intros Hke. induction u as [|x u IH]; simpl; [reflexivity|].
  destruct (cmatch cls x); simpl; [|apply Hke].
  rewrite IH. destruct (forallb (cmatch cls) u); [|apply Hke].
  destruct (ke [] c); [reflexivity | apply Hke].
Qed.

Lemma rep_eol {R : Type} n cls (ke : @cont R) u c :
  (forall x s c', ke (x :: s) c' = None) ->
  rep n cls ke u c
  = if (Nat.eqb (length u) n && forallb (cmatch cls) u)%bool then ke [] c else None.
Proof.
  intros Hke. revert u; induction n as [|n IH]; intros [|x u]; simpl;
    try reflexivity; [apply Hke|].
  rewrite IH. destruct (cmatch cls x); simpl; [reflexivity|].
  now rewrite andb_false_r.
Qed.

Lemma search_step r n0 i x s :
  search r n0 i (x :: s)
  = match m r n0 (x :: s) [] accept with
    | Some (t, c) => Some (mkMatch i (cut (x :: s) t) c t)
    | None => search r n0 (S i) s
    end.
Proof. reflexivity. Qed.

Lemma m_bol {R : Type} r n0 s c (k : @cont R) :
  m (Seq Bol r) n0 s c k = if Nat.eqb (length s) n0 then m r n0 s c k else None.
Proof. reflexivity. Qed.

Lemma search_bol_fail r n0 i s :
  (length s < n0)%nat -> search (Seq Bol r) n0 i s = None.
Proof.
  revert i; induction s as [|x s IH]; intros i Hlen.
  - simpl in *. destruct n0; [lia | reflexivity].
  - rewrite search_step, m_bol.
    destruct (Nat.eqb_spec (length (x :: s)) n0) as [He|_];
      simpl in *; [lia|].
    apply IH; lia.
Qed.

Lemma test_digitsOnly u : test digitsOnly u = isDigitString u.
Proof.
  unfold test, exec, isDigitString. destruct u as [|x u]; [reflexivity|].
  cbn [search digitsOnly seqs length]. 
  change (m (Seq Bol (Seq (Plus CDigit) Eol)) (S (length u)) (x :: u) [] accept)
    with (if Nat.eqb (S (length u)) (S (length u))
          then if isDigit x
               then star CDigit (fun s' c' => m Eol (S (length u)) s' c' accept) u []
               else None
          else None).
  rewrite Nat.eqb_refl, star_eol by reflexivity. simpl.
  destruct (isDigit x); simpl.
  - destruct (forallb isDigit u) eqn:Hu.
    + change (forallb (cmatch CDigit) u) with (forallb isDigit u). now rewrite Hu.
    + change (forallb (cmatch CDigit) u) with (forallb isDigit u). rewrite Hu.
      now rewrite search_bol_fail by lia.
  - now rewrite search_bol_fail by lia.
Qed.

Lemma test_steam64 u :
  test steam64 u = (Nat.eqb (length u) 17 && forallb isDigit u)%bool.
Proof.
  unfold test, exec. destruct u as [|x u]; [reflexivity|].
  cbn [search steam64 seqs].
  change (m (Seq Bol (Seq (Rep 17 CDigit) Eol)) (length (x :: u)) (x :: u) [] accept)
    with (if Nat.eqb (length (x :: u)) (length (x :: u))
          then rep 17 CDigit (fun s' c' => m Eol (length (x :: u)) s' c' accept)
                 (x :: u) []
          else None).
  rewrite Nat.eqb_refl, rep_eol by reflexivity.
  change (forallb (cmatch CDigit) (x :: u)) with (forallb isDigit (x :: u)).
  destruct (Nat.eqb (length (x :: u)) 17 && forallb isDigit (x :: u))%bool;
    [reflexivity|].
  simpl length. now rewrite search_bol_fail by lia.
Qed.

Lemma mapGet_set_same k v w : mapGet k (mapSet k v w) = Some v.
Proof.
  induction w as [|[k' v'] w IH]; simpl.
  - now rewrite eqs_refl.
  - destruct (eqs k' k) eqn:He; simpl; rewrite He; auto.
Qed.

Lemma mapGet_set_other k k' v w :
  k <> k' -> mapGet k (mapSet k' v w) = mapGet k w.
Proof.
  intros Hne. induction w as [|[k2 v2] w IH]; simpl.
  - apply not_eq_sym in Hne. apply eqs_false in Hne. now rewrite Hne.
  - destruct (eqs k2 k') eqn:He; simpl.
    + apply eqs_true in He; subst k2.
      apply not_eq_sym in Hne. apply eqs_false in Hne. now rewrite Hne.
    + now rewrite IH.
Qed.

Lemma mapGet_fold_other (f : jsstring -> list jsstring) names k w :
  ~ In k names ->
  mapGet k (fold_left (fun wl r => mapSet r (f r) wl) names w) = mapGet k w.
Proof.
  revert w; induction names as [|r names IH]; intros w Hk; simpl; [reflexivity|].
  rewrite IH by (simpl in Hk; tauto).
  apply mapGet_set_other. simpl in Hk. intros ->; tauto.
Qed.

Lemma mapGet_fold (f : jsstring -> list jsstring) names k w :
  NoDup names -> In k names ->
  mapGet k (fold_left (fun wl r => mapSet r (f r) wl) names w) = Some (f k).
Proof.
  revert w; induction names as [|r names IH]; intros w Hnd Hk; simpl;
    [contradiction|].
  inversion Hnd as [|? ? Hr Hnd']; subst.
  destruct Hk as [->|Hk].
  - rewrite mapGet_fold_other by assumption. apply mapGet_set_same.
  - apply IH; assumption.
Qed.

Lemma roleNames_NoDup : NoDup roleNames.
Proof.
  unfold roleNames; simpl.
  repeat (constructor;
          [simpl; intros H;
           repeat (destruct H as [H|H]; [vm_compute in H; discriminate H|]);
           exact H|]).
  constructor.
Qed.

Lemma parseContent_get content R :
  In R roleNames -> mapGet R (parseContent content) = Some (parseRole content R).
Proof.
  intros HR. unfold parseContent.
  apply (mapGet_fold (parseRole content)); [apply roleNames_NoDup | exact HR].
Qed.

Lemma parseContent_get_none content R :
  ~ In R roleNames -> mapGet R (parseContent content) = None.
Proof.
  intros HR. unfold parseContent.
  now rewrite (mapGet_fold_other (parseRole content)).
Qed.

Lemma replacement_cons u l :
  replacement (u :: l)
  = c_newline
      :: Str.join [c_comma; c_newline]
           (map (fun uid => c_tab :: c_tab :: c_squote :: uid ++ [c_squote]) (u :: l))
      ++ [c_newline; c_tab].
Proof. destruct l; reflexivity. Qed.

Lemma digitString_spec u :
  isDigitString u = true <-> u <> [] /\ Forall (fun c => isDigit c = true) u.
Proof.
  unfold isDigitString. rewrite andb_true_iff, forallb_forall, Forall_forall.
  destruct u; simpl; split; intros [H1 H2]; split; auto; congruence.
Qed.

Lemma digit_replChar c : isDigit c = true -> replChar c = true.
Proof. unfold replChar. now intros ->. Qed.

Lemma entry_replChar u :
  isDigitString u = true -> forallb replChar (entry u) = true.
Proof.
  intros Hu. apply digitString_spec in Hu as [_ Hu].
  unfold entry. simpl. rewrite forallb_app; simpl. rewrite andb_true_r.
  apply forallb_forall. intros c Hc. rewrite Forall_forall in Hu.
  apply digit_replChar; auto.
Qed.

Lemma join_replChar l :
  Forall (fun u => isDigitString u = true) l ->
  forallb replChar (Str.join [c_comma; c_newline] (map entry l)) = true.
Proof.
  induction 1 as [|u l Hu Hl IH]; [reflexivity|].
  destruct l as [|v l]; [simpl; now apply entry_replChar|].
  change (Str.join [c_comma; c_newline] (map entry (u :: v :: l)))
    with (entry u ++ [c_comma; c_newline]
            ++ Str.join [c_comma; c_newline] (map entry (v :: l))).
  rewrite !forallb_app, entry_replChar, IH by assumption. reflexivity.
Qed.

(** What [updateWhitelistInContent] writes between the brackets starts with
    a line feed and holds digits, line feeds, tabs, quotes and commas only. *)
Lemma replacement_chars l :
  Forall (fun u => isDigitString u = true) l ->
  forallb replChar (replacement l) = true
  /\ exists tl, replacement l = c_newline :: tl.
Proof.
  intros Hl. destruct l as [|u l].
  - split; [reflexivity | eexists; reflexivity].
  - rewrite replacement_cons. split; [|eexists; reflexivity].
    change (fun uid => c_tab :: c_tab :: c_squote :: uid ++ [c_squote]) with entry.
    apply forallb_forall. intros c [<-|Hc]; [reflexivity|].
    apply in_app_or in Hc as [Hc|Hc].
    + pose proof (join_replChar _ Hl) as Hj. rewrite forallb_forall in Hj. auto.
    + destruct Hc as [<-|[<-|[]]]; reflexivity.
Qed.

Lemma replChar_notIn x s :
  forallb replChar s = true -> replChar x = false -> ~ In x s.
Proof.
  intros Hs Hx Hin. rewrite forallb_forall in Hs.
  rewrite (Hs _ Hin) in Hx. discriminate.
Qed.

(** *** Splitting at commas, trimming, removing quotes *)

Lemma split_nocomma a : ~ In c_comma a -> Str.split c_comma a = [a].
Proof.
  induction a as [|x a IH]; simpl; intros Ha; [reflexivity|].
  destruct (N.eqb_spec x c_comma) as [->|_]; [tauto|].
  rewrite IH by tauto. reflexivity.
Qed.

Lemma split_at_comma a b :
  ~ In c_comma a ->
  Str.split c_comma (a ++ c_comma :: b) = a :: Str.split c_comma b.
Proof.
  induction a as [|x a IH]; simpl; intros Ha.
  - reflexivity.
  - destruct (N.eqb_spec x c_comma) as [->|_]; [tauto|].
    rewrite IH by tauto. reflexivity.
Qed.

Lemma dropWhile_all p w s :
  Forall (fun c => p c = true) w -> Str.dropWhile p (w ++ s) = Str.dropWhile p s.
Proof. induction 1 as [|x w Hx Hw IH]; simpl; [reflexivity | now rewrite Hx]. Qed.

Lemma digit_not_quote x : isDigit x = true -> cmatch quote x = false.
Proof.
  unfold isDigit. intros Hx. apply andb_prop in Hx as [H1 H2].
  apply N.leb_le in H1, H2. simpl.
  destruct (N.eqb_spec x c_squote) as [He|_]; [unfold c_squote in He; lia|].
  destruct (N.eqb_spec x c_dquote) as [He|_]; [unfold c_dquote in He; lia|].
  reflexivity.
Qed.

Lemma digits_no_quote u :
  Forall (fun c => isDigit c = true) u -> Str.removeAll quote u = u.
Proof.
  induction 1 as [|x u Hx Hu IH]; [reflexivity|].
  unfold Str.removeAll in *. cbn [filter].
  rewrite IH, (digit_not_quote _ Hx). reflexivity.
Qed.

Lemma dropWhile_stop p x s : p x = false -> Str.dropWhile p (x :: s) = x :: s.
Proof. intros H; simpl; now rewrite H. Qed.

Lemma rev_quoted (u w2 : jsstring) :
  rev (c_squote :: u ++ c_squote :: w2) = rev w2 ++ c_squote :: rev u ++ [c_squote].
Proof. simpl. rewrite rev_app_distr. simpl. now lnorm. Qed.

(** A piece made of white space, a quoted digit string, and white space is
    cleaned to the digit string. *)
Lemma cleanPiece_quoted w1 u w2 :
  Forall (fun c => isWhiteSpace c = true) w1 ->
  Forall (fun c => isWhiteSpace c = true) w2 ->
  Forall (fun c => isDigit c = true) u ->
  cleanPiece (w1 ++ c_squote :: u ++ c_squote :: w2) = u.
Proof.
  intros H1 H2 Hu. unfold cleanPiece, Str.trim.
  rewrite dropWhile_all by assumption.
  rewrite dropWhile_stop by reflexivity.
  rewrite rev_quoted.
  rewrite dropWhile_all by (apply Forall_rev; assumption).
  rewrite dropWhile_stop by reflexivity.
  replace (rev (c_squote :: rev u ++ [c_squote])) with (c_squote :: u ++ [c_squote])
    by (simpl; rewrite rev_app_distr, rev_involutive; reflexivity).
  unfold Str.removeAll. cbn [filter]. rewrite filter_app.
  fold (Str.removeAll quote u). rewrite digits_no_quote by assumption.
  simpl. apply app_nil_r.
Qed.

Lemma digits_no_comma u :
  Forall (fun c => isDigit c = true) u -> ~ In c_comma u.
Proof.
  intros Hu Hin. rewrite Forall_forall in Hu. specialize (Hu _ Hin).
  discriminate.
Qed.

Lemma entry_no_comma u :
  isDigitString u = true -> ~ In c_comma (c_newline :: entry u).
Proof.
  intros Hu. apply digitString_spec in Hu as [_ Hu]. unfold entry.
  simpl. intros [H|[H|[H|[H|H]]]]; try discriminate.
  apply in_app_or in H as [H|[H|[]]]; [|discriminate].
  exact (digits_no_comma _ Hu H).
Qed.

Lemma extractUids_cons piece rest u :
  ~ In c_comma piece -> cleanPiece piece = u -> isDigitString u = true ->
  extractUids (piece ++ c_comma :: rest) = u :: extractUids rest.
Proof.
  intros Hp Hc Hu. unfold extractUids. rewrite split_at_comma by assumption.
  simpl map. fold (cleanPiece piece). rewrite Hc. simpl filter.
  rewrite test_digitsOnly, Hu.
  destruct u; [discriminate | reflexivity].
Qed.

Lemma extractUids_last piece u :
  ~ In c_comma piece -> cleanPiece piece = u -> isDigitString u = true ->
  extractUids piece = [u].
Proof.
  intros Hp Hc Hu. unfold extractUids. rewrite split_nocomma by assumption.
  simpl map. fold (cleanPiece piece). rewrite Hc. simpl filter.
  rewrite test_digitsOnly, Hu.
  destruct u; [discriminate | reflexivity].
Qed.

Lemma extract_entries u l :
  Forall (fun v => isDigitString v = true) (u :: l) ->
  extractUids (c_newline :: Str.join [c_comma; c_newline] (map entry (u :: l))
                 ++ [c_newline; c_tab]) = u :: l.
Proof.
  revert u; induction l as [|v l IH]; intros u Hul;
    inversion Hul as [|? ? Hu Hl]; subst.
  - pose proof Hu as Hu'. apply digitString_spec in Hu' as [_ Hd].
    apply extractUids_last; [| |assumption].
    + simpl. unfold entry. intros [H|H]; [discriminate|].
      simpl in H. destruct H as [H|[H|[H|H]]]; try discriminate.
      rewrite <- app_assoc in H.
      apply in_app_or in H as [H|H]; [exact (digits_no_comma _ Hd H)|].
      simpl in H. intuition discriminate.
    + match goal with |- cleanPiece ?p = _ =>
        replace p with ([c_newline; c_tab; c_tab]
                          ++ c_squote :: u ++ c_squote :: [c_newline; c_tab])
          by (simpl; unfold entry; now lnorm)
      end.
      apply cleanPiece_quoted; auto; repeat constructor.
  - pose proof Hu as Hu'. apply digitString_spec in Hu' as [_ Hd].
    change (c_newline :: Str.join [c_comma; c_newline] (map entry (u :: v :: l))
              ++ [c_newline; c_tab])
      with (c_newline :: (entry u ++ [c_comma; c_newline]
              ++ Str.join [c_comma; c_newline] (map entry (v :: l)))
              ++ [c_newline; c_tab]).
    replace (c_newline :: (entry u ++ [c_comma; c_newline]
               ++ Str.join [c_comma; c_newline] (map entry (v :: l)))
               ++ [c_newline; c_tab])
      with ((c_newline :: entry u) ++ c_comma
              :: (c_newline :: Str.join [c_comma; c_newline] (map entry (v :: l))
                    ++ [c_newline; c_tab]))
      by (now lnorm).
    rewrite (extractUids_cons _ _ u); [now rewrite IH | | | assumption].
    + apply entry_no_comma; assumption.
    + unfold entry.
      apply (cleanPiece_quoted [c_newline; c_tab; c_tab] u []);
        auto; repeat constructor.
Qed.

(** Parsing the bracket body that the serializer writes gives the list back. *)
Lemma extractUids_replacement l :
  Forall (fun u => isDigitString u = true) l ->
  extractUids (replacement l) = l.
Proof.
  intros Hl. destruct l as [|u l]; [reflexivity|].
  rewrite replacement_cons. apply extract_entries; assumption.
Qed.

(** *** The replacement template *)

Lemma getSubstitution_plain mr b n t t' :
  ~ In c_dollar t ->
  Replace.getSubstitution mr b n (t ++ t') = t ++ Replace.getSubstitution mr b n t'.
Proof.
  induction t as [|x t IH]; intros Ht; [reflexivity|].
  simpl app. cbn [Replace.getSubstitution].
  destruct (N.eqb_spec x c_dollar) as [->|_]; [exfalso; apply Ht; simpl; auto|].
  simpl negb. cbv iota. rewrite IH; [reflexivity|].
  intros Hin; apply Ht; simpl; auto.
Qed.

Lemma getSubstitution_template mr b x tl :
  isDigit x = false -> ~ In c_dollar (x :: tl) ->
  Replace.getSubstitution mr b 2 (str "$1" ++ (x :: tl) ++ str "$2")
  = Replace.capture 1 mr ++ (x :: tl) ++ Replace.capture 2 mr.
Proof.
  intros Hx Hd.
  change (str "$1" ++ (x :: tl) ++ str "$2")
    with (c_dollar :: 49 :: (x :: tl) ++ [c_dollar; 50]).
  assert (Hhead : forall t,
    Replace.getSubstitution mr b 2 (c_dollar :: 49 :: x :: t)
    = Replace.capture 1 mr ++ Replace.getSubstitution mr b 2 (x :: t)).
  { intros t. cbn [Replace.getSubstitution].
    change (c_dollar =? c_dollar) with true. simpl negb. cbv iota.
    change (49 =? c_dollar) with false. change (49 =? c_amp) with false.
    change (49 =? c_backtick) with false. change (49 =? c_squote) with false.
    change (isDigit 49) with true. cbv iota. rewrite Hx. simpl andb. cbv iota.
    reflexivity. }
  simpl app. rewrite Hhead.
  change (x :: tl ++ [c_dollar; 50]) with ((x :: tl) ++ [c_dollar; 50]).
  rewrite getSubstitution_plain by assumption.
  change (Replace.getSubstitution mr b 2 [c_dollar; 50])
    with (Replace.capture 2 mr ++ []).
  now rewrite app_nil_r.
Qed.

Lemma ngroups_updatePattern R :
  In R roleNames -> Replace.ngroups (updatePattern R) = 2%nat.
Proof.
  unfold roleNames; simpl.
  intros H; repeat (destruct H as [<-|H]; [vm_compute; auto|]); contradiction.
Qed.

(** [updateWhitelistInContent] on a text in which the block is found: the
    text before the bracket body, the new body, the closing bracket and the
    rest. *)
Lemma update_found R D mr uids :
  In R roleNames ->
  Forall (fun u => isDigitString u = true) uids ->
  exec (updatePattern R) D = Some mr ->
  updateWhitelistInContent D R uids
  = firstn (index mr) D ++ Replace.capture 1 mr ++ replacement uids
      ++ Replace.capture 2 mr ++ after mr.
Proof.
  intros HR Hu Hex. unfold updateWhitelistInContent, Replace.replace.
  rewrite Hex, (ngroups_updatePattern R HR).
  destruct (replacement_chars _ Hu) as [Hc [tl Htl]].
  rewrite Htl in *.
  rewrite getSubstitution_template;
    [now lnorm | reflexivity | apply (replChar_notIn _ _ Hc); reflexivity].
Qed.

Lemma update_not_found R D uids :
  exec (updatePattern R) D = None -> updateWhitelistInContent D R uids = D.
Proof.
  intros Hex. unfold updateWhitelistInContent, Replace.replace. now rewrite Hex.
Qed.

(** ** The round trip *)

Lemma extractUids_digits s :
  Forall (fun u => isDigitString u = true) (extractUids s).
Proof.
  unfold extractUids. apply Forall_forall. intros u Hu.
  apply filter_In in Hu as [_ Hu].
  rewrite test_digitsOnly in Hu. apply andb_prop in Hu as [_ Hu]. exact Hu.
Qed.

Lemma parseRole_digits content R :
  Forall (fun u => isDigitString u = true) (parseRole content R).
Proof.
  unfold parseRole. destruct (exec (parsePattern R) content);
    [apply extractUids_digits | constructor].
Qed.

Lemma listChar_notBrace c : listChar c = true -> cmatch notBrace c = true.
Proof.
  intros Hc. simpl. destruct (N.eqb_spec c c_rbrace) as [->|_];
    [vm_compute in Hc; discriminate | reflexivity].
Qed.

Lemma wellFormed_editable content R :
  wellFormed content R = true -> editable content R = true.
Proof.
  unfold wellFormed, editable. destruct (exec (updatePattern R) content); [|auto].
  rewrite !forallb_forall. intros H c Hc. apply listChar_notBrace; auto.
Qed.

(** The shape of a well-formed text: a guard of the role, brace-free text,
    the assignment up to its bracket, a list body, the closing bracket. *)
Lemma wellFormed_block content R :
  In R roleNames -> wellFormed content R = true ->
  exists A G B Rt body Z,
    content = A ++ G ++ B ++ Rt ++ body ++ c_rbracket :: Z
    /\ isBlock R G B Rt body
    /\ Forall (fun c => listChar c = true) body.
Proof.
  intros HR Hwf. unfold wellFormed in Hwf.
  destruct (exec (updatePattern R) content) as [mr|] eqn:Hex; [|discriminate].
  destruct (exec_update_elim _ _ _ HR Hex)
    as (A & G & B & Rt & body & Z & Hc & Hblk & _ & Hm & Hg & _).
  exists A, G, B, Rt, body, Z. split; [exact Hc | split; [exact Hblk|]].
  assert (Hm' : matched mr = (G ++ B ++ Rt) ++ body ++ [c_rbracket])
    by (rewrite Hm; now lnorm).
  rewrite (bodyOf_block _ _ _ Hg Hm') in Hwf.
  apply Forall_forall. apply forallb_forall. exact Hwf.
Qed.

(** Serializing a list of digit strings into a text whose block is intact and
    reading the role back gives the list. *)
Lemma round_trip_editable content R uids :
  In R roleNames -> editable content R = true ->
  Forall (fun u => isDigitString u = true) uids ->
  parseRole (updateWhitelistInContent content R uids) R = uids.
Proof.
  intros HR He Hu. unfold editable in He.
  destruct (exec (updatePattern R) content) as [mr|] eqn:Hex; [|discriminate].
  rewrite (update_found R content mr uids HR Hu Hex).
  destruct (replacement_chars _ Hu) as [Hc [tl Htl]].
  destruct (rewrite_then_parse R content mr (replacement uids) HR Hex)
    as (mr' & Hex' & Hcap).
  - apply Forall_forall. apply forallb_forall. exact He.
  - rewrite Htl; discriminate.
  - apply (replChar_notIn _ _ Hc); reflexivity.
  - apply (replChar_notIn _ _ Hc); reflexivity.
  - apply (replChar_notIn _ _ Hc); reflexivity.
  - unfold parseRole. rewrite Hex', Hcap.
    apply extractUids_replacement; assumption.
Qed.

(** C1. Round-trip law: for a text that is well formed for a configured role
    and a list of digit strings, serializing the list for the role with
    [updateWhitelistInContent] and parsing the result with [parseContent]
    yields exactly that list, in order, for the role. *)
Theorem C1_round_trip (content role : jsstring) (uids : list jsstring) :
  In role roleNames ->
  wellFormed content role = true ->
  Forall (fun u => isDigitString u = true) uids ->
  mapGet role (parseContent (updateWhitelistInContent content role uids))
  = Some uids.
Proof.
  intros HR Hwf Hu. rewrite parseContent_get by assumption.
  f_equal. apply round_trip_editable; auto using wellFormed_editable.
Qed.

Lemma C1_round_trip_witness :
  In (str "ADMIN") roleNames
  /\ wellFormed whitelist_sqf (str "ADMIN") = true
  /\ Forall (fun u => isDigitString u = true) [uid01; uid99; legacy18]
  /\ mapGet (str "ADMIN")
       (parseContent
          (updateWhitelistInContent whitelist_sqf (str "ADMIN")
             [uid01; uid99; legacy18]))
     = Some [uid01; uid99; legacy18].
Proof.
  assert (H1 : In (str "ADMIN") roleNames) by (do 5 right; left; reflexivity).
  assert (H2 : wellFormed whitelist_sqf (str "ADMIN") = true)
    by (vm_compute; reflexivity).
  assert (H3 : Forall (fun u => isDigitString u = true) [uid01; uid99; legacy18])
    by (repeat constructor).
  split; [exact H1 | split; [exact H2 | split; [exact H3|]]].
  exact (C1_round_trip whitelist_sqf (str "ADMIN") [uid01; uid99; legacy18] H1 H2 H3).
Defined.

(** ** The store operations *)

Section Store.
Variable toUpperCase : jsstring -> jsstring.
Variable filePath : jsstring.

Lemma addUid_eq fs role uid :
  addUid toUpperCase filePath fs role uid =
  if negb (Str.includes roleNames (toUpperCase role)) then
    (Resolved (InvalidRole role), fs)
  else if negb (test steam64 uid) then
    (Resolved (InvalidIdentifierFormat uid), fs)
  else
    match fs with
    | None => (Rejected (str "Whitelist file not found: " ++ filePath), fs)
    | Some content =>
        let l := parseRole content (toUpperCase role) in
        if Str.includes l uid
        then (Resolved (AlreadyWhitelisted uid (toUpperCase role)), fs)
        else (Resolved (Added uid (toUpperCase role)),
              Some (updateWhitelistInContent content (toUpperCase role) (l ++ [uid])))
    end.
Proof.
  unfold addUid.
  destruct (Str.includes roleNames (toUpperCase role)) eqn:Hr; [|reflexivity].
  apply includes_In in Hr. cbn [negb].
  destruct (test steam64 uid); [|reflexivity]. cbn [negb].
  destruct fs as [content|]; [|reflexivity].
  unfold readFile. rewrite parseContent_get by assumption. reflexivity.
Qed.

Lemma removeUid_eq fs role uid :
  removeUid toUpperCase filePath fs role uid =
  if negb (Str.includes roleNames (toUpperCase role)) then
    (Resolved (InvalidRole role), fs)
  else
    match fs with
    | None => (Rejected (str "Whitelist file not found: " ++ filePath), fs)
    | Some content =>
        let l := parseRole content (toUpperCase role) in
        if negb (Str.includes l uid)
        then (Resolved (NotWhitelisted uid (toUpperCase role)), fs)
        else (Resolved (Removed uid (toUpperCase role)),
              Some (updateWhitelistInContent content (toUpperCase role)
                      (filter (fun u => negb (eqs u uid)) l)))
    end.
Proof.
  unfold removeUid.
  destruct (Str.includes roleNames (toUpperCase role)) eqn:Hr; [|reflexivity].
  apply includes_In in Hr. cbn [negb].
  destruct fs as [content|]; [|reflexivity].
  unfold readFile. rewrite parseContent_get by assumption. reflexivity.
Qed.

Lemma getUids_eq content role :
  getUids toUpperCase filePath (Some content) role =
  Resolved (if Str.includes roleNames (toUpperCase role)
            then parseRole content (toUpperCase role) else []).
Proof.
  unfold getUids, parseWhitelist, readFile.
  destruct (Str.includes roleNames (toUpperCase role)) eqn:Hr.
  - apply includes_In in Hr. now rewrite parseContent_get.
  - apply includes_not_In in Hr. now rewrite parseContent_get_none.
Qed.

End Store.

Lemma steam64_digitString uid : test steam64 uid = true -> isDigitString uid = true.
Proof.
  rewrite test_steam64. intros H. apply andb_prop in H as [Hl Hd].
  unfold isDigitString. rewrite Hd. destruct uid; [discriminate | reflexivity].
Qed.

Lemma filter_digits uid l :
  Forall (fun u => isDigitString u = true) l ->
  Forall (fun u => isDigitString u = true) (filter (fun u => negb (eqs u uid)) l).
Proof.
  rewrite !Forall_forall. intros H u Hu. apply filter_In in Hu as [Hu _]. auto.
Qed.

Lemma filter_removes uid l : ~ In uid (filter (fun u => negb (eqs u uid)) l).
Proof.
  intros H. apply filter_In in H as [_ H]. now rewrite eqs_refl in H.
Qed.

(** A match of [parsePattern] is a match of [updatePattern]. *)
Lemma parse_needs_block R content :
  In R roleNames ->
  exec (updatePattern R) content = None -> exec (parsePattern R) content = None.
Proof.
  intros HR Hn. destruct (exec (parsePattern R) content) as [mr|] eqn:Hp;
    [|reflexivity].
  exfalso. unfold exec in *.
  destruct (search_elim _ _ _ _ _ Hp) as (A & M & -> & _ & _ & Hm & _).
  destruct (parse_run_elim _ _ _ _ HR Hm)
    as (G & B & Rt & body & Z & -> & (HG & HB & HRt & _) & _).
  eapply (update_run_some R _ G B Rt (body ++ c_rbracket :: Z) HR HG HB HRt).
  - apply in_or_app; simpl; auto.
  - eapply search_none; [exact Hn | reflexivity].
Qed.

(** C2 (amended). [addUid] reports [InvalidRole] when the upper-cased role is
    not a configured code, then [InvalidIdentifierFormat] when the identifier
    is not made of exactly 17 digits, both without touching the file; it is
    rejected when the file is missing; it reports [AlreadyWhitelisted] and
    leaves the text as it is when the identifier is listed for the role; and
    on a text in which the block of the role is intact it otherwise appends
    the identifier to the end of the role's list and writes the text back, so
    that the identifier then occurs exactly once and a second call reports
    [AlreadyWhitelisted] without another write. *)
Theorem C2_addUid (toUpperCase : jsstring -> jsstring)
  (filePath role uid : jsstring) :
  let R := toUpperCase role in
  let add := addUid toUpperCase filePath in
  (forall fs, ~ In R roleNames ->
     add fs role uid = (Resolved (InvalidRole role), fs))
  /\ (forall fs, In R roleNames -> test steam64 uid = false ->
        add fs role uid = (Resolved (InvalidIdentifierFormat uid), fs))
  /\ (In R roleNames -> test steam64 uid = true ->
        add None role uid
        = (Rejected (str "Whitelist file not found: " ++ filePath), None))
  /\ (forall content, In R roleNames -> test steam64 uid = true ->
        In uid (parseRole content R) ->
        add (Some content) role uid
        = (Resolved (AlreadyWhitelisted uid R), Some content))
  /\ (forall content, In R roleNames -> test steam64 uid = true ->
        editable content R = true -> ~ In uid (parseRole content R) ->
        exists content',
          add (Some content) role uid = (Resolved (Added uid R), Some content')
          /\ parseRole content' R = parseRole content R ++ [uid]
          /\ count_occ (list_eq_dec N.eq_dec) (parseRole content' R) uid = 1%nat
          /\ add (Some content') role uid
             = (Resolved (AlreadyWhitelisted uid R), Some content')).
Proof.
  intros R add. unfold add. repeat split.
  - intros fs HR. rewrite addUid_eq.
    apply includes_not_In in HR. fold R. now rewrite HR.
  - intros fs HR Ht. rewrite addUid_eq.
    apply includes_In in HR. fold R. now rewrite HR, Ht.
  - intros HR Ht. rewrite addUid_eq.
    apply includes_In in HR. fold R. now rewrite HR, Ht.
  - intros content HR Ht Hin. rewrite addUid_eq.
    apply includes_In in HR. fold R. rewrite HR, Ht. cbn [negb].
    apply includes_In in Hin. cbv zeta. now rewrite Hin.
  - intros content HR Ht He Hnin.
    assert (Hrt : parseRole (updateWhitelistInContent content R
                               (parseRole content R ++ [uid])) R
                  = parseRole content R ++ [uid]).
    { apply round_trip_editable; auto.
      apply Forall_app; split; [apply parseRole_digits|].
      constructor; [apply steam64_digitString; assumption | constructor]. }
    exists (updateWhitelistInContent content R (parseRole content R ++ [uid])).
    pose proof HR as HR'. apply includes_In in HR'.
    repeat split.
    + rewrite addUid_eq. fold R. rewrite HR', Ht. cbn [negb]. cbv zeta.
      apply includes_not_In in Hnin. now rewrite Hnin.
    + exact Hrt.
    + rewrite Hrt, count_occ_app. simpl.
      rewrite (proj1 (count_occ_not_In _ _ _) Hnin).
      destruct (list_eq_dec N.eq_dec uid uid); [reflexivity | contradiction].
    + rewrite addUid_eq. fold R. rewrite HR', Ht. cbn [negb]. cbv zeta.
      rewrite Hrt.
      assert (Hin : Str.includes (parseRole content R ++ [uid]) uid = true)
        by (apply includes_In, in_or_app; simpl; auto).
      now rewrite Hin.
Qed.

Lemma C2_addUid_witness :
  In (Str.asciiUpper (str "admin")) roleNames
  /\ test steam64 uid99 = true
  /\ editable whitelist_sqf (Str.asciiUpper (str "admin")) = true
  /\ ~ In uid99 (parseRole whitelist_sqf (Str.asciiUpper (str "admin")))
  /\ exists content',
       addUid Str.asciiUpper path0 (Some whitelist_sqf) (str "admin") uid99
       = (Resolved (Added uid99 (Str.asciiUpper (str "admin"))), Some content')
       /\ parseRole content' (Str.asciiUpper (str "admin"))
          = parseRole whitelist_sqf (Str.asciiUpper (str "admin")) ++ [uid99]
       /\ count_occ (list_eq_dec N.eq_dec)
            (parseRole content' (Str.asciiUpper (str "admin"))) uid99 = 1%nat
       /\ addUid Str.asciiUpper path0 (Some content') (str "admin") uid99
          = (Resolved (AlreadyWhitelisted uid99 (Str.asciiUpper (str "admin"))),
             Some content').
Proof.
  assert (H1 : In (Str.asciiUpper (str "admin")) roleNames)
    by (do 5 right; left; reflexivity).
  assert (H2 : test steam64 uid99 = true) by (vm_compute; reflexivity).
  assert (H3 : editable whitelist_sqf (Str.asciiUpper (str "admin")) = true)
    by (vm_compute; reflexivity).
  assert (H4 : ~ In uid99 (parseRole whitelist_sqf (Str.asciiUpper (str "admin")))).
  { vm_compute. intros [H|[H|[]]]; discriminate H. }
  split; [exact H1 | split; [exact H2 | split; [exact H3 | split; [exact H4|]]]].
  exact (proj2 (proj2 (proj2 (proj2
           (C2_addUid Str.asciiUpper path0 (str "admin") uid99))))
           whitelist_sqf H1 H2 H3 H4).
Defined.

(** C2, as stated, fails: on a hand-edited block with a closing brace inside
    the bracket, and on a text without a block for the role, the first
    [addUid] reports success and the second one reports success again
    instead of [AlreadyWhitelisted]. *)
Lemma C2_counterexample :
  let add := addUid Str.asciiUpper path0 in
  let first := add (Some braceDoc) (str "ADMIN") uid99 in
  let missing := add (Some s3OnlyDoc) (str "ADMIN") uid99 in
  fst first = Resolved (Added uid99 (str "ADMIN"))
  /\ fst (add (snd first) (str "ADMIN") uid99)
     = Resolved (Added uid99 (str "ADMIN"))
  /\ fst (add (snd first) (str "ADMIN") uid99)
     <> Resolved (AlreadyWhitelisted uid99 (str "ADMIN"))
  /\ missing = (Resolved (Added uid99 (str "ADMIN")), Some s3OnlyDoc)
  /\ fst (add (snd missing) (str "ADMIN") uid99)
     <> Resolved (AlreadyWhitelisted uid99 (str "ADMIN")).
Proof.
  vm_compute. repeat split; try discriminate.
Qed.

(** C3 (amended). [removeUid] reports [InvalidRole] when the upper-cased role
    is not a configured code; it is rejected when the file is missing; it
    reports [NotWhitelisted] and leaves the text as it is when the identifier
    is not listed for the role; and on a text in which the block of the role
    is intact it otherwise writes the text back with the identifier filtered
    out of the role's list, the other entries keeping their order, so that a
    second call reports [NotWhitelisted]. *)
Theorem C3_removeUid (toUpperCase : jsstring -> jsstring)
  (filePath role uid : jsstring) :
  let R := toUpperCase role in
  let remove := removeUid toUpperCase filePath in
  (forall fs, ~ In R roleNames ->
     remove fs role uid = (Resolved (InvalidRole role), fs))
  /\ (In R roleNames ->
        remove None role uid
        = (Rejected (str "Whitelist file not found: " ++ filePath), None))
  /\ (forall content, In R roleNames -> ~ In uid (parseRole content R) ->
        remove (Some content) role uid
        = (Resolved (NotWhitelisted uid R), Some content))
  /\ (forall content, In R roleNames -> editable content R = true ->
        In uid (parseRole content R) ->
        exists content',
          remove (Some content) role uid
          = (Resolved (Removed uid R), Some content')
          /\ parseRole content' R
             = filter (fun u => negb (eqs u uid)) (parseRole content R)
          /\ ~ In uid (parseRole content' R)
          /\ remove (Some content') role uid
             = (Resolved (NotWhitelisted uid R), Some content')).
Proof.
  intros R remove. unfold remove. repeat split.
  - intros fs HR. rewrite removeUid_eq.
    apply includes_not_In in HR. fold R. now rewrite HR.
  - intros HR. rewrite removeUid_eq.
    apply includes_In in HR. fold R. now rewrite HR.
  - intros content HR Hnin. rewrite removeUid_eq.
    apply includes_In in HR. fold R. rewrite HR. cbn [negb]. cbv zeta.
    apply includes_not_In in Hnin. now rewrite Hnin.
  - intros content HR He Hin.
    set (l' := filter (fun u => negb (eqs u uid)) (parseRole content R)).
    assert (Hrt : parseRole (updateWhitelistInContent content R l') R = l').
    { apply round_trip_editable; auto.
      apply filter_digits, parseRole_digits. }
    exists (updateWhitelistInContent content R l').
    pose proof HR as HR'. apply includes_In in HR'.
    repeat split.
    + rewrite removeUid_eq. fold R. rewrite HR'. cbn [negb]. cbv zeta.
      apply includes_In in Hin. now rewrite Hin.
    + exact Hrt.
    + rewrite Hrt. apply filter_removes.
    + rewrite removeUid_eq. fold R. rewrite HR'. cbn [negb]. cbv zeta.
      rewrite Hrt.
      assert (Hn : Str.includes l' uid = false)
        by (apply includes_not_In, filter_removes).
      now rewrite Hn.
Qed.

Lemma C3_removeUid_witness :
  In (Str.asciiUpper (str "s3")) roleNames
  /\ editable s3OnlyDoc (Str.asciiUpper (str "s3")) = true
  /\ In uid01 (parseRole s3OnlyDoc (Str.asciiUpper (str "s3")))
  /\ exists content',
       removeUid Str.asciiUpper path0 (Some s3OnlyDoc) (str "s3") uid01
       = (Resolved (Removed uid01 (Str.asciiUpper (str "s3"))), Some content')
       /\ parseRole content' (Str.asciiUpper (str "s3"))
          = filter (fun u => negb (eqs u uid01))
              (parseRole s3OnlyDoc (Str.asciiUpper (str "s3")))
       /\ ~ In uid01 (parseRole content' (Str.asciiUpper (str "s3")))
       /\ removeUid Str.asciiUpper path0 (Some content') (str "s3") uid01
          = (Resolved (NotWhitelisted uid01 (Str.asciiUpper (str "s3"))),
             Some content').
Proof.
  assert (H1 : In (Str.asciiUpper (str "s3")) roleNames) by (left; reflexivity).
  assert (H2 : editable s3OnlyDoc (Str.asciiUpper (str "s3")) = true)
    by (vm_compute; reflexivity).
  assert (H3 : In uid01 (parseRole s3OnlyDoc (Str.asciiUpper (str "s3"))))
    by (vm_compute; left; reflexivity).
  split; [exact H1 | split; [exact H2 | split; [exact H3|]]].
  exact (proj2 (proj2 (proj2
           (C3_removeUid Str.asciiUpper path0 (str "s3") uid01)))
           s3OnlyDoc H1 H2 H3).
Defined.

(** C3, as stated, fails on a hand-edited block with a closing brace inside
    the bracket: the first [removeUid] reports success, the identifier is
    still listed afterwards, and the second call reports success again
    instead of [NotWhitelisted]. *)
Lemma C3_counterexample :
  let remove := removeUid Str.asciiUpper path0 in
  let first := remove (Some braceDoc) (str "ADMIN") uid01 in
  fst first = Resolved (Removed uid01 (str "ADMIN"))
  /\ getUids Str.asciiUpper path0 (snd first) (str "ADMIN") = Resolved [uid01]
  /\ fst (remove (snd first) (str "ADMIN") uid01)
     = Resolved (Removed uid01 (str "ADMIN"))
  /\ fst (remove (snd first) (str "ADMIN") uid01)
     <> Resolved (NotWhitelisted uid01 (str "ADMIN")).
Proof.
  vm_compute. repeat split; try discriminate.
Qed.

(** C4 (amended). [getUids] never reports an invalid role: for a role whose
    upper-case form is not a configured code it returns the empty list, for
    a role whose upper-case form is a configured code it returns the list
    that [parseContent] holds for that code, and it is rejected when the
    file is missing. *)
Theorem C4_getUids (toUpperCase : jsstring -> jsstring)
  (filePath role : jsstring) :
  let R := toUpperCase role in
  let list := getUids toUpperCase filePath in
  (forall content, ~ In R roleNames -> list (Some content) role = Resolved [])
  /\ (forall content, In R roleNames ->
        exists l, mapGet R (parseContent content) = Some l
                  /\ list (Some content) role = Resolved l)
  /\ list None role = Rejected (str "Whitelist file not found: " ++ filePath).
Proof.
  intros R list. unfold list. repeat split.
  - intros content HR. rewrite getUids_eq.
    apply includes_not_In in HR. fold R. now rewrite HR.
  - intros content HR. exists (parseRole content R). split.
    + apply parseContent_get; assumption.
    + rewrite getUids_eq. apply includes_In in HR. fold R. now rewrite HR.
Qed.

Lemma C4_getUids_witness :
  In (Str.asciiUpper (str "Cas")) roleNames
  /\ exists l, mapGet (Str.asciiUpper (str "Cas")) (parseContent legacyDoc) = Some l
               /\ getUids Str.asciiUpper path0 (Some legacyDoc) (str "Cas")
                  = Resolved l.
Proof.
  assert (H1 : In (Str.asciiUpper (str "Cas")) roleNames)
    by (right; left; reflexivity).
  split; [exact H1|].
  exact (proj1 (proj2 (C4_getUids Str.asciiUpper path0 (str "Cas"))) legacyDoc H1).
Defined.

(** C4, as stated, fails: for a role that is not configured [getUids]
    resolves with the empty list; no error is reported. *)
Lemma C4_counterexample :
  ~ In (Str.asciiUpper (str "BOGUS_ROLE")) roleNames
  /\ getUids Str.asciiUpper path0 (Some whitelist_sqf) (str "BOGUS_ROLE")
     = Resolved []
  /\ forall e, getUids Str.asciiUpper path0 (Some whitelist_sqf) (str "BOGUS_ROLE")
               <> Rejected e.
Proof.
  assert (H : getUids Str.asciiUpper path0 (Some whitelist_sqf) (str "BOGUS_ROLE")
              = Resolved []) by (vm_compute; reflexivity).
  split; [|split; [exact H | intros e; rewrite H; discriminate]].
  vm_compute. intuition discriminate.
Qed.

(** C9. For a role whose upper-case form is configured and an identifier of
    17 digits, when the text holds no block that [updatePattern] finds for
    the role, [addUid] reports success and writes the text back as it was:
    listing the role afterwards gives the empty list, without the
    identifier. *)
Theorem C9_add_without_block (toUpperCase : jsstring -> jsstring)
  (filePath content role uid : jsstring) :
  In (toUpperCase role) roleNames ->
  test steam64 uid = true ->
  exec (updatePattern (toUpperCase role)) content = None ->
  addUid toUpperCase filePath (Some content) role uid
  = (Resolved (Added uid (toUpperCase role)), Some content)
  /\ success (Added uid (toUpperCase role)) = true
  /\ exists l, getUids toUpperCase filePath (Some content) role = Resolved l
               /\ ~ In uid l.
Proof.
  intros HR Ht Hex.
  assert (Hp : parseRole content (toUpperCase role) = []).
  { unfold parseRole. now rewrite (parse_needs_block _ _ HR Hex). }
  pose proof HR as HR'. apply includes_In in HR'.
  split; [|split; [reflexivity|]].
  - rewrite addUid_eq, HR', Ht. cbn [negb]. cbv zeta. rewrite Hp. simpl.
    now rewrite (update_not_found _ _ _ Hex).
  - exists []. split; [|intros []].
    rewrite getUids_eq, HR', Hp. reflexivity.
Qed.

Lemma C9_add_without_block_witness :
  In (Str.asciiUpper (str "admin")) roleNames
  /\ test steam64 uid99 = true
  /\ exec (updatePattern (Str.asciiUpper (str "admin"))) s3OnlyDoc = None
  /\ addUid Str.asciiUpper path0 (Some s3OnlyDoc) (str "admin") uid99
     = (Resolved (Added uid99 (Str.asciiUpper (str "admin"))), Some s3OnlyDoc)
  /\ success (Added uid99 (Str.asciiUpper (str "admin"))) = true
  /\ exists l, getUids Str.asciiUpper path0 (Some s3OnlyDoc) (str "admin")
               = Resolved l
               /\ ~ In uid99 l.
Proof.
  assert (H1 : In (Str.asciiUpper (str "admin")) roleNames)
    by (do 5 right; left; reflexivity).
  assert (H2 : test steam64 uid99 = true) by (vm_compute; reflexivity).
  assert (H3 : exec (updatePattern (Str.asciiUpper (str "admin"))) s3OnlyDoc = None)
    by (vm_compute; reflexivity).
  split; [exact H1 | split; [exact H2 | split; [exact H3|]]].
  exact (C9_add_without_block Str.asciiUpper path0 s3OnlyDoc (str "admin") uid99
           H1 H2 H3).
Defined.

Lemma In_extractUids s u :
  In u (extractUids s) <->
  exists piece, In piece (Str.split c_comma s) /\ cleanPiece piece = u
                /\ isDigitString u = true.
Proof.
  unfold extractUids. rewrite filter_In, in_map_iff, test_digitsOnly. split.
  - intros [(piece & Hc & Hp) Hd]. exists piece. repeat split; auto.
    apply andb_prop in Hd as [_ Hd]. exact Hd.
  - intros (piece & Hp & Hc & Hd). split; [exists piece; auto|].
    rewrite Hd. destruct u; [discriminate | reflexivity].
Qed.

(** C10. Parsing keeps every comma-separated piece that is cleaned to one or
    more digits, whatever its length, while [addUid] takes an identifier only
    when it has exactly 17 digits; so there is a text for which [getUids]
    returns an identifier that [addUid] turns down as badly formatted. *)
Theorem C10_length_mismatch :
  (forall s u, In u (extractUids s) <->
     exists piece, In piece (Str.split c_comma s) /\ cleanPiece piece = u
                   /\ u <> [] /\ Forall (fun c => isDigit c = true) u)
  /\ (forall uid, test steam64 uid = true <->
        length uid = 17%nat /\ Forall (fun c => isDigit c = true) uid)
  /\ exists content role uid,
       getUids Str.asciiUpper path0 (Some content) role = Resolved [uid]
       /\ length uid = 18%nat
       /\ addUid Str.asciiUpper path0 (Some content) role uid
          = (Resolved (InvalidIdentifierFormat uid), Some content).
Proof.
  split; [|split].
  - intros s u. rewrite In_extractUids. split.
    + intros (piece & Hp & Hc & Hd). exists piece.
      apply digitString_spec in Hd. tauto.
    + intros (piece & Hp & Hc & Hd). exists piece.
      rewrite digitString_spec. tauto.
  - intros uid. rewrite test_steam64, andb_true_iff, Nat.eqb_eq,
      forallb_forall, Forall_forall. reflexivity.
  - exists legacyDoc, (str "CAS"), legacy18. vm_compute. auto.
Qed.

(** In a match of [parsePattern] the first group has taken part, so that
    [match[1]] is a string. *)
Lemma parse_run_caps R n0 s Z cs :
  In R roleNames ->
  m (parsePattern R) n0 s [] accept = Some (Z, cs) ->
  exists v, cs = [(1%nat, v)].
Proof.
  intros HR H. rewrite parsePattern_unfold in H.
  destruct (role_checks R HR) as (Hp & Hg & _ & _).
  destruct returnOpen_checks as (Hp' & Hg' & _).
  destruct (m_sound _ Hp _ _ _ _ _ H) as (G & T & c' & -> & _ & Hk & Hc).
  rewrite (Hc Hg) in Hk; clear Hc c'.
  destruct (star_sound _ _ _ _ _ Hk) as (B & U & -> & _ & Hk2).
  change (m parseRest n0 U [] accept)
    with (m returnOpen n0 U []
            (fun s' c' => m (Seq (Group 1 (Plus notBracket))
                                 (Atom (CChar c_rbracket))) n0 s' c' accept))
    in Hk2.
  destruct (m_sound _ Hp' _ _ _ _ _ Hk2) as (Rt & W & c' & -> & _ & Hk3 & Hc).
  rewrite (Hc Hg') in Hk3; clear Hc c'.
  simpl in Hk3. destruct W as [|x W]; [discriminate|].
  destruct (negb ((x =? c_rbracket) || false)); [|discriminate].
  destruct (star_sound _ _ _ _ _ Hk3) as (u & t & _ & _ & Hk4).
  destruct t as [|y t]; [discriminate|].
  destruct (y =? c_rbracket); [|discriminate].
  unfold accept in Hk4. injection Hk4 as _ <-. eexists; reflexivity.
Qed.

(** C6. [parseContent] is a total function of the text, and nothing in it can
    raise: a match always carries its first group. Every configured role is
    mapped to a list, which is empty when no block matches the role and when
    no comma-separated piece of the captured text is cleaned to a digit
    string. *)
Theorem C6_parse_total (content role : jsstring) :
  In role roleNames ->
  (forall mr, exec (parsePattern role) content = Some mr ->
     exists v, getCap 1 (groups mr) = Some v)
  /\ exists l,
       mapGet role (parseContent content) = Some l
       /\ (exec (parsePattern role) content = None -> l = [])
       /\ (forall mr, exec (parsePattern role) content = Some mr ->
             (forall piece, In piece (Str.split c_comma (Replace.capture 1 mr)) ->
                isDigitString (cleanPiece piece) = false) ->
             l = []).
Proof.
  intros HR. split.
  - intros mr Hex. unfold exec in Hex.
    destruct (search_elim _ _ _ _ _ Hex) as (A & M & _ & _ & _ & Hm & _).
    destruct (parse_run_caps _ _ _ _ _ HR Hm) as (v & Hv).
    exists v. rewrite Hv. reflexivity.
  - exists (parseRole content role). split; [|split].
    + apply parseContent_get; assumption.
    + intros Hex. unfold parseRole. now rewrite Hex.
    + intros mr Hex Hnone. unfold parseRole. rewrite Hex.
      destruct (extractUids (Replace.capture 1 mr)) as [|u l] eqn:He;
        [reflexivity|].
      assert (Hin : In u (extractUids (Replace.capture 1 mr)))
        by (rewrite He; simpl; auto).
      apply In_extractUids in Hin as (piece & Hp & Hc & Hd).
      rewrite <- Hc, (Hnone _ Hp) in Hd. discriminate.
Qed.

Lemma C6_parse_total_witness :
  In (str "DEVELOPER") roleNames
  /\ (forall mr, exec (parsePattern (str "DEVELOPER")) s3OnlyDoc = Some mr ->
        exists v, getCap 1 (groups mr) = Some v)
  /\ exists l,
       mapGet (str "DEVELOPER") (parseContent s3OnlyDoc) = Some l
       /\ (exec (parsePattern (str "DEVELOPER")) s3OnlyDoc = None -> l = [])
       /\ (forall mr, exec (parsePattern (str "DEVELOPER")) s3OnlyDoc = Some mr ->
             (forall piece,
                 In piece (Str.split c_comma (Replace.capture 1 mr)) ->
                 isDigitString (cleanPiece piece) = false) ->
             l = []).
Proof.
  assert (H1 : In (str "DEVELOPER") roleNames) by (do 10 right; left; reflexivity).
  split; [exact H1|].
  exact (C6_parse_total s3OnlyDoc (str "DEVELOPER") H1).
Defined.

(** ** Role validation and the database read path *)

Lemma InvalidRole_distinct role uid R :
  InvalidIdentifierFormat uid <> InvalidRole role
  /\ AlreadyWhitelisted uid R <> InvalidRole role
  /\ NotWhitelisted uid R <> InvalidRole role
  /\ Added uid R <> InvalidRole role
  /\ Removed uid R <> InvalidRole role.
Proof.
  unfold InvalidIdentifierFormat, AlreadyWhitelisted, NotWhitelisted, Added,
    Removed, InvalidRole.
  repeat split; intros H; simpl in H; discriminate H.
Qed.

Lemma isValidWhitelistType_spec sqlEquals types type :
  isValidWhitelistType sqlEquals types type = true <->
  exists code, In code types /\ sqlEquals code type = true.
Proof.
  unfold isValidWhitelistType. rewrite Nat.ltb_lt. split.
  - destruct (filter (fun c => sqlEquals c type) types) as [|code l] eqn:Hf;
      simpl; [lia|]. intros _.
    assert (Hin : In code (filter (fun c => sqlEquals c type) types))
      by (rewrite Hf; simpl; auto).
    apply filter_In in Hin. exists code; exact Hin.
  - intros (code & Hin & He).
    assert (Hf : In code (filter (fun c => sqlEquals c type) types))
      by (apply filter_In; auto).
    destruct (filter (fun c => sqlEquals c type) types); simpl;
      [contradiction | lia].
Qed.

Lemma Resolved_inj {A : Type} (a b : A) : Resolved a = Resolved b -> a = b.
Proof. intros H; injection H; auto. Qed.

(** C7 (amended). In the text-file variant a role argument is accepted by
    [addUid] and [removeUid] exactly when its upper-case form is one of the
    configured codes. The database read path [QS_fnc_whitelistDB] has the
    same codes but compares the argument as it is written, without case
    normalisation, and answers an empty list otherwise; the PHP check
    accepts what the type table holds under the comparison of the database
    server. *)
Theorem C7_role_validation (toUpperCase : jsstring -> jsstring)
  (filePath role uid : jsstring) (fs : option jsstring) :
  (caseInsensitiveValid toUpperCase role = true <->
     exists code, In code roleNames /\ toUpperCase role = code)
  /\ (fst (addUid toUpperCase filePath fs role uid) = Resolved (InvalidRole role)
      <-> caseInsensitiveValid toUpperCase role = false)
  /\ (fst (removeUid toUpperCase filePath fs role uid) = Resolved (InvalidRole role)
      <-> caseInsensitiveValid toUpperCase role = false)
  /\ SQF._validTypes = roleNames
  /\ (SQF.validType role = true <-> In role roleNames)
  /\ (forall ns file now query force,
        SQF.validType role = false ->
        SQF.QS_fnc_whitelistDB ns file now query role force = ([], ns))
  /\ (forall sqlEquals types,
        isValidWhitelistType sqlEquals types role = true <->
        exists code, In code types /\ sqlEquals code role = true).
Proof.
  destruct (InvalidRole_distinct role uid (toUpperCase role))
    as (D1 & D2 & D3 & D4 & D5).
  unfold caseInsensitiveValid.
  split; [|split; [|split; [|split; [reflexivity|split; [|split]]]]].
  - rewrite includes_In. split.
    + intros H. exists (toUpperCase role); auto.
    + intros (code & Hin & ->). exact Hin.
  - rewrite addUid_eq.
    destruct (Str.includes roleNames (toUpperCase role)); cbn [negb];
      [|split; reflexivity].
    split; [|discriminate]. intros H. exfalso.
    destruct (test steam64 uid); cbn [negb fst] in H;
      [|apply Resolved_inj in H; exact (D1 H)].
    destruct fs as [content|]; [|discriminate H].
    cbv zeta in H.
    destruct (Str.includes (parseRole content (toUpperCase role)) uid);
      cbn [fst] in H; apply Resolved_inj in H; [exact (D2 H) | exact (D4 H)].
  - rewrite removeUid_eq.
    destruct (Str.includes roleNames (toUpperCase role)); cbn [negb];
      [|split; reflexivity].
    split; [|discriminate]. intros H. exfalso.
    destruct fs as [content|]; [|discriminate H].
    cbv zeta in H.
    destruct (Str.includes (parseRole content (toUpperCase role)) uid);
      cbn [negb fst] in H; apply Resolved_inj in H; [exact (D5 H) | exact (D3 H)].
  - unfold SQF.validType. apply includes_In.
  - intros ns file now query force Hv. unfold SQF.QS_fnc_whitelistDB.
    now rewrite Hv.
  - intros sqlEquals types. apply isValidWhitelistType_spec.
Qed.

(** C7, as stated, fails: ["s3"] is valid under the case-insensitive rule and
    is taken by the text-file variant, while the database read path turns it
    down as an invalid type. *)
Lemma C7_counterexample :
  caseInsensitiveValid Str.asciiUpper (str "s3") = true
  /\ fst (removeUid Str.asciiUpper path0 (Some s3OnlyDoc) (str "s3") uid01)
     = Resolved (Removed uid01 (str "S3"))
  /\ SQF.validType (str "s3") = false
  /\ SQF.QS_fnc_whitelistDB ns0 (fun _ => [uid01]) (QArith_base.Qmake 0 1)
       (fun _ => SQF.QueryRows [uid02]) (str "s3") false
     = ([], ns0)
  /\ SQF.QS_fnc_whitelistDB ns0 (fun _ => [uid01]) (QArith_base.Qmake 0 1)
       (fun _ => SQF.QueryRows [uid02]) (str "S3") false
     <> ([], ns0).
Proof.
  vm_compute. repeat split; discriminate.
Qed.

(** C8. With the database switched on and a valid type, [QS_fnc_whitelistDB]
    answers from the cache while the cached list is not empty and younger
    than the cache duration, which is 300 seconds unless configured; a force
    refresh never answers from the cache; otherwise the list is loaded and
    stored in the cache with the clock reading, and the loaded list is the
    file-based whitelist whenever the query raised or gave no rows, and the
    rows of the database otherwise. *)
Theorem C8_cache_and_fallback (ns : SQF.Namespace)
  (file : jsstring -> list jsstring) (now : SQF.number)
  (query : jsstring -> SQF.QueryOutcome) (type : jsstring) (force : bool) :
  SQF.validType type = true ->
  SQF.getVariable (SQF.QS_server_isUsingDB ns) false = true ->
  let cached := SQF.getVariable (SQF.lookup type (SQF.QS_whitelist_cache ns)) [] in
  let cacheTime :=
    SQF.getVariable (SQF.lookup type (SQF.QS_whitelist_cacheTime ns))
      (QArith_base.Qmake 0 1) in
  let result := SQF.QS_fnc_whitelistDB ns file now query type force in
  (SQF.QS_whitelist_cacheDuration ns = None ->
     SQF.cacheDuration ns = QArith_base.Qmake 300 1)
  /\ (SQF.cacheValid ns now type force = true <->
        force = false /\ cached <> []
        /\ QArith_base.Qlt (QArith_base.Qminus now cacheTime) (SQF.cacheDuration ns))
  /\ (SQF.cacheValid ns now type force = true -> result = (cached, ns))
  /\ (force = true -> SQF.cacheValid ns now type force = false)
  /\ (SQF.cacheValid ns now type force = false ->
        fst result = SQF.loaded file (query type) type
        /\ SQF.lookup type (SQF.QS_whitelist_cache (snd result)) = Some (fst result)
        /\ SQF.lookup type (SQF.QS_whitelist_cacheTime (snd result)) = Some now)
  /\ (query type = SQF.QueryThrew \/ query type = SQF.QueryRows [] ->
        SQF.loaded file (query type) type = file type)
  /\ (forall rows, rows <> [] -> query type = SQF.QueryRows rows ->
        SQF.loaded file (query type) type = rows).
Proof.
  intros Hv Hdb cached cacheTime result.
  assert (Hres : result =
            if SQF.cacheValid ns now type force then (cached, ns)
            else (SQF.loaded file (query type) type,
                  SQF.mkNamespace (SQF.QS_server_isUsingDB ns)
                    (SQF.QS_whitelist_cacheDuration ns)
                    ((type, SQF.loaded file (query type) type)
                       :: SQF.QS_whitelist_cache ns)
                    ((type, now) :: SQF.QS_whitelist_cacheTime ns))).
  { unfold result, SQF.QS_fnc_whitelistDB. rewrite Hv, Hdb. reflexivity. }
  split; [|split; [|split; [|split; [|split; [|split]]]]].
  - intros Hd. unfold SQF.cacheDuration. now rewrite Hd.
  - unfold SQF.cacheValid. fold cached cacheTime.
    rewrite !andb_true_iff, negb_true_iff, Nat.ltb_lt. unfold SQF.ltn.
    destruct (QArith_base.Qlt_le_dec (QArith_base.Qminus now cacheTime)
                (SQF.cacheDuration ns)) as [Hlt|Hle].
    + destruct cached; simpl; intuition (try discriminate; try lia).
    + split; [intros [_ H]; discriminate H|].
      intros (_ & _ & Hlt). exfalso.
      exact (QArith_base.Qlt_not_le _ _ Hlt Hle).
  - intros Hc. now rewrite Hres, Hc.
  - intros ->. reflexivity.
  - intros Hc. rewrite Hres, Hc. simpl. rewrite eqs_refl. auto.
  - unfold SQF.loaded. intros [-> | ->]; simpl; [|reflexivity].
    destruct (file type); reflexivity.
  - intros rows Hne ->. unfold SQF.loaded. destruct rows; [contradiction|].
    reflexivity.
Qed.

Lemma C8_cache_and_fallback_witness :
  SQF.validType (str "S3") = true
  /\ SQF.getVariable (SQF.QS_server_isUsingDB ns1) false = true
  /\ SQF.QS_fnc_whitelistDB ns1 (fun _ => [uid02]) (QArith_base.Qmake 150 1)
       (fun _ => SQF.QueryRows []) (str "S3") false
     = ([uid01], ns1)
  /\ fst (SQF.QS_fnc_whitelistDB ns1 (fun _ => [uid02]) (QArith_base.Qmake 150 1)
            (fun _ => SQF.QueryRows []) (str "S3") true)
     = [uid02].
Proof.
  assert (H1 : SQF.validType (str "S3") = true) by (vm_compute; reflexivity).
  assert (H2 : SQF.getVariable (SQF.QS_server_isUsingDB ns1) false = true)
    by reflexivity.
  split; [exact H1 | split; [exact H2|]].
  pose proof (C8_cache_and_fallback ns1 (fun _ => [uid02])
                (QArith_base.Qmake 150 1) (fun _ => SQF.QueryRows []) (str "S3")
                false H1 H2) as Hhit.
  pose proof (C8_cache_and_fallback ns1 (fun _ => [uid02])
                (QArith_base.Qmake 150 1) (fun _ => SQF.QueryRows []) (str "S3")
                true H1 H2) as Hforce.
  cbv zeta in Hhit, Hforce.
  destruct Hhit as (_ & _ & Hhit & _).
  destruct Hforce as (_ & _ & _ & Hoff & Hload & Hfile & _).
  split.
  - apply Hhit. vm_compute. reflexivity.
  - rewrite (proj1 (Hload (Hoff eq_refl))). apply Hfile. right. reflexivity.
Defined.

(** * Further properties of the text codec *)

(** The exact result of [updatePattern] at a block, when no later assignment
    of the same block could be taken instead. *)
Lemma update_run_exact R n0 G B Rt body Z :
  In R roleNames ->
  isBlock R G B Rt body ->
  (forall B' Rt' W,
      B ++ Rt ++ body ++ c_rbracket :: Z = B' ++ Rt' ++ W ->
      accepts notBrace B' -> (length B < length B')%nat ->
      L returnOpen Rt' -> ~ In c_rbracket W) ->
  m (updatePattern R) n0 (G ++ B ++ Rt ++ body ++ c_rbracket :: Z) [] accept
  = Some (Z, [(1%nat, G ++ B ++ Rt); (2%nat, [c_rbracket])]).
Proof.
  intros HR (HG & HB & HRt & Hb) Hmax. rewrite updatePattern_unfold.
  destruct (role_checks R HR) as (Hp & Hg & He & Ha).
  destruct returnOpen_checks as (Hp' & Hg' & He' & _).
  rewrite (m_det (ifGuard R) c_lbrace) by assumption.
  apply star_intro; [assumption | |].
  - rewrite (m_det returnOpen c_lbracket) by assumption.
    unfold updTail.
    change (m (Seq (Star notBracket) (Group 2 (Atom (CChar c_rbracket)))) n0
              (body ++ c_rbracket :: Z)
              (setCap 1 (cut (G ++ B ++ Rt ++ body ++ c_rbracket :: Z)
                             (body ++ c_rbracket :: Z)) []) accept)
      with (star notBracket
              (fun s4 c4 => m (Group 2 (Atom (CChar c_rbracket))) n0 s4 c4 accept)
              (body ++ c_rbracket :: Z)
              (setCap 1 (cut (G ++ B ++ Rt ++ body ++ c_rbracket :: Z)
                             (body ++ c_rbracket :: Z)) [])).
    apply star_intro; [assumption | |].
    + replace (G ++ B ++ Rt ++ body ++ c_rbracket :: Z)
        with ((G ++ B ++ Rt) ++ body ++ c_rbracket :: Z) by (now lnorm).
      rewrite cut_app.
      change (m (Group 2 (Atom (CChar c_rbracket))) n0 (c_rbracket :: Z)
                (setCap 1 (G ++ B ++ Rt) []) accept)
        with (Some (Z, [(1%nat, G ++ B ++ Rt);
                        (2%nat, cut ([c_rbracket] ++ Z) Z)])).
      now rewrite cut_app.
    + intros B' U' Heq HB' Hlen.
      exfalso. apply (accepts_notIn c_rbracket B' HB').
      assert (Hn : nth_error (B' ++ U') (length body) = Some c_rbracket).
      { rewrite <- Heq, nth_error_app2, Nat.sub_diag by lia. reflexivity. }
      rewrite nth_error_app1 in Hn by lia.
      eapply nth_error_In; eauto.
  - intros B' U' Heq HB' Hlen. cbv beta.
    match goal with |- ?t = None => destruct t as [[Z' cs]|] eqn:Hm; [|reflexivity] end.
    exfalso.
    destruct (m_sound _ Hp' _ _ _ _ _ Hm) as (Rt' & W & c' & -> & HRt' & Hk & _).
    destruct (updTail_elim _ _ _ _ _ _ Hk) as (body' & -> & _ & _).
    apply (Hmax B' Rt' (body' ++ c_rbracket :: Z') Heq HB' Hlen HRt').
    apply in_or_app; simpl; auto.
Qed.

(** After the bracket body of the block found by [updatePattern] is replaced,
    [updatePattern] finds the same block, with the new body. *)
Lemma rewrite_then_update R A G B Rt body Z repl mr :
  In R roleNames ->
  exec (updatePattern R) (A ++ G ++ B ++ Rt ++ body ++ c_rbracket :: Z) = Some mr ->
  index mr = length A -> after mr = Z ->
  isBlock R G B Rt body -> accepts notBrace body ->
  ~ In c_underscore repl -> ~ In c_rbracket repl -> ~ In c_rbrace repl ->
  (forall A1 A2 G' B' Rt' W,
      A = A1 ++ A2 -> A2 <> [] ->
      A2 ++ G ++ B ++ Rt ++ body ++ c_rbracket :: Z = G' ++ B' ++ Rt' ++ W ->
      L (ifGuard R) G' -> accepts notBrace B' -> L returnOpen Rt' ->
      ~ In c_rbracket W) ->
  (forall B' Rt' W,
      B ++ Rt ++ body ++ c_rbracket :: Z = B' ++ Rt' ++ W ->
      accepts notBrace B' -> (length B < length B')%nat ->
      L returnOpen Rt' -> ~ In c_rbracket W) ->
  exec (updatePattern R) (A ++ G ++ B ++ Rt ++ repl ++ c_rbracket :: Z)
  = Some (mkMatch (length A) (G ++ B ++ Rt ++ repl ++ [c_rbracket])
            [(1%nat, G ++ B ++ Rt); (2%nat, [c_rbracket])] Z).
Proof.
  intros HR _ _ _ (HG & HB & HRt & Hb) Hbody Hus Hrb Hbr Hearly Hmax.
  unfold exec.
  replace (G ++ B ++ Rt ++ repl ++ [c_rbracket])
    with (cut (G ++ B ++ Rt ++ repl ++ c_rbracket :: Z) Z).
  2:{ replace (G ++ B ++ Rt ++ repl ++ c_rbracket :: Z)
        with ((G ++ B ++ Rt ++ repl ++ [c_rbracket]) ++ Z) by (now lnorm).
      apply cut_app. }
  change (length A) with (0 + length A)%nat.
  apply search_intro.
  - intros A1 A2 HA Hne2.
    match goal with |- ?t = None => destruct t as [[Z' cs]|] eqn:Hrun; [|reflexivity] end.
    exfalso.
    destruct (update_run_elim _ _ _ _ _ HR Hrun)
      as (G' & B' & Rt' & body' & Heq & (HG' & HB' & HRt' & _) & _ & _).
    destruct (block_transfer R (A2 ++ G ++ B) Rt (repl ++ c_rbracket :: Z)
                G' B' Rt' (body' ++ c_rbracket :: Z') (body ++ c_rbracket :: Z))
      as (G2 & B2 & Rt2 & W2 & Heq2 & HG2 & HB2 & HRt2 & Hin); auto.
    + rewrite <- Heq. now lnorm.
    + apply in_or_app; simpl; auto.
    + apply (Hearly A1 A2 G2 B2 Rt2 W2); auto.
      rewrite <- Heq2. now lnorm.
  - apply update_run_exact; auto.
    + repeat split; auto. apply notIn_accepts; exact Hrb.
    + intros B' Rt' W Heq HB' Hlen HRt' Hin.
      destruct (later_transfer B Rt repl body Z B' Rt' W)
        as (B3 & Heq3 & HB3 & Hlen3); auto.
      * apply notIn_accepts; exact Hbr.
      * apply (Hmax B3 Rt' W); auto.
Qed.

Lemma replChar_listChar c : replChar c = true -> listChar c = true.
Proof.
  unfold replChar, listChar. intros H.
  repeat (apply orb_prop in H as [H|H]);
    try (apply N.eqb_eq in H; subst c; reflexivity).
  now rewrite H.
Qed.

(** The text written by [updateWhitelistInContent] on a text with an intact
    block, and what a second update makes of it. *)
Lemma update_shape R content :
  In R roleNames -> editable content R = true ->
  exists A G B Rt body Z,
    content = A ++ G ++ B ++ Rt ++ body ++ c_rbracket :: Z
    /\ isBlock R G B Rt body
    /\ forall uids, Forall (fun u => isDigitString u = true) uids ->
       updateWhitelistInContent content R uids
       = A ++ G ++ B ++ Rt ++ replacement uids ++ c_rbracket :: Z
       /\ exec (updatePattern R) (updateWhitelistInContent content R uids)
          = Some (mkMatch (length A)
                    (G ++ B ++ Rt ++ replacement uids ++ [c_rbracket])
                    [(1%nat, G ++ B ++ Rt); (2%nat, [c_rbracket])] Z).
Proof.
  intros HR He. unfold editable in He.
  destruct (exec (updatePattern R) content) as [mr|] eqn:Hex; [|discriminate].
  destruct (exec_update_elim _ _ _ HR Hex)
    as (A & G & B & Rt & body & Z & Hc & Hblk & Hi & Hm & Hg & Hz & Hearly & Hmax).
  assert (Hm' : matched mr = (G ++ B ++ Rt) ++ body ++ [c_rbracket])
    by (rewrite Hm; now lnorm).
  rewrite (bodyOf_block _ _ _ Hg Hm') in He.
  exists A, G, B, Rt, body, Z.
  split; [exact Hc | split; [exact Hblk |]].
  intros uids Hu.
  assert (Hupd := update_found R content mr uids HR Hu Hex).
  assert (Hshape : updateWhitelistInContent content R uids
                   = A ++ G ++ B ++ Rt ++ replacement uids ++ c_rbracket :: Z).
  { rewrite Hupd. unfold Replace.capture. rewrite Hg, Hi, Hz, Hc; simpl.
    rewrite firstn_app, Nat.sub_diag, firstn_all; simpl. rewrite app_nil_r.
    now lnorm. }
  split; [exact Hshape|].
  rewrite Hshape. subst content.
  destruct (replacement_chars _ Hu) as [Hch _].
  apply (rewrite_then_update R A G B Rt body Z (replacement uids) mr); auto.
  - apply Forall_forall. apply forallb_forall. exact He.
  - apply (replChar_notIn _ _ Hch); reflexivity.
  - apply (replChar_notIn _ _ Hch); reflexivity.
  - apply (replChar_notIn _ _ Hch); reflexivity.
Qed.


(** X1. [updateWhitelistInContent] keeps a text well formed: after a list of
    digit strings is written into an intact block, the block of the role is
    found again and its bracket holds a list of quoted digit strings only. *)
Theorem update_keeps_wellFormed (content role : jsstring) (uids : list jsstring) :
  In role roleNames -> editable content role = true ->
  Forall (fun u => isDigitString u = true) uids ->
  wellFormed (updateWhitelistInContent content role uids) role = true.
Proof.
  intros HR He Hu.
  destruct (update_shape role content HR He)
    as (A & G & B & Rt & body & Z & _ & _ & Hall).
  destruct (Hall uids Hu) as [_ Hex].
  unfold wellFormed. rewrite Hex.
  rewrite (bodyOf_block _ (G ++ B ++ Rt) (replacement uids));
    [| reflexivity | simpl; now lnorm].
  destruct (replacement_chars _ Hu) as [Hch _].
  apply forallb_forall. intros c Hc. rewrite forallb_forall in Hch.
  apply replChar_listChar; auto.
Qed.

Lemma update_keeps_wellFormed_witness :
  In (str "S3") roleNames
  /\ editable s3OnlyDoc (str "S3") = true
  /\ Forall (fun u => isDigitString u = true) [legacy18]
  /\ wellFormed (updateWhitelistInContent s3OnlyDoc (str "S3") [legacy18])
       (str "S3") = true.
Proof.
  assert (H1 : In (str "S3") roleNames) by (left; reflexivity).
  assert (H2 : editable s3OnlyDoc (str "S3") = true) by (vm_compute; reflexivity).
  assert (H3 : Forall (fun u => isDigitString u = true) [legacy18])
    by (repeat constructor).
  split; [exact H1 | split; [exact H2 | split; [exact H3|]]].
  exact (update_keeps_wellFormed s3OnlyDoc (str "S3") [legacy18] H1 H2 H3).
Defined.

Lemma update_twice R content uids1 uids2 :
  In R roleNames -> editable content R = true ->
  Forall (fun u => isDigitString u = true) uids1 ->
  Forall (fun u => isDigitString u = true) uids2 ->
  updateWhitelistInContent (updateWhitelistInContent content R uids1) R uids2
  = updateWhitelistInContent content R uids2.
Proof.
  intros HR He Hu1 Hu2.
  destruct (update_shape R content HR He)
    as (A & G & B & Rt & body & Z & Hc & Hblk & Hall).
  destruct (Hall uids1 Hu1) as [Hs1 Hex1].
  destruct (Hall uids2 Hu2) as [Hs2 _].
  rewrite (update_found R _ _ uids2 HR Hu2 Hex1).
  unfold Replace.capture. simpl index. simpl after. simpl groups. simpl getCap.
  rewrite Hs1, Hs2, firstn_app, Nat.sub_diag, firstn_all; simpl.
  rewrite app_nil_r. now lnorm.
Qed.

(** X2. The last write wins: on a text with an intact block, writing a list
    and then another list for the same role gives the text that writing the
    second list alone gives; in particular writing the same list a second
    time changes nothing. *)
Theorem update_last_write_wins (content role : jsstring)
  (uids1 uids2 : list jsstring) :
  In role roleNames -> editable content role = true ->
  Forall (fun u => isDigitString u = true) uids1 ->
  Forall (fun u => isDigitString u = true) uids2 ->
  updateWhitelistInContent (updateWhitelistInContent content role uids1) role uids2
  = updateWhitelistInContent content role uids2
  /\ updateWhitelistInContent (updateWhitelistInContent content role uids2)
       role uids2
     = updateWhitelistInContent content role uids2.
Proof.
  intros HR He Hu1 Hu2. split; apply update_twice; assumption.
Qed.

Lemma update_last_write_wins_witness :
  In (str "S3") roleNames
  /\ editable s3OnlyDoc (str "S3") = true
  /\ Forall (fun u => isDigitString u = true) [legacy18]
  /\ Forall (fun u => isDigitString u = true) [uid99; uid01]
  /\ updateWhitelistInContent
       (updateWhitelistInContent s3OnlyDoc (str "S3") [legacy18])
       (str "S3") [uid99; uid01]
     = updateWhitelistInContent s3OnlyDoc (str "S3") [uid99; uid01]
  /\ updateWhitelistInContent
       (updateWhitelistInContent s3OnlyDoc (str "S3") [uid99; uid01])
       (str "S3") [uid99; uid01]
     = updateWhitelistInContent s3OnlyDoc (str "S3") [uid99; uid01].
Proof.
  assert (H1 : In (str "S3") roleNames) by (left; reflexivity).
  assert (H2 : editable s3OnlyDoc (str "S3") = true) by (vm_compute; reflexivity).
  assert (H3 : Forall (fun u => isDigitString u = true) [legacy18])
    by (repeat constructor).
  assert (H4 : Forall (fun u => isDigitString u = true) [uid99; uid01])
    by (repeat constructor).
  split; [exact H1 | split; [exact H2 | split; [exact H3 | split; [exact H4|]]]].
  exact (update_last_write_wins s3OnlyDoc (str "S3") [legacy18] [uid99; uid01]
           H1 H2 H3 H4).
Defined.

(** ** Further properties of the store operations *)

Lemma filter_absent uid l :
  ~ In uid l -> filter (fun u => negb (eqs u uid)) l = l.
Proof.
  induction l as [|a l IH]; intros Hn; simpl; [reflexivity|].
  destruct (eqs a uid) eqn:Ha.
  - apply eqs_true in Ha. subst. exfalso. apply Hn. now left.
  - simpl. f_equal. apply IH. intros H. apply Hn. now right.
Qed.

Lemma filter_appended uid l :
  ~ In uid l -> filter (fun u => negb (eqs u uid)) (l ++ [uid]) = l.
Proof.
  intros Hn. rewrite filter_app, filter_absent by assumption. simpl.
  rewrite eqs_refl. simpl. apply app_nil_r.
Qed.

Lemma addUid_failure (toUpperCase : jsstring -> jsstring)
  (filePath : jsstring) (fs : FileState) (role uid : jsstring) :
  match addUid toUpperCase filePath fs role uid with
  | (Resolved r, fs') => success r = true \/ fs' = fs
  | (Rejected _, fs') => fs' = fs
  end.
Proof.
  rewrite addUid_eq.
  destruct (Str.includes roleNames (toUpperCase role)); cbn [negb];
    [|right; reflexivity].
  destruct (test steam64 uid); cbn [negb]; [|right; reflexivity].
  destruct fs as [content|]; [|reflexivity]. cbv zeta.
  destruct (Str.includes (parseRole content (toUpperCase role)) uid);
    [right | left]; reflexivity.
Qed.

Lemma removeUid_failure (toUpperCase : jsstring -> jsstring)
  (filePath : jsstring) (fs : FileState) (role uid : jsstring) :
  match removeUid toUpperCase filePath fs role uid with
  | (Resolved r, fs') => success r = true \/ fs' = fs
  | (Rejected _, fs') => fs' = fs
  end.
Proof.
  rewrite removeUid_eq.
  destruct (Str.includes roleNames (toUpperCase role)); cbn [negb];
    [|right; reflexivity].
  destruct fs as [content|]; [|reflexivity]. cbv zeta.
  destruct (Str.includes (parseRole content (toUpperCase role)) uid);
    cbn [negb]; [left | right]; reflexivity.
Qed.

(** X3. Only a successful operation writes: when [addUid] or [removeUid]
    reports a failure (unknown role, malformed identifier, identifier already
    or not listed) or rejects (no file), the file is left as it was. *)
Theorem failure_leaves_file (toUpperCase : jsstring -> jsstring)
  (filePath : jsstring) (fs : FileState) (role uid : jsstring) :
  (match addUid toUpperCase filePath fs role uid with
   | (Resolved r, fs') => success r = true \/ fs' = fs
   | (Rejected _, fs') => fs' = fs
   end)
  /\ (match removeUid toUpperCase filePath fs role uid with
      | (Resolved r, fs') => success r = true \/ fs' = fs
      | (Rejected _, fs') => fs' = fs
      end).
Proof.
  split; [apply addUid_failure | apply removeUid_failure].
Qed.

(** X4. Adding an identifier and removing it again restores the list of the
    role: on a text with an intact block of the role, for an identifier that
    is not listed, both operations succeed, [getUids] gives afterwards the
    list it gave before, and the file holds the text that writing that list
    into the first text gives. *)
Theorem add_then_remove (toUpperCase : jsstring -> jsstring)
  (filePath content role uid : jsstring) :
  In (toUpperCase role) roleNames ->
  editable content (toUpperCase role) = true ->
  test steam64 uid = true ->
  ~ In uid (parseRole content (toUpperCase role)) ->
  let added := addUid toUpperCase filePath (Some content) role uid in
  let removed := removeUid toUpperCase filePath (snd added) role uid in
  fst added = Resolved (Added uid (toUpperCase role))
  /\ fst removed = Resolved (Removed uid (toUpperCase role))
  /\ snd removed
     = Some (updateWhitelistInContent content (toUpperCase role)
               (parseRole content (toUpperCase role)))
  /\ getUids toUpperCase filePath (snd removed) role
     = getUids toUpperCase filePath (Some content) role.
Proof.
  intros HR He Hu Hn. cbv zeta.
  set (R := toUpperCase role) in *.
  set (l := parseRole content R) in *.
  assert (Hl : Forall (fun u => isDigitString u = true) l)
    by apply parseRole_digits.
  assert (Hl' : Forall (fun u => isDigitString u = true) (l ++ [uid])).
  { apply Forall_app. split; [exact Hl|].
    constructor; [now apply steam64_digitString | constructor]. }
  assert (Hadd : addUid toUpperCase filePath (Some content) role uid
                 = (Resolved (Added uid R),
                    Some (updateWhitelistInContent content R (l ++ [uid])))).
  { rewrite addUid_eq. fold R.
    rewrite (proj2 (includes_In roleNames R) HR), Hu. cbn [negb]. cbv zeta.
    fold l. now rewrite (proj2 (includes_not_In l uid) Hn). }
  rewrite Hadd. cbn [fst snd].
  assert (Hrem : removeUid toUpperCase filePath
                   (Some (updateWhitelistInContent content R (l ++ [uid])))
                   role uid
                 = (Resolved (Removed uid R),
                    Some (updateWhitelistInContent content R l))).
  { rewrite removeUid_eq. fold R.
    rewrite (proj2 (includes_In roleNames R) HR). cbn [negb]. cbv zeta.
    rewrite (round_trip_editable content R (l ++ [uid]) HR He Hl').
    assert (Hin : Str.includes (l ++ [uid]) uid = true).
    { apply includes_In. apply in_or_app. right. now left. }
    rewrite Hin. cbn [negb].
    rewrite (filter_appended uid l Hn).
    now rewrite (update_twice R content (l ++ [uid]) l HR He Hl' Hl). }
  rewrite Hrem. cbn [fst snd].
  split; [reflexivity | split; [reflexivity | split; [reflexivity|]]].
  rewrite !getUids_eq. fold R.
  rewrite (proj2 (includes_In roleNames R) HR).
  now rewrite (round_trip_editable content R l HR He Hl).
Qed.

Lemma add_then_remove_witness :
  In (Str.asciiUpper (str "s3")) roleNames
  /\ editable s3OnlyDoc (Str.asciiUpper (str "s3")) = true
  /\ test steam64 uid99 = true
  /\ ~ In uid99 (parseRole s3OnlyDoc (Str.asciiUpper (str "s3")))
  /\ (let added := addUid Str.asciiUpper path0 (Some s3OnlyDoc) (str "s3") uid99 in
      let removed := removeUid Str.asciiUpper path0 (snd added) (str "s3") uid99 in
      fst added = Resolved (Added uid99 (Str.asciiUpper (str "s3")))
      /\ fst removed = Resolved (Removed uid99 (Str.asciiUpper (str "s3")))
      /\ snd removed
         = Some (updateWhitelistInContent s3OnlyDoc (Str.asciiUpper (str "s3"))
                   (parseRole s3OnlyDoc (Str.asciiUpper (str "s3"))))
      /\ getUids Str.asciiUpper path0 (snd removed) (str "s3")
         = getUids Str.asciiUpper path0 (Some s3OnlyDoc) (str "s3")).
Proof.
  assert (H1 : In (Str.asciiUpper (str "s3")) roleNames) by (left; reflexivity).
  assert (H2 : editable s3OnlyDoc (Str.asciiUpper (str "s3")) = true)
    by (vm_compute; reflexivity).
  assert (H3 : test steam64 uid99 = true) by (vm_compute; reflexivity).
  assert (H4 : ~ In uid99 (parseRole s3OnlyDoc (Str.asciiUpper (str "s3")))).
  { apply includes_not_In. vm_compute. reflexivity. }
  split; [exact H1 | split; [exact H2 | split; [exact H3 | split; [exact H4|]]]].
  exact (add_then_remove Str.asciiUpper path0 s3OnlyDoc (str "s3") uid99
           H1 H2 H3 H4).
Defined.

Lemma fold_mapSet_fresh (f : jsstring -> list jsstring) names w :
  NoDup names -> (forall k, In k names -> mapGet k w = None) ->
  fold_left (fun wl r => mapSet r (f r) wl) names w
  = w ++ map (fun r => (r, f r)) names.
Proof.
  assert (Hset : forall k v w0, mapGet k w0 = None -> mapSet k v w0 = w0 ++ [(k, v)]).
  { intros k v w0. induction w0 as [|[k' v'] w0 IH]; simpl; [reflexivity|].
    destruct (eqs k' k); [discriminate|]. intros H. now rewrite IH. }
  revert w. induction names as [|r names IH]; intros w Hnd Hw; simpl.
  - now rewrite app_nil_r.
  - inversion Hnd as [|? ? Hr Hnd']; subst.
    rewrite IH; [| assumption |].
    + rewrite Hset by (apply Hw; now left). now rewrite <- app_assoc.
    + intros k Hk. rewrite mapGet_set_other.
      * apply Hw. now right.
      * intros ->. contradiction.
Qed.

Lemma parseContent_map content :
  parseContent content = map (fun r => (r, parseRole content r)) roleNames.
Proof.
  unfold parseContent.
  now rewrite (fold_mapSet_fresh (parseRole content) roleNames []
                 roleNames_NoDup (fun _ _ => eq_refl)).
Qed.

(** X5. [parseContent] gives one entry for each configured role and no other,
    in the order of the configuration, whatever the text: the entry of a
    role holds the list read for that role (empty without a block), so
    [getAllWhitelists] always lists the eleven roles. *)
Theorem parseContent_entries (content : jsstring) :
  parseContent content = map (fun r => (r, parseRole content r)) roleNames
  /\ map fst (parseContent content) = roleNames
  /\ length (parseContent content) = 11%nat.
Proof.
  assert (H := parseContent_map content).
  split; [exact H | split].
  - rewrite H, map_map. apply map_id.
  - rewrite H, length_map. reflexivity.
Qed.

Lemma split_nonempty sep s : Str.split sep s <> [].
Proof.
  destruct s as [|x s]; simpl; [discriminate|].
  destruct (x =? sep); [discriminate|].
  destruct (Str.split sep s); discriminate.
Qed.

Lemma split_app sep a b :
  Str.split sep (a ++ sep :: b) = Str.split sep a ++ Str.split sep b.
Proof.
  induction a as [|x a IH]; simpl.
  - now rewrite N.eqb_refl.
  - destruct (x =? sep); [now rewrite IH|].
    rewrite IH. destruct (Str.split sep a) as [|h t] eqn:Hs.
    + now apply split_nonempty in Hs.
    + reflexivity.
Qed.

(** X6. The list inside a bracket is read entry by entry: the identifiers of
    two pieces joined by a comma are the identifiers of the first piece
    followed by those of the second, so an empty entry or a trailing comma
    contributes nothing. *)
Theorem extractUids_comma (a b : jsstring) :
  extractUids (a ++ c_comma :: b) = extractUids a ++ extractUids b
  /\ extractUids (a ++ [c_comma]) = extractUids a
  /\ extractUids (c_comma :: b) = extractUids b.
Proof.
  assert (H : forall x y,
             extractUids (x ++ c_comma :: y) = extractUids x ++ extractUids y).
  { intros x y. unfold extractUids.
    now rewrite split_app, map_app, filter_app. }
  split; [apply H | split].
  - rewrite H. apply app_nil_r.
  - apply (H [] b).
Qed.

(** ** Further properties of QS_fnc_whitelistDB *)

Lemma whitelistDB_on ns file now query type force :
  SQF.validType type = true ->
  SQF.getVariable (SQF.QS_server_isUsingDB ns) false = true ->
  SQF.QS_fnc_whitelistDB ns file now query type force
  = if SQF.cacheValid ns now type force
    then (SQF.getVariable (SQF.lookup type (SQF.QS_whitelist_cache ns)) [], ns)
    else (SQF.loaded file (query type) type,
          SQF.mkNamespace (SQF.QS_server_isUsingDB ns)
            (SQF.QS_whitelist_cacheDuration ns)
            ((type, SQF.loaded file (query type) type)
               :: SQF.QS_whitelist_cache ns)
            ((type, now) :: SQF.QS_whitelist_cacheTime ns)).
Proof.
  intros Hv Hdb. unfold SQF.QS_fnc_whitelistDB. now rewrite Hv, Hdb.
Qed.

Lemma cacheValid_nonempty ns now type force :
  SQF.cacheValid ns now type force = true ->
  SQF.getVariable (SQF.lookup type (SQF.QS_whitelist_cache ns)) [] <> [].
Proof.
  unfold SQF.cacheValid. intros H.
  apply andb_prop in H as [H _]. apply andb_prop in H as [_ H].
  destruct (SQF.getVariable (SQF.lookup type (SQF.QS_whitelist_cache ns)) []);
    [discriminate | discriminate].
Qed.

Lemma loaded_nonempty file outcome type :
  file type <> [] -> SQF.loaded file outcome type <> [].
Proof.
  intros Hf. unfold SQF.loaded.
  destruct outcome as [|rows]; [destruct (file type); [contradiction|discriminate]|].
  destruct rows; simpl; [exact Hf | discriminate].
Qed.

(** X7. The function fails open on the file: for a valid type whose
    file-based whitelist is not empty, the answer is never empty, whatever
    the state of the database switch, of the cache and of the query. *)
Theorem whitelistDB_answer_nonempty (ns : SQF.Namespace)
  (file : jsstring -> list jsstring) (now : SQF.number)
  (query : jsstring -> SQF.QueryOutcome) (type : jsstring) (force : bool) :
  SQF.validType type = true -> file type <> [] ->
  fst (SQF.QS_fnc_whitelistDB ns file now query type force) <> [].
Proof.
  intros Hv Hf.
  destruct (SQF.getVariable (SQF.QS_server_isUsingDB ns) false) eqn:Hdb.
  - rewrite whitelistDB_on by assumption.
    destruct (SQF.cacheValid ns now type force) eqn:Hc; cbn [fst].
    + now apply cacheValid_nonempty in Hc.
    + now apply loaded_nonempty.
  - unfold SQF.QS_fnc_whitelistDB. now rewrite Hv, Hdb.
Qed.

Lemma whitelistDB_answer_nonempty_witness :
  SQF.validType (str "S3") = true
  /\ (fun _ : jsstring => [uid02]) (str "S3") <> []
  /\ fst (SQF.QS_fnc_whitelistDB ns0 (fun _ => [uid02]) (QArith_base.Qmake 7 1)
            (fun _ => SQF.QueryThrew) (str "S3") true) <> [].
Proof.
  assert (H1 : SQF.validType (str "S3") = true) by reflexivity.
  assert (H2 : (fun _ : jsstring => [uid02]) (str "S3") <> []) by discriminate.
  split; [exact H1 | split; [exact H2|]].
  exact (whitelistDB_answer_nonempty ns0 (fun _ => [uid02]) (QArith_base.Qmake 7 1)
           (fun _ => SQF.QueryThrew) (str "S3") true H1 H2).
Defined.

(** X8. A loaded list is served again without a query: after a call that
    loaded a non-empty list at clock reading [t0], a call for the same type
    at a reading [t1] with [t1 - t0] below the cache duration and no force
    refresh gives the same list and leaves the namespace as it is, whatever
    the database and the file would answer by then. *)
Theorem whitelistDB_second_call (ns : SQF.Namespace)
  (file file' : jsstring -> list jsstring) (t0 t1 : SQF.number)
  (query query' : jsstring -> SQF.QueryOutcome) (type : jsstring)
  (force : bool) :
  SQF.validType type = true ->
  SQF.getVariable (SQF.QS_server_isUsingDB ns) false = true ->
  SQF.cacheValid ns t0 type force = false ->
  fst (SQF.QS_fnc_whitelistDB ns file t0 query type force) <> [] ->
  QArith_base.Qlt (QArith_base.Qminus t1 t0) (SQF.cacheDuration ns) ->
  SQF.QS_fnc_whitelistDB
    (snd (SQF.QS_fnc_whitelistDB ns file t0 query type force))
    file' t1 query' type false
  = SQF.QS_fnc_whitelistDB ns file t0 query type force.
Proof.
  intros Hv Hdb Hc Hne Hlt.
  rewrite (whitelistDB_on ns file t0 query type force Hv Hdb), Hc in *.
  cbn [fst snd] in *.
  rewrite whitelistDB_on; [| exact Hv | exact Hdb].
  assert (Hvalid : SQF.cacheValid
            (SQF.mkNamespace (SQF.QS_server_isUsingDB ns)
               (SQF.QS_whitelist_cacheDuration ns)
               ((type, SQF.loaded file (query type) type)
                  :: SQF.QS_whitelist_cache ns)
               ((type, t0) :: SQF.QS_whitelist_cacheTime ns))
            t1 type false = true).
  { unfold SQF.cacheValid. cbn [SQF.QS_whitelist_cache SQF.QS_whitelist_cacheTime
                                 SQF.lookup SQF.getVariable negb andb].
    rewrite eqs_refl. cbn [SQF.getVariable].
    destruct (SQF.loaded file (query type) type); [contradiction|].
    cbn [length Nat.ltb Nat.leb andb]. unfold SQF.ltn.
    change (SQF.cacheDuration _) with (SQF.cacheDuration ns).
    destruct (QArith_base.Qlt_le_dec (QArith_base.Qminus t1 t0)
                (SQF.cacheDuration ns)) as [_|Hle]; [reflexivity|].
    exfalso. exact (QArith_base.Qlt_not_le _ _ Hlt Hle). }
  rewrite Hvalid. cbn [SQF.QS_whitelist_cache SQF.lookup].
  rewrite eqs_refl. reflexivity.
Qed.

Lemma whitelistDB_second_call_witness :
  SQF.validType (str "S3") = true
  /\ SQF.getVariable (SQF.QS_server_isUsingDB ns0) false = true
  /\ SQF.cacheValid ns0 (QArith_base.Qmake 100 1) (str "S3") false = false
  /\ fst (SQF.QS_fnc_whitelistDB ns0 (fun _ => []) (QArith_base.Qmake 100 1)
            (fun _ => SQF.QueryRows [uid01]) (str "S3") false) <> []
  /\ QArith_base.Qlt
       (QArith_base.Qminus (QArith_base.Qmake 399 1) (QArith_base.Qmake 100 1))
       (SQF.cacheDuration ns0)
  /\ SQF.QS_fnc_whitelistDB
       (snd (SQF.QS_fnc_whitelistDB ns0 (fun _ => []) (QArith_base.Qmake 100 1)
               (fun _ => SQF.QueryRows [uid01]) (str "S3") false))
       (fun _ => [uid99]) (QArith_base.Qmake 399 1)
       (fun _ => SQF.QueryRows [uid02]) (str "S3") false
     = SQF.QS_fnc_whitelistDB ns0 (fun _ => []) (QArith_base.Qmake 100 1)
         (fun _ => SQF.QueryRows [uid01]) (str "S3") false.
Proof.
  assert (H1 : SQF.validType (str "S3") = true) by reflexivity.
  assert (H2 : SQF.getVariable (SQF.QS_server_isUsingDB ns0) false = true)
    by reflexivity.
  assert (H3 : SQF.cacheValid ns0 (QArith_base.Qmake 100 1) (str "S3") false
               = false) by reflexivity.
  assert (H4 : fst (SQF.QS_fnc_whitelistDB ns0 (fun _ => [])
                      (QArith_base.Qmake 100 1)
                      (fun _ => SQF.QueryRows [uid01]) (str "S3") false) <> [])
    by (vm_compute; discriminate).
  assert (H5 : QArith_base.Qlt
                 (QArith_base.Qminus (QArith_base.Qmake 399 1)
                    (QArith_base.Qmake 100 1))
                 (SQF.cacheDuration ns0)) by (vm_compute; reflexivity).
  split; [exact H1 | split; [exact H2 | split; [exact H3 |
    split; [exact H4 | split; [exact H5|]]]]].
  exact (whitelistDB_second_call ns0 (fun _ => []) (fun _ => [uid99])
           (QArith_base.Qmake 100 1) (QArith_base.Qmake 399 1)
           (fun _ => SQF.QueryRows [uid01]) (fun _ => SQF.QueryRows [uid02])
           (str "S3") false H1 H2 H3 H4 H5).
Defined.

(** X9. The caches are kept per type: a call for one type changes neither
    the switches nor the cached list and time of any other type, so a later
    call for another type answers as if the first call had not been made. *)
Theorem whitelistDB_other_type (ns : SQF.Namespace)
  (file file' : jsstring -> list jsstring) (t0 t1 : SQF.number)
  (query query' : jsstring -> SQF.QueryOutcome) (type other : jsstring)
  (force force' : bool) :
  other <> type ->
  let ns' := snd (SQF.QS_fnc_whitelistDB ns file t0 query type force) in
  SQF.QS_server_isUsingDB ns' = SQF.QS_server_isUsingDB ns
  /\ SQF.QS_whitelist_cacheDuration ns' = SQF.QS_whitelist_cacheDuration ns
  /\ SQF.lookup other (SQF.QS_whitelist_cache ns')
     = SQF.lookup other (SQF.QS_whitelist_cache ns)
  /\ SQF.lookup other (SQF.QS_whitelist_cacheTime ns')
     = SQF.lookup other (SQF.QS_whitelist_cacheTime ns)
  /\ fst (SQF.QS_fnc_whitelistDB ns' file' t1 query' other force')
     = fst (SQF.QS_fnc_whitelistDB ns file' t1 query' other force').
Proof.
  intros Hne ns'.
  assert (Hfalse : eqs type other = false)
    by (apply eqs_false; intros ->; now apply Hne).
  assert (H : SQF.QS_server_isUsingDB ns' = SQF.QS_server_isUsingDB ns
              /\ SQF.QS_whitelist_cacheDuration ns'
                 = SQF.QS_whitelist_cacheDuration ns
              /\ SQF.lookup other (SQF.QS_whitelist_cache ns')
                 = SQF.lookup other (SQF.QS_whitelist_cache ns)
              /\ SQF.lookup other (SQF.QS_whitelist_cacheTime ns')
                 = SQF.lookup other (SQF.QS_whitelist_cacheTime ns)).
  { unfold ns', SQF.QS_fnc_whitelistDB.
    destruct (negb (SQF.validType type)); [now auto|].
    destruct (negb (SQF.getVariable (SQF.QS_server_isUsingDB ns) false));
      [now auto|].
    destruct (SQF.cacheValid ns t0 type force); [now auto|].
    cbn [snd SQF.QS_server_isUsingDB SQF.QS_whitelist_cacheDuration
         SQF.QS_whitelist_cache SQF.QS_whitelist_cacheTime SQF.lookup].
    rewrite Hfalse. auto. }
  destruct H as (H1 & H2 & H3 & H4).
  split; [exact H1 | split; [exact H2 | split; [exact H3 | split; [exact H4|]]]].
  clearbody ns'. unfold SQF.QS_fnc_whitelistDB.
  unfold SQF.cacheValid, SQF.cacheDuration. rewrite H1, H2, H3, H4.
  destruct (negb (SQF.validType other)); [reflexivity|].
  destruct (negb (SQF.getVariable (SQF.QS_server_isUsingDB ns) false));
    [reflexivity|].
  match goal with |- fst (if ?b then _ else _) = _ => destruct b end;
    reflexivity.
Qed.

Lemma whitelistDB_other_type_witness :
  str "S3" <> str "CAS"
  /\ fst (SQF.QS_fnc_whitelistDB
            (snd (SQF.QS_fnc_whitelistDB ns1 (fun _ => [])
                    (QArith_base.Qmake 500 1)
                    (fun _ => SQF.QueryRows [uid02]) (str "CAS") false))
            (fun _ => []) (QArith_base.Qmake 150 1)
            (fun _ => SQF.QueryRows [uid99]) (str "S3") false)
     = fst (SQF.QS_fnc_whitelistDB ns1 (fun _ => []) (QArith_base.Qmake 150 1)
              (fun _ => SQF.QueryRows [uid99]) (str "S3") false).
Proof.
  assert (H1 : str "S3" <> str "CAS") by discriminate.
  split; [exact H1|].
  exact (proj2 (proj2 (proj2 (proj2
           (whitelistDB_other_type ns1 (fun _ => []) (fun _ => [])
              (QArith_base.Qmake 500 1) (QArith_base.Qmake 150 1)
              (fun _ => SQF.QueryRows [uid02]) (fun _ => SQF.QueryRows [uid99])
              (str "CAS") (str "S3") false false H1))))).
Defined.

(** X10. An empty answer is stored but never served: when, with the database
    switched on, a call for a valid type answers the empty list, the cache
    test fails at every later clock reading, and the next call loads again
    from the database or the file. *)
Theorem whitelistDB_empty_not_served (ns : SQF.Namespace)
  (file file' : jsstring -> list jsstring) (t0 t1 : SQF.number)
  (query query' : jsstring -> SQF.QueryOutcome) (type : jsstring)
  (force force' : bool) :
  SQF.validType type = true ->
  SQF.getVariable (SQF.QS_server_isUsingDB ns) false = true ->
  fst (SQF.QS_fnc_whitelistDB ns file t0 query type force) = [] ->
  let ns' := snd (SQF.QS_fnc_whitelistDB ns file t0 query type force) in
  SQF.lookup type (SQF.QS_whitelist_cache ns') = Some []
  /\ SQF.cacheValid ns' t1 type force' = false
  /\ fst (SQF.QS_fnc_whitelistDB ns' file' t1 query' type force')
     = SQF.loaded file' (query' type) type.
Proof.
  intros Hv Hdb He ns'. unfold ns'.
  rewrite (whitelistDB_on ns file t0 query type force Hv Hdb) in *.
  destruct (SQF.cacheValid ns t0 type force) eqn:Hc.
  - apply cacheValid_nonempty in Hc. cbn [fst] in He. contradiction.
  - cbn [fst snd] in *.
    assert (Hl : SQF.lookup type
                   (SQF.QS_whitelist_cache
                      (SQF.mkNamespace (SQF.QS_server_isUsingDB ns)
                         (SQF.QS_whitelist_cacheDuration ns)
                         ((type, SQF.loaded file (query type) type)
                            :: SQF.QS_whitelist_cache ns)
                         ((type, t0) :: SQF.QS_whitelist_cacheTime ns)))
                 = Some []).
    { cbn [SQF.QS_whitelist_cache SQF.lookup]. now rewrite eqs_refl, He. }
    assert (Hnv : SQF.cacheValid
                    (SQF.mkNamespace (SQF.QS_server_isUsingDB ns)
                       (SQF.QS_whitelist_cacheDuration ns)
                       ((type, SQF.loaded file (query type) type)
                          :: SQF.QS_whitelist_cache ns)
                       ((type, t0) :: SQF.QS_whitelist_cacheTime ns))
                    t1 type force' = false).
    { unfold SQF.cacheValid. rewrite Hl. cbn [SQF.getVariable length Nat.ltb Nat.leb].
      now rewrite andb_false_r. }
    split; [exact Hl | split; [exact Hnv|]].
    rewrite whitelistDB_on; [| exact Hv | exact Hdb].
    now rewrite Hnv.
Qed.

Lemma whitelistDB_empty_not_served_witness :
  SQF.validType (str "S3") = true
  /\ SQF.getVariable (SQF.QS_server_isUsingDB ns0) false = true
  /\ fst (SQF.QS_fnc_whitelistDB ns0 (fun _ => []) (QArith_base.Qmake 100 1)
            (fun _ => SQF.QueryThrew) (str "S3") false) = []
  /\ fst (SQF.QS_fnc_whitelistDB
            (snd (SQF.QS_fnc_whitelistDB ns0 (fun _ => [])
                    (QArith_base.Qmake 100 1)
                    (fun _ => SQF.QueryThrew) (str "S3") false))
            (fun _ => [uid02]) (QArith_base.Qmake 101 1)
            (fun _ => SQF.QueryRows [uid99]) (str "S3") false)
     = SQF.loaded (fun _ => [uid02])
         ((fun _ : jsstring => SQF.QueryRows [uid99]) (str "S3")) (str "S3").
Proof.
  assert (H1 : SQF.validType (str "S3") = true) by reflexivity.
  assert (H2 : SQF.getVariable (SQF.QS_server_isUsingDB ns0) false = true)
    by reflexivity.
  assert (H3 : fst (SQF.QS_fnc_whitelistDB ns0 (fun _ => [])
                      (QArith_base.Qmake 100 1)
                      (fun _ => SQF.QueryThrew) (str "S3") false) = [])
    by reflexivity.
  split; [exact H1 | split; [exact H2 | split; [exact H3|]]].
  exact (proj2 (proj2
           (whitelistDB_empty_not_served ns0 (fun _ => []) (fun _ => [uid02])
              (QArith_base.Qmake 100 1) (QArith_base.Qmake 101 1)
              (fun _ => SQF.QueryThrew) (fun _ => SQF.QueryRows [uid99])
              (str "S3") false false H1 H2 H3))).
Defined.

(** ** The panel service *)

Lemma m_lit {R : Type} w n0 t c (k : @cont R) :
  m (lit w) n0 (w ++ t) c k = k t c.
Proof.
  induction w as [|a w IH]; [reflexivity|].
  simpl. rewrite N.eqb_refl. exact IH.
Qed.

Lemma m_lit_elim {R : Type} w n0 s c (k : @cont R) r :
  m (lit w) n0 s c k = Some r -> exists t, s = w ++ t /\ k t c = Some r.
Proof.
  revert s. induction w as [|a w IH]; intros s; simpl.
  - intros H. now exists s.
  - destruct s as [|x s]; [discriminate|].
    destruct (N.eqb_spec x a) as [->|_]; [|discriminate].
    intros H. destruct (IH _ H) as (t & -> & Hk). now exists t.
Qed.

Lemma exec_lit_none w s :
  (forall a b, s <> a ++ w ++ b) -> exec (lit w) s = None.
Proof.
  intros Hno. destruct (exec (lit w) s) as [mr|] eqn:He; [|reflexivity].
  exfalso. unfold exec in He.
  destruct (search_elim _ _ _ _ _ He) as (A & M & -> & _ & _ & Hm & _).
  destruct (m_lit_elim _ _ _ _ _ _ Hm) as (t & -> & _).
  now apply (Hno A t).
Qed.

Lemma exec_lit_first w a b :
  (forall a1 a2 t, a = a1 ++ a2 -> a2 <> [] -> a2 ++ w ++ b <> w ++ t) ->
  exec (lit w) (a ++ w ++ b) = Some (mkMatch (length a) w [] b).
Proof.
  intros Hfirst. unfold exec.
  rewrite (search_intro (lit w) _ 0 a (w ++ b) b []).
  - now rewrite cut_app.
  - intros A1 A2 HA Hne.
    destruct (m (lit w) (length (a ++ w ++ b)) (A2 ++ w ++ b) [] accept)
      as [r|] eqn:Hm; [|reflexivity].
    exfalso. destruct (m_lit_elim _ _ _ _ _ _ Hm) as (t & Ht & _).
    exact (Hfirst A1 A2 t HA Hne Ht).
  - now rewrite m_lit.
Qed.

Lemma search_trailingSlash n0 i u :
  search Pterodactyl.trailingSlash n0 i (u ++ [c_slash])
  = Some (mkMatch (i + length u) [c_slash] [] []).
Proof.
  revert i. induction u as [|x u IH]; intros i.
  - simpl. now rewrite Nat.add_0_r.
  - simpl app. rewrite search_step.
    assert (Hm : m Pterodactyl.trailingSlash n0 (x :: u ++ [c_slash]) [] accept
                 = None).
    { simpl. destruct (x =? c_slash); [|reflexivity].
      destruct u; reflexivity. }
    rewrite Hm, IH. simpl. do 2 f_equal. lia.
Qed.

Lemma search_noTrailingSlash n0 i s :
  last s 0 <> c_slash -> search Pterodactyl.trailingSlash n0 i s = None.
Proof.
  revert i. induction s as [|x s IH]; intros i Hl; [reflexivity|].
  rewrite search_step.
  assert (Hm : m Pterodactyl.trailingSlash n0 (x :: s) [] accept = None).
  { simpl. destruct (N.eqb_spec x c_slash) as [->|_]; [|reflexivity].
    destruct s; [now contradiction Hl | reflexivity]. }
  match goal with
  | |- match ?e with _ => _ end = _ => destruct e as [[t c]|] eqn:He
  end; [discriminate (eq_trans (eq_sym He) Hm)|].
  destruct s as [|y s]; [reflexivity|].
  apply IH. exact Hl.
Qed.

Lemma replace_trailingSlash u :
  Replace.replace Pterodactyl.trailingSlash [] (u ++ [c_slash]) = u.
Proof.
  unfold Replace.replace, exec. rewrite search_trailingSlash. simpl.
  rewrite firstn_app, Nat.sub_diag, firstn_all. simpl. now rewrite !app_nil_r.
Qed.

Lemma replace_noTrailingSlash s :
  last s 0 <> c_slash -> Replace.replace Pterodactyl.trailingSlash [] s = s.
Proof.
  intros Hl. unfold Replace.replace, exec.
  now rewrite search_noTrailingSlash.
Qed.

Lemma last_snoc (u : jsstring) x d : last (u ++ [x]) d = x.
Proof.
  induction u as [|y u IH]; [reflexivity|].
  simpl app. destruct (u ++ [x]) eqn:Hu; [now destruct u | exact IH].
Qed.

Lemma ends_or_not (s : jsstring) :
  (exists u, s = u ++ [c_slash]) \/ last s 0 <> c_slash.
Proof.
  destruct s as [|x u _] using rev_ind; [right; discriminate|].
  rewrite last_snoc.
  destruct (N.eq_dec x c_slash) as [->|Hx]; [left; now exists u | now right].
Qed.

Lemma replace_trailingSlash_eq u :
  Replace.replace Pterodactyl.trailingSlash [] u
  = if last u 0 =? c_slash then removelast u else u.
Proof.
  destruct (ends_or_not u) as [[v ->] | Hno].
  - rewrite replace_trailingSlash, last_snoc, removelast_last. reflexivity.
  - rewrite replace_noTrailingSlash by assumption.
    destruct (N.eqb_spec (last u 0) c_slash); [contradiction | reflexivity].
Qed.

(** X11. The constructor of the panel service removes one trailing slash
    from the panel address and nothing else, and an address that is not set
    stays so; hence the integration counts as enabled exactly when the key
    and the server identifier are not empty and the address is neither
    empty nor a single slash. *)
Theorem panel_address_and_switch (url key id : option jsstring)
  (path : jsstring) :
  Pterodactyl.panelUrl (Pterodactyl.construct url key id path)
  = match url with
    | Some u => Some (if last u 0 =? c_slash then removelast u else u)
    | None => None
    end
  /\ Pterodactyl.isEnabled (Pterodactyl.construct url key id path)
     = (match url with
        | Some u => negb (Str.isEmpty u) && negb (eqs u [c_slash])
        | None => false
        end
        && Pterodactyl.truthy key && Pterodactyl.truthy id)%bool.
Proof.
  assert (H : Pterodactyl.panelUrl (Pterodactyl.construct url key id path)
              = match url with
                | Some u => Some (if last u 0 =? c_slash then removelast u else u)
                | None => None
                end).
  { destruct url as [u|]; [|reflexivity]. simpl.
    now rewrite replace_trailingSlash_eq. }
  split; [exact H|].
  unfold Pterodactyl.isEnabled. rewrite H.
  change (Pterodactyl.apiKey (Pterodactyl.construct url key id path)) with key.
  change (Pterodactyl.serverId (Pterodactyl.construct url key id path)) with id.
  do 2 f_equal.
  destruct url as [u|]; [|reflexivity].
  destruct (ends_or_not u) as [[v ->] | Hno].
  - rewrite last_snoc, removelast_last. change (c_slash =? c_slash) with true.
    cbv iota. destruct v as [|x v]; [reflexivity|].
    assert (He : eqs ((x :: v) ++ [c_slash]) [c_slash] = false)
      by (apply eqs_false; destruct v; discriminate).
    rewrite He. reflexivity.
  - destruct (N.eqb_spec (last u 0) c_slash); [contradiction|].
    destruct u as [|x u]; [reflexivity|].
    assert (He : eqs (x :: u) [c_slash] = false).
    { apply eqs_false. intros Hx. injection Hx as -> ->. now contradiction Hno. }
    rewrite He. reflexivity.
Qed.

Lemma timestamp_no_dollar iso :
  ~ In c_dollar iso -> ~ In c_dollar (Pterodactyl.timestamp iso).
Proof.
  unfold Pterodactyl.timestamp, Pterodactyl.replaceEach.
  intros Hn Hin. apply in_flat_map in Hin as (x & Hx & Hin).
  destruct (cmatch (CAnyOf [c_colon; c_dot]) x).
  - destruct Hin as [Hin|[]]. discriminate Hin.
  - destruct Hin as [Hin|[]]. subst x. contradiction.
Qed.

(** X12. The name of a backup: when [.sqf] does not occur in the whitelist
    path the backup path is the whitelist path itself; otherwise the text
    [_backup_] and the time stamp are put in front of the first [.sqf] of
    the path, and the rest of the path is kept. The time stamp holds no
    colon and no dot. *)
Theorem backupPath_cases (svc : Pterodactyl.Service) (iso : jsstring) :
  ~ In c_dollar iso ->
  (~ In c_colon (Pterodactyl.timestamp iso)
   /\ ~ In c_dot (Pterodactyl.timestamp iso))
  /\ ((Pterodactyl.backupPath svc iso = Pterodactyl.whitelistPath svc
       /\ forall a b, Pterodactyl.whitelistPath svc <> a ++ str ".sqf" ++ b)
      \/ exists a b,
           Pterodactyl.whitelistPath svc = a ++ str ".sqf" ++ b
           /\ Pterodactyl.backupPath svc iso
              = a ++ str "_backup_" ++ Pterodactyl.timestamp iso
                  ++ str ".sqf" ++ b
           /\ forall a' b',
                Pterodactyl.whitelistPath svc = a' ++ str ".sqf" ++ b' ->
                (length a <= length a')%nat).
Proof.
  intros Hd. split.
  - unfold Pterodactyl.timestamp, Pterodactyl.replaceEach.
    split; intros Hin; apply in_flat_map in Hin as (x & _ & Hin);
      destruct (cmatch (CAnyOf [c_colon; c_dot]) x) eqn:Hc;
      destruct Hin as [Hin|[]];
      try discriminate Hin; subst x; discriminate Hc.
  - unfold Pterodactyl.backupPath, Replace.replace.
    destruct (exec (lit (str ".sqf")) (Pterodactyl.whitelistPath svc))
      as [mr|] eqn:He.
    + right. unfold exec in He.
      destruct (search_elim _ _ _ _ _ He)
        as (A & M & Hs & Hi & Hnone & Hm & _).
      destruct (m_lit_elim _ _ _ _ _ _ Hm) as (t & -> & Ht).
      injection Ht as Ht _. simpl in Hi.
      exists A, t. split; [exact Hs | split].
      * rewrite Hi, Hs, firstn_app, Nat.sub_diag, firstn_all. simpl firstn.
        rewrite app_nil_r. f_equal.
        replace (str "_backup_" ++ Pterodactyl.timestamp iso ++ str ".sqf")
          with ((str "_backup_" ++ Pterodactyl.timestamp iso ++ str ".sqf")
                  ++ []) by apply app_nil_r.
        rewrite getSubstitution_plain.
        -- simpl Replace.getSubstitution. rewrite app_nil_r, <- Ht.
           now rewrite <- !app_assoc.
        -- intros Hin. apply in_app_or in Hin as [Hin|Hin].
           ++ simpl in Hin. repeat (destruct Hin as [Hin|Hin];
                                    [discriminate Hin|]). exact Hin.
           ++ apply in_app_or in Hin as [Hin|Hin].
              ** now apply (timestamp_no_dollar iso Hd).
              ** simpl in Hin. repeat (destruct Hin as [Hin|Hin];
                                       [discriminate Hin|]). exact Hin.
      * intros a' b' Hs'.
        destruct (Nat.le_gt_cases (length A) (length a')) as [Hle|Hlt];
          [exact Hle|]. exfalso.
        rewrite Hs in Hs'. symmetry in Hs'.
        destruct (longer_prefix _ _ _ _ Hs' Hlt) as (z & Hz & HA & Hw).
        assert (Hnone' := Hnone a' z HA Hz).
        rewrite <- Hw, m_lit in Hnone'. discriminate Hnone'.
    + left. split; [reflexivity|].
      intros a b Hs. unfold exec in He.
      assert (Hm := search_none _ _ _ _ He a (str ".sqf" ++ b) Hs).
      rewrite m_lit in Hm. discriminate Hm.
Qed.

Lemma backupPath_cases_witness :
  ~ In c_dollar iso0
  /\ Pterodactyl.backupPath svc0 iso0
     = str "@Apex_cfg/whitelist_backup_2024-05-06T07-08-09-123Z.sqf"
  /\ ((Pterodactyl.backupPath svc0 iso0 = Pterodactyl.whitelistPath svc0
       /\ forall a b, Pterodactyl.whitelistPath svc0 <> a ++ str ".sqf" ++ b)
      \/ exists a b,
           Pterodactyl.whitelistPath svc0 = a ++ str ".sqf" ++ b
           /\ Pterodactyl.backupPath svc0 iso0
              = a ++ str "_backup_" ++ Pterodactyl.timestamp iso0
                  ++ str ".sqf" ++ b
           /\ forall a' b',
                Pterodactyl.whitelistPath svc0 = a' ++ str ".sqf" ++ b' ->
                (length a <= length a')%nat).
Proof.
  assert (H1 : ~ In c_dollar iso0).
  { intros H. simpl in H.
    repeat (destruct H as [H|H]; [discriminate H|]). exact H. }
  split; [exact H1 | split; [vm_compute; reflexivity|]].
  exact (proj2 (backupPath_cases svc0 iso0 H1)).
Defined.

(** ** The manager *)

Section ManagerFacts.
Variable Panel : Type.
Variable fetchContents : jsstring -> Panel -> completion jsstring * Panel.
Variable postWrite : jsstring -> jsstring -> Panel -> completion unit * Panel.
Variable toUpperCase : jsstring -> jsstring.
Variable whitelistPath : jsstring.
Variable tempPath : jsstring.
Variable noSuchFile : jsstring.
Variable svc : Pterodactyl.Service.

(** Without the panel the manager runs the operation on the local file. *)
Lemma change_local operation w role uid :
  Pterodactyl.isEnabled svc = false ->
  Manager.change Panel fetchContents postWrite whitelistPath tempPath
    noSuchFile svc operation w role uid
  = match operation whitelistPath (Manager.localFile Panel w) role uid with
    | (r, fs) => (r, Manager.mkWorld Panel fs (Manager.tempFile Panel w) (Manager.panel Panel w))
    end.
Proof.
  intros Hoff. unfold Manager.change, Manager.getWhitelistService,
    Manager.usePterodactyl. rewrite Hoff. cbn [Manager.filePath Manager.fileOf].
  destruct (operation whitelistPath (Manager.localFile Panel w) role uid)
    as [[result|e] fs]; [|reflexivity].
  now rewrite andb_false_r.
Qed.

(** With the panel the manager downloads the file, runs the operation on
    the copy and uploads the copy after a success. *)
Lemma change_remote operation w role uid :
  Pterodactyl.isEnabled svc = true ->
  Manager.change Panel fetchContents postWrite whitelistPath tempPath
    noSuchFile svc operation w role uid
  = match fetchContents (Pterodactyl.whitelistPath svc)
            (Manager.panel Panel w) with
    | (Rejected e, p) =>
        (Rejected e, Manager.mkWorld Panel (Manager.localFile Panel w) (Manager.tempFile Panel w) p)
    | (Resolved content, p) =>
        match operation tempPath (Some content) role uid with
        | (Rejected e, fs) => (Rejected e, Manager.mkWorld Panel (Manager.localFile Panel w) fs p)
        | (Resolved result, fs) =>
            if success result then
              match fs with
              | None =>
                  (Rejected noSuchFile, Manager.mkWorld Panel (Manager.localFile Panel w) None p)
              | Some updated =>
                  match postWrite (Pterodactyl.whitelistPath svc) updated p with
                  | (Rejected e, p') =>
                      (Rejected e, Manager.mkWorld Panel (Manager.localFile Panel w) fs p')
                  | (Resolved _, p') =>
                      (Resolved (Manager.synced result),
                       Manager.mkWorld Panel (Manager.localFile Panel w) fs p')
                  end
              end
            else (Resolved result, Manager.mkWorld Panel (Manager.localFile Panel w) fs p)
        end
    end.
Proof.
  intros Hon. unfold Manager.change, Manager.getWhitelistService,
    Manager.syncToPterodactyl, Manager.usePterodactyl,
    Pterodactyl.getWhitelistFile, Pterodactyl.writeWhitelistFile.
  rewrite Hon. cbn [negb].
  destruct (fetchContents (Pterodactyl.whitelistPath svc)
              (Manager.panel Panel w)) as [[content|e] p]; [|reflexivity].
  cbn [Manager.filePath Manager.fileOf Manager.setFile Manager.setPanel
       Manager.localFile Manager.tempFile Manager.panel].
  destruct (operation tempPath (Some content) role uid)
    as [[result|e] fs]; [|reflexivity].
  rewrite andb_true_r. destruct (success result); [|reflexivity].
  destruct fs as [updated|]; [|reflexivity].
  destruct (postWrite (Pterodactyl.whitelistPath svc) updated p)
    as [[u|e] p']; reflexivity.
Qed.

End ManagerFacts.

Lemma manager_addUid_change (Panel : Type)
  (fetchContents : jsstring -> Panel -> completion jsstring * Panel)
  (postWrite : jsstring -> jsstring -> Panel -> completion unit * Panel)
  (toUpperCase : jsstring -> jsstring)
  (whitelistPath tempPath noSuchFile : jsstring) (svc : Pterodactyl.Service)
  (w : Manager.World Panel) (role uid : jsstring) :
  Manager.addUid Panel fetchContents postWrite toUpperCase whitelistPath
    tempPath noSuchFile svc w role uid
  = Manager.change Panel fetchContents postWrite whitelistPath tempPath
      noSuchFile svc (addUid toUpperCase) w role uid.
Proof. reflexivity. Qed.

Lemma manager_removeUid_change (Panel : Type)
  (fetchContents : jsstring -> Panel -> completion jsstring * Panel)
  (postWrite : jsstring -> jsstring -> Panel -> completion unit * Panel)
  (toUpperCase : jsstring -> jsstring)
  (whitelistPath tempPath noSuchFile : jsstring) (svc : Pterodactyl.Service)
  (w : Manager.World Panel) (role uid : jsstring) :
  Manager.removeUid Panel fetchContents postWrite toUpperCase whitelistPath
    tempPath noSuchFile svc w role uid
  = Manager.change Panel fetchContents postWrite whitelistPath tempPath
      noSuchFile svc (removeUid toUpperCase) w role uid.
Proof. reflexivity. Qed.

Lemma change_failure (Panel : Type)
  (fetchContents : jsstring -> Panel -> completion jsstring * Panel)
  (postWrite : jsstring -> jsstring -> Panel -> completion unit * Panel)
  (whitelistPath tempPath noSuchFile : jsstring) (svc : Pterodactyl.Service)
  (operation : jsstring -> FileState -> jsstring -> jsstring
               -> completion Result * FileState)
  (w : Manager.World Panel) (role uid : jsstring) :
  (forall path fs,
      match operation path fs role uid with
      | (Resolved r, fs') => success r = true \/ fs' = fs
      | (Rejected _, fs') => fs' = fs
      end) ->
  match Manager.change Panel fetchContents postWrite whitelistPath tempPath
          noSuchFile svc operation w role uid with
  | (Resolved r, w') =>
      success r = true
      \/ w' = snd (Manager.getWhitelistService Panel fetchContents svc w)
  | (Rejected _, w') => Manager.localFile Panel w' = Manager.localFile Panel w
  end.
Proof.
  intros Hop.
  destruct (Pterodactyl.isEnabled svc) eqn:Hon.
  - rewrite change_remote by assumption.
    unfold Manager.getWhitelistService, Manager.usePterodactyl,
      Pterodactyl.getWhitelistFile. rewrite Hon. cbn [negb].
    destruct (fetchContents (Pterodactyl.whitelistPath svc)
                (Manager.panel Panel w)) as [[content|e] p]; [|reflexivity].
    specialize (Hop tempPath (Some content)).
    destruct (operation tempPath (Some content) role uid)
      as [[result|e] fs]; [|reflexivity].
    destruct (success result) eqn:Hs.
    + destruct fs as [updated|]; [|reflexivity].
      destruct (postWrite (Pterodactyl.whitelistPath svc) updated p)
        as [[u|e] p']; [left; exact Hs | reflexivity].
    + right. destruct Hop as [Hop|Hop]; [discriminate Hop | now subst fs].
  - rewrite change_local by assumption.
    unfold Manager.getWhitelistService, Manager.usePterodactyl.
    rewrite Hon. cbn [snd].
    specialize (Hop whitelistPath (Manager.localFile Panel w)).
    destruct (operation whitelistPath (Manager.localFile Panel w) role uid)
      as [[result|e] fs].
    + destruct Hop as [Hop|Hop]; [left; exact Hop | right].
      subst fs. now destruct w.
    + now subst fs.
Qed.

(** X13. A failure reported by the manager has changed nothing but the
    temporary copy: when [addUid] or [removeUid] of the manager resolves
    without success, the local file and the panel are as obtaining the
    service left them, so nothing was uploaded; when it rejects, the local
    file is as it was. *)
Theorem manager_failure_no_upload (Panel : Type)
  (fetchContents : jsstring -> Panel -> completion jsstring * Panel)
  (postWrite : jsstring -> jsstring -> Panel -> completion unit * Panel)
  (toUpperCase : jsstring -> jsstring)
  (whitelistPath tempPath noSuchFile : jsstring) (svc : Pterodactyl.Service)
  (w : Manager.World Panel) (role uid : jsstring) :
  (match Manager.addUid Panel fetchContents postWrite toUpperCase
           whitelistPath tempPath noSuchFile svc w role uid with
   | (Resolved r, w') =>
       success r = true
       \/ w' = snd (Manager.getWhitelistService Panel fetchContents svc w)
   | (Rejected _, w') => Manager.localFile Panel w' = Manager.localFile Panel w
   end)
  /\ (match Manager.removeUid Panel fetchContents postWrite toUpperCase
             whitelistPath tempPath noSuchFile svc w role uid with
      | (Resolved r, w') =>
          success r = true
          \/ w' = snd (Manager.getWhitelistService Panel fetchContents svc w)
      | (Rejected _, w') =>
          Manager.localFile Panel w' = Manager.localFile Panel w
      end).
Proof.
  rewrite manager_addUid_change, manager_removeUid_change. split.
  - apply change_failure. intros path fs. apply addUid_failure.
  - apply change_failure. intros path fs. apply removeUid_failure.
Qed.

Lemma manager_add_run (Panel : Type)
  (fetchContents : jsstring -> Panel -> completion jsstring * Panel)
  (postWrite : jsstring -> jsstring -> Panel -> completion unit * Panel)
  (toUpperCase : jsstring -> jsstring)
  (whitelistPath tempPath noSuchFile : jsstring) (svc : Pterodactyl.Service)
  (w : Manager.World Panel) (role uid content : jsstring) (p1 : Panel) :
  Pterodactyl.isEnabled svc = true ->
  fetchContents (Pterodactyl.whitelistPath svc) (Manager.panel Panel w)
  = (Resolved content, p1) ->
  In (toUpperCase role) roleNames -> test steam64 uid = true ->
  ~ In uid (parseRole content (toUpperCase role)) ->
  Manager.addUid Panel fetchContents postWrite toUpperCase whitelistPath
    tempPath noSuchFile svc w role uid
  = match postWrite (Pterodactyl.whitelistPath svc)
            (updateWhitelistInContent content (toUpperCase role)
               (parseRole content (toUpperCase role) ++ [uid])) p1 with
    | (Rejected e, p2) =>
        (Rejected e,
         Manager.mkWorld Panel (Manager.localFile Panel w)
           (Some (updateWhitelistInContent content (toUpperCase role)
                    (parseRole content (toUpperCase role) ++ [uid]))) p2)
    | (Resolved _, p2) =>
        (Resolved (Manager.synced (Added uid (toUpperCase role))),
         Manager.mkWorld Panel (Manager.localFile Panel w)
           (Some (updateWhitelistInContent content (toUpperCase role)
                    (parseRole content (toUpperCase role) ++ [uid]))) p2)
    end.
Proof.
  intros Hon Hfetch HR Hu Hn. rewrite manager_addUid_change.
  rewrite change_remote by assumption. rewrite Hfetch, addUid_eq.
  rewrite (proj2 (includes_In roleNames (toUpperCase role)) HR), Hu.
  cbn [negb]. cbv zeta.
  rewrite (proj2 (includes_not_In _ uid) Hn). reflexivity.
Qed.

(** X14. What the manager uploads: with the panel enabled, when the
    downloaded text holds an intact block for a configured role and does not
    list a well-formed identifier for it, adding the identifier sends to the
    panel, at the whitelist path, the text that [updateWhitelistInContent]
    makes of the downloaded text, in which the list of the role is the list
    read from the downloaded text followed by the identifier; the answer is
    the success of the service with the note about the synchronisation, or
    the rejection of the upload, and the local file is not touched. *)
Theorem manager_add_uploads (Panel : Type)
  (fetchContents : jsstring -> Panel -> completion jsstring * Panel)
  (postWrite : jsstring -> jsstring -> Panel -> completion unit * Panel)
  (toUpperCase : jsstring -> jsstring)
  (whitelistPath tempPath noSuchFile : jsstring) (svc : Pterodactyl.Service)
  (w : Manager.World Panel) (role uid content : jsstring) (p1 : Panel) :
  Pterodactyl.isEnabled svc = true ->
  fetchContents (Pterodactyl.whitelistPath svc) (Manager.panel Panel w)
  = (Resolved content, p1) ->
  In (toUpperCase role) roleNames -> test steam64 uid = true ->
  editable content (toUpperCase role) = true ->
  ~ In uid (parseRole content (toUpperCase role)) ->
  let updated :=
    updateWhitelistInContent content (toUpperCase role)
      (parseRole content (toUpperCase role) ++ [uid]) in
  let out :=
    Manager.addUid Panel fetchContents postWrite toUpperCase whitelistPath
      tempPath noSuchFile svc w role uid in
  parseRole updated (toUpperCase role)
  = parseRole content (toUpperCase role) ++ [uid]
  /\ Manager.panel Panel (snd out)
     = snd (postWrite (Pterodactyl.whitelistPath svc) updated p1)
  /\ Manager.localFile Panel (snd out) = Manager.localFile Panel w
  /\ Manager.tempFile Panel (snd out) = Some updated
  /\ fst out
     = match fst (postWrite (Pterodactyl.whitelistPath svc) updated p1) with
       | Rejected e => Rejected e
       | Resolved _ =>
           Resolved
             (mkResult true
                (str "Successfully added " ++ uid ++ str " to the "
                 ++ toUpperCase role
                 ++ str " whitelist. (synced to Pterodactyl server)"))
       end.
Proof.
  intros Hon Hfetch HR Hu He Hn updated out.
  split.
  { apply round_trip_editable; [exact HR | exact He |].
    apply Forall_app. split; [apply parseRole_digits|].
    constructor; [now apply steam64_digitString | constructor]. }
  unfold out.
  rewrite (manager_add_run Panel fetchContents postWrite toUpperCase
             whitelistPath tempPath noSuchFile svc w role uid content p1
             Hon Hfetch HR Hu Hn).
  fold updated.
  destruct (postWrite (Pterodactyl.whitelistPath svc) updated p1)
    as [[u|e] p2]; cbn [fst snd Manager.panel Manager.localFile
                        Manager.tempFile];
    (split; [reflexivity | split; [reflexivity | split; [reflexivity|]]]);
    [|reflexivity].
  unfold Manager.synced, Added. cbn [success message]. f_equal. f_equal.
  now rewrite <- !app_assoc.
Qed.

Lemma manager_add_uploads_witness :
  Pterodactyl.isEnabled svc0 = true
  /\ fetch0 (Pterodactyl.whitelistPath svc0) (Manager.panel Files world0)
     = (Resolved s3OnlyDoc, Manager.panel Files world0)
  /\ In (Str.asciiUpper (str "s3")) roleNames
  /\ test steam64 uid99 = true
  /\ editable s3OnlyDoc (Str.asciiUpper (str "s3")) = true
  /\ ~ In uid99 (parseRole s3OnlyDoc (Str.asciiUpper (str "s3")))
  /\ parseRole
       (updateWhitelistInContent s3OnlyDoc (Str.asciiUpper (str "s3"))
          (parseRole s3OnlyDoc (Str.asciiUpper (str "s3")) ++ [uid99]))
       (Str.asciiUpper (str "s3"))
     = parseRole s3OnlyDoc (Str.asciiUpper (str "s3")) ++ [uid99].
Proof.
  assert (H1 : Pterodactyl.isEnabled svc0 = true) by (vm_compute; reflexivity).
  assert (H2 : fetch0 (Pterodactyl.whitelistPath svc0)
                 (Manager.panel Files world0)
               = (Resolved s3OnlyDoc, Manager.panel Files world0))
    by (vm_compute; reflexivity).
  assert (H3 : In (Str.asciiUpper (str "s3")) roleNames) by (left; reflexivity).
  assert (H4 : test steam64 uid99 = true) by (vm_compute; reflexivity).
  assert (H5 : editable s3OnlyDoc (Str.asciiUpper (str "s3")) = true)
    by (vm_compute; reflexivity).
  assert (H6 : ~ In uid99 (parseRole s3OnlyDoc (Str.asciiUpper (str "s3")))).
  { apply includes_not_In. vm_compute. reflexivity. }
  split; [exact H1 | split; [exact H2 | split; [exact H3 |
    split; [exact H4 | split; [exact H5 | split; [exact H6|]]]]]].
  exact (proj1
           (manager_add_uploads Files fetch0 post0 Str.asciiUpper path0
              tempPath0 noSuchFile0 svc0 world0 (str "s3") uid99 s3OnlyDoc
              (Manager.panel Files world0) H1 H2 H3 H4 H5 H6)).
Defined.

Lemma manager_getUids_remote (Panel : Type)
  (fetchContents : jsstring -> Panel -> completion jsstring * Panel)
  (toUpperCase : jsstring -> jsstring)
  (whitelistPath tempPath : jsstring) (svc : Pterodactyl.Service)
  (w : Manager.World Panel) (role : jsstring) :
  Pterodactyl.isEnabled svc = true ->
  Manager.getUids Panel fetchContents toUpperCase whitelistPath tempPath svc
    w role
  = match fetchContents (Pterodactyl.whitelistPath svc)
            (Manager.panel Panel w) with
    | (Rejected e, p) =>
        (Rejected e,
         Manager.mkWorld Panel (Manager.localFile Panel w)
           (Manager.tempFile Panel w) p)
    | (Resolved content, p) =>
        (getUids toUpperCase tempPath (Some content) role,
         Manager.mkWorld Panel (Manager.localFile Panel w) (Some content) p)
    end.
Proof.
  intros Hon. unfold Manager.getUids, Manager.getWhitelistService,
    Manager.usePterodactyl, Pterodactyl.getWhitelistFile.
  rewrite Hon. cbn [negb].
  destruct (fetchContents (Pterodactyl.whitelistPath svc)
              (Manager.panel Panel w)) as [[content|e] p]; reflexivity.
Qed.

(** X15. An identifier added through the panel is listed by the next call:
    when the panel is enabled, the downloaded text has an intact block for
    the role, the upload is accepted and the panel then serves the text it
    was sent, [getUids] of the manager answers the former list of the role
    followed by the new identifier. *)
Theorem manager_add_then_list (Panel : Type)
  (fetchContents : jsstring -> Panel -> completion jsstring * Panel)
  (postWrite : jsstring -> jsstring -> Panel -> completion unit * Panel)
  (toUpperCase : jsstring -> jsstring)
  (whitelistPath tempPath noSuchFile : jsstring) (svc : Pterodactyl.Service)
  (w : Manager.World Panel) (role uid content : jsstring)
  (p1 p2 p3 : Panel) :
  Pterodactyl.isEnabled svc = true ->
  fetchContents (Pterodactyl.whitelistPath svc) (Manager.panel Panel w)
  = (Resolved content, p1) ->
  In (toUpperCase role) roleNames -> test steam64 uid = true ->
  editable content (toUpperCase role) = true ->
  ~ In uid (parseRole content (toUpperCase role)) ->
  postWrite (Pterodactyl.whitelistPath svc)
    (updateWhitelistInContent content (toUpperCase role)
       (parseRole content (toUpperCase role) ++ [uid])) p1
  = (Resolved tt, p2) ->
  fetchContents (Pterodactyl.whitelistPath svc) p2
  = (Resolved (updateWhitelistInContent content (toUpperCase role)
                 (parseRole content (toUpperCase role) ++ [uid])), p3) ->
  fst (Manager.getUids Panel fetchContents toUpperCase whitelistPath tempPath
         svc
         (snd (Manager.addUid Panel fetchContents postWrite toUpperCase
                 whitelistPath tempPath noSuchFile svc w role uid))
         role)
  = Resolved (parseRole content (toUpperCase role) ++ [uid]).
Proof.
  intros Hon Hfetch HR Hu He Hn Hpost Hfetch2.
  rewrite (manager_add_run Panel fetchContents postWrite toUpperCase
             whitelistPath tempPath noSuchFile svc w role uid content p1
             Hon Hfetch HR Hu Hn).
  rewrite Hpost. cbn [snd].
  rewrite manager_getUids_remote by assumption.
  cbn [Manager.panel]. rewrite Hfetch2. cbn [fst].
  rewrite getUids_eq.
  rewrite (proj2 (includes_In roleNames (toUpperCase role)) HR).
  f_equal. apply round_trip_editable; [exact HR | exact He |].
  apply Forall_app. split; [apply parseRole_digits|].
  constructor; [now apply steam64_digitString | constructor].
Qed.

Lemma manager_add_then_list_witness :
  Pterodactyl.isEnabled svc0 = true
  /\ In (Str.asciiUpper (str "s3")) roleNames
  /\ test steam64 uid99 = true
  /\ editable s3OnlyDoc (Str.asciiUpper (str "s3")) = true
  /\ ~ In uid99 (parseRole s3OnlyDoc (Str.asciiUpper (str "s3")))
  /\ fst (Manager.getUids Files fetch0 Str.asciiUpper path0 tempPath0 svc0
            (snd (Manager.addUid Files fetch0 post0 Str.asciiUpper path0
                    tempPath0 noSuchFile0 svc0 world0 (str "s3") uid99))
            (str "s3"))
     = Resolved (parseRole s3OnlyDoc (Str.asciiUpper (str "s3")) ++ [uid99]).
Proof.
  assert (H1 : Pterodactyl.isEnabled svc0 = true) by (vm_compute; reflexivity).
  assert (H2 : fetch0 (Pterodactyl.whitelistPath svc0)
                 (Manager.panel Files world0)
               = (Resolved s3OnlyDoc, Manager.panel Files world0))
    by (vm_compute; reflexivity).
  assert (H3 : In (Str.asciiUpper (str "s3")) roleNames) by (left; reflexivity).
  assert (H4 : test steam64 uid99 = true) by (vm_compute; reflexivity).
  assert (H5 : editable s3OnlyDoc (Str.asciiUpper (str "s3")) = true)
    by (vm_compute; reflexivity).
  assert (H6 : ~ In uid99 (parseRole s3OnlyDoc (Str.asciiUpper (str "s3")))).
  { apply includes_not_In. vm_compute. reflexivity. }
  split; [exact H1 | split; [exact H3 | split; [exact H4 |
    split; [exact H5 | split; [exact H6|]]]]].
  refine (manager_add_then_list Files fetch0 post0 Str.asciiUpper path0
            tempPath0 noSuchFile0 svc0 world0 (str "s3") uid99 s3OnlyDoc
            (Manager.panel Files world0)
            ((Pterodactyl.whitelistPath svc0,
              updateWhitelistInContent s3OnlyDoc (Str.asciiUpper (str "s3"))
                (parseRole s3OnlyDoc (Str.asciiUpper (str "s3")) ++ [uid99]))
               :: Manager.panel Files world0)
            ((Pterodactyl.whitelistPath svc0,
              updateWhitelistInContent s3OnlyDoc (Str.asciiUpper (str "s3"))
                (parseRole s3OnlyDoc (Str.asciiUpper (str "s3")) ++ [uid99]))
               :: Manager.panel Files world0)
            H1 H2 H3 H4 H5 H6 _ _).
  - reflexivity.
  - vm_compute. reflexivity.
Defined.

(** X16. With the panel enabled the manager works on what the panel
    serves and on nothing else: two worlds with the same panel give the
    same answer and the same panel afterwards for [addUid], [removeUid] and
    [getUids], whatever their local and temporary files hold, and the local
    file is never written. *)
Theorem manager_ignores_stale_files (Panel : Type)
  (fetchContents : jsstring -> Panel -> completion jsstring * Panel)
  (postWrite : jsstring -> jsstring -> Panel -> completion unit * Panel)
  (toUpperCase : jsstring -> jsstring)
  (whitelistPath tempPath noSuchFile : jsstring) (svc : Pterodactyl.Service)
  (w1 w2 : Manager.World Panel) (role uid : jsstring) :
  Pterodactyl.isEnabled svc = true ->
  Manager.panel Panel w1 = Manager.panel Panel w2 ->
  let add := Manager.addUid Panel fetchContents postWrite toUpperCase
               whitelistPath tempPath noSuchFile svc in
  let remove := Manager.removeUid Panel fetchContents postWrite toUpperCase
                  whitelistPath tempPath noSuchFile svc in
  let list := Manager.getUids Panel fetchContents toUpperCase whitelistPath
                tempPath svc in
  (fst (add w1 role uid) = fst (add w2 role uid)
   /\ Manager.panel Panel (snd (add w1 role uid))
      = Manager.panel Panel (snd (add w2 role uid))
   /\ Manager.localFile Panel (snd (add w1 role uid))
      = Manager.localFile Panel w1)
  /\ (fst (remove w1 role uid) = fst (remove w2 role uid)
      /\ Manager.panel Panel (snd (remove w1 role uid))
         = Manager.panel Panel (snd (remove w2 role uid))
      /\ Manager.localFile Panel (snd (remove w1 role uid))
         = Manager.localFile Panel w1)
  /\ (fst (list w1 role) = fst (list w2 role)
      /\ Manager.panel Panel (snd (list w1 role))
         = Manager.panel Panel (snd (list w2 role))
      /\ Manager.localFile Panel (snd (list w1 role))
         = Manager.localFile Panel w1).
Proof.
  intros Hon Hp add remove list.
  assert (Hchange : forall operation,
    let run := Manager.change Panel fetchContents postWrite whitelistPath
                 tempPath noSuchFile svc operation in
    fst (run w1 role uid) = fst (run w2 role uid)
    /\ Manager.panel Panel (snd (run w1 role uid))
       = Manager.panel Panel (snd (run w2 role uid))
    /\ Manager.localFile Panel (snd (run w1 role uid))
       = Manager.localFile Panel w1).
  { intros operation run. unfold run.
    rewrite !change_remote by assumption. rewrite Hp.
    destruct (fetchContents (Pterodactyl.whitelistPath svc)
                (Manager.panel Panel w2)) as [[content|e] p];
      [|repeat split].
    destruct (operation tempPath (Some content) role uid)
      as [[result|e] fs]; [|repeat split].
    destruct (success result); [|repeat split].
    destruct fs as [updated|]; [|repeat split].
    destruct (postWrite (Pterodactyl.whitelistPath svc) updated p)
      as [[u|e] p']; repeat split. }
  split; [unfold add; rewrite !manager_addUid_change; apply Hchange|].
  split; [unfold remove; rewrite !manager_removeUid_change; apply Hchange|].
  unfold list. rewrite !manager_getUids_remote by assumption. rewrite Hp.
  destruct (fetchContents (Pterodactyl.whitelistPath svc)
              (Manager.panel Panel w2)) as [[content|e] p]; repeat split.
Qed.

Lemma manager_ignores_stale_files_witness :
  Pterodactyl.isEnabled svc0 = true
  /\ Manager.panel Files world0
     = Manager.panel Files
         (Manager.mkWorld Files (Some braceDoc) None
            (Manager.panel Files world0))
  /\ fst (Manager.addUid Files fetch0 post0 Str.asciiUpper path0 tempPath0
            noSuchFile0 svc0 world0 (str "s3") uid99)
     = fst (Manager.addUid Files fetch0 post0 Str.asciiUpper path0 tempPath0
              noSuchFile0 svc0
              (Manager.mkWorld Files (Some braceDoc) None
                 (Manager.panel Files world0))
              (str "s3") uid99).
Proof.
  assert (H1 : Pterodactyl.isEnabled svc0 = true) by (vm_compute; reflexivity).
  assert (H2 : Manager.panel Files world0
               = Manager.panel Files
                   (Manager.mkWorld Files (Some braceDoc) None
                      (Manager.panel Files world0))) by reflexivity.
  split; [exact H1 | split; [exact H2|]].
  exact (proj1 (proj1
           (manager_ignores_stale_files Files fetch0 post0 Str.asciiUpper path0
              tempPath0 noSuchFile0 svc0 world0
              (Manager.mkWorld Files (Some braceDoc) None
                 (Manager.panel Files world0))
              (str "s3") uid99 H1 H2))).
Defined.

(** ** The replies of the command *)

Lemma join_length_le (b : nat) (sep : char) (l : list jsstring) :
  l <> [] -> Forall (fun x => (length x <= b)%nat) l ->
  (length (Str.join [sep] l) + 1 <= length l * (b + 1))%nat.
Proof.
  induction l as [|a l IH]; intros Hne Hall; [contradiction|].
  inversion Hall as [|? ? Ha Hl]; subst.
  destruct l as [|a' l].
  - simpl. lia.
  - change (Str.join [sep] (a :: a' :: l))
      with (a ++ [sep] ++ Str.join [sep] (a' :: l)).
    rewrite !length_app. simpl length at 2.
    assert (IH' := IH ltac:(discriminate) Hl).
    change (length (a :: a' :: l)) with (S (length (a' :: l))).
    lia.
Qed.

Lemma decimal_length fuel :
  forall n k, (1 <= k)%nat -> n < 10 ^ N.of_nat k ->
    (length (Commands.decimal fuel n) <= k)%nat.
Proof.
  induction fuel as [|fuel IH]; intros n k Hk Hn; simpl; [lia|].
  destruct (N.ltb_spec n 10) as [Hlt|Hge]; [simpl; lia|].
  rewrite length_app. simpl.
  destruct k as [|[|k]]; [lia | simpl in Hn; lia |].
  assert (Hdiv : n / 10 < 10 ^ N.of_nat (S k)).
  { apply N.Div0.div_lt_upper_bound.
    rewrite <- N.pow_succ_r', <- Nat2N.inj_succ. exact Hn. }
  specialize (IH (n / 10) (S k) ltac:(lia) Hdiv). lia.
Qed.

(** The digits written by [decimal] denote the number when the fuel
    suffices, and the fuel of [numberToString] does. *)
Lemma decimal_value fuel :
  forall n, n < 10 ^ N.of_nat fuel ->
    fold_left (fun a d => 10 * a + (d - 48)) (Commands.decimal fuel n) 0 = n.
Proof.
  induction fuel as [|fuel IH]; intros n Hn; [simpl in *; lia|].
  cbn [Commands.decimal].
  destruct (N.ltb_spec n 10) as [Hlt|Hge]; [cbn [fold_left]; lia|].
  rewrite fold_left_app. cbn [fold_left].
  destruct fuel as [|fuel]; [simpl in Hn; lia|].
  rewrite IH.
  - assert (H := N.div_mod n 10 ltac:(lia)).
    generalize dependent (n / 10). generalize dependent (n mod 10).
    intros. lia.
  - apply N.Div0.div_lt_upper_bound.
    rewrite <- N.pow_succ_r', <- Nat2N.inj_succ. exact Hn.
Qed.

Lemma size_nat_enough p : N.pos p < 10 ^ N.of_nat (Pos.size_nat p).
Proof.
  induction p as [p IH|p IH|]; [| |reflexivity];
    cbn [Pos.size_nat]; rewrite Nat2N.inj_succ, N.pow_succ_r';
    generalize dependent (10 ^ N.of_nat (Pos.size_nat p)); intros; lia.
Qed.

(** X17. The list shown by [/whitelist list] fits an embed field: for
    identifiers of at most 17 code units, as Steam64 identifiers are, and
    fewer than 10^11 of them, [uidDisplay] has at most 1024 code units,
    the limit named in the code. *)
Theorem uidDisplay_fits (uids : list jsstring) :
  Forall (fun uid => (length uid <= 17)%nat) uids ->
  (Z.of_nat (length uids) < 10 ^ 11)%Z ->
  (length (Commands.uidDisplay uids) <= 1024)%nat.
Proof.
  intros Hall Hcount. unfold Commands.uidDisplay.
  destruct uids as [|u0 us]; [vm_compute; lia|].
  change (Nat.eqb (length (u0 :: us)) 0) with false. cbv iota zeta.
  set (formatted := map (fun uid => [c_backtick] ++ uid ++ [c_backtick])
                        (u0 :: us)).
  assert (Hf : Forall (fun x => (length x <= 19)%nat) formatted).
  { apply Forall_map. eapply Forall_impl; [|exact Hall].
    intros u Hu. cbv beta in Hu. cbn [app length].
    rewrite length_app. cbn [length]. lia. }
  assert (Hfl : length formatted = length (u0 :: us))
    by apply length_map.
  assert (Hjoin := join_length_le 19 c_newline formatted
                     ltac:(discriminate) Hf).
  destruct (Nat.ltb_spec 1000 (length (Str.join [c_newline] formatted)))
    as [Hlong|Hshort]; [|unfold jsstring in *; lia].
  change Commands.maxUids with 50%nat.
  assert (Hmany : (50 < length (u0 :: us))%nat)
    by (unfold jsstring in *; lia).
  assert (Hfirst : (length (Str.join [c_newline] (firstn 50 formatted)) + 1
                    <= 50 * 20)%nat).
  { assert (Hl : length (firstn 50 formatted) = 50%nat)
      by (rewrite length_firstn; unfold jsstring in *; lia).
    assert (H : (length (Str.join [c_newline] (firstn 50 formatted)) + 1
                 <= length (firstn 50 formatted) * (19 + 1))%nat).
    { apply join_length_le.
      - intros Hnil. rewrite Hnil in Hl. discriminate Hl.
      - assert (Hf' := Hf). rewrite <- (firstn_skipn 50 formatted) in Hf'.
        apply Forall_app in Hf'. exact (proj1 Hf'). }
    unfold jsstring in *. lia. }
  assert (Hnum : (length (Commands.numberToString
                            (Z.of_nat (length (u0 :: us)) - Z.of_nat 50))
                  <= 11)%nat).
  { destruct (Z.of_nat (length (u0 :: us)) - Z.of_nat 50)%Z as [|q|q] eqn:Hz;
      [lia | | lia].
    unfold Commands.numberToString. apply decimal_length; [lia|].
    change (10 ^ N.of_nat 11) with 100000000000.
    assert (Hq : (Z.pos q < 10 ^ 11)%Z) by lia.
    change (10 ^ 11)%Z with 100000000000%Z in Hq. lia. }
  rewrite !length_app.
  change (length [c_newline]) with 1%nat.
  change (length (str "... and ")) with 8%nat.
  change (length (str " more")) with 5%nat.
  unfold jsstring in *. lia.
Qed.

Lemma uidDisplay_fits_witness :
  Forall (fun uid => (length uid <= 17)%nat) [uid01; uid02; uid99]
  /\ (Z.of_nat (length [uid01; uid02; uid99]) < 10 ^ 11)%Z
  /\ (length (Commands.uidDisplay [uid01; uid02; uid99]) <= 1024)%nat.
Proof.
  assert (H1 : Forall (fun uid => (length uid <= 17)%nat) [uid01; uid02; uid99])
    by (repeat constructor).
  assert (H2 : (Z.of_nat (length [uid01; uid02; uid99]) < 10 ^ 11)%Z)
    by reflexivity.
  split; [exact H1 | split; [exact H2|]].
  exact (uidDisplay_fits [uid01; uid02; uid99] H1 H2).
Defined.

Lemma join_starts sep (x : char) (a : jsstring) (l : list jsstring) :
  Str.isEmpty (Str.join sep ((x :: a) :: l)) = false.
Proof. destruct l; reflexivity. Qed.

(** X18. The replies never fall back for a configured role: the statistics
    of [/whitelist status] are the eleven lines made from the parsed file,
    whatever the file holds, and not the text for missing data; and the
    description shown by [/whitelist list] for a configured role is the one
    of the configuration. *)
Theorem replies_without_fallback (content : jsstring) :
  Commands.statisticsField (parseContent content)
  = Commands.whitelistStats (parseContent content)
  /\ length (map (fun entry : jsstring * list jsstring => fst entry)
               (parseContent content)) = 11%nat
  /\ Forall (fun r => Commands.roleDescription (name r) = description r)
       whitelistRoles.
Proof.
  split; [|split].
  - unfold Commands.statisticsField, Commands.whitelistStats.
    rewrite parseContent_map.
    change roleNames with (str "S3" :: map name (tl whitelistRoles)).
    cbn [map fst]. change (str "**") with [42; 42].
    cbn [app]. now rewrite join_starts.
  - rewrite parseContent_map, !length_map. reflexivity.
  - unfold whitelistRoles. repeat (constructor; [reflexivity|]). constructor.
Qed.

(** ** The Steam sign-in *)

Lemma preg_search_bol_fail r n0 s :
  (length s < n0)%nat -> SteamAuth.preg_search (Seq Bol r) n0 s = None.
Proof.
  induction s as [|x s IH]; intros Hlen.
  - simpl in *. destruct n0; [lia | reflexivity].
  - cbn [SteamAuth.preg_search]. rewrite m_bol.
    destruct (Nat.eqb_spec (length (x :: s)) n0) as [He|_];
      simpl in *; [lia|].
    apply IH; lia.
Qed.

Lemma dollar_elim t c y :
  SteamAuth.dollar t c = Some y -> y = c /\ (t = [] \/ t = [c_newline]).
Proof.
  unfold SteamAuth.dollar. destruct t as [|x [|x' t]]; [| |discriminate].
  - intros [= <-]. auto.
  - destruct (N.eqb_spec x c_newline) as [->|_]; [|discriminate].
    intros [= <-]. auto.
Qed.

(** A subject accepted by the pattern of [validate] is the address of
    Steam's identifiers followed by 17 digits and at most one line feed;
    the first capture holds the digits. *)
Lemma preg_match_claimedId subject matches :
  SteamAuth.preg_match SteamAuth.claimedIdPattern subject = Some matches ->
  exists id,
    getCap 1 matches = Some id
    /\ length id = 17%nat /\ accepts CDigit id
    /\ (subject = str "https://steamcommunity.com/openid/id/" ++ id
        \/ subject = str "https://steamcommunity.com/openid/id/" ++ id
                       ++ [c_newline]).
Proof.
  unfold SteamAuth.preg_match, SteamAuth.claimedIdPattern. cbn [seqs].
  intros H.
  assert (Hm : m (Seq Bol
                    (Seq (lit (str "https://steamcommunity.com/openid/id/"))
                       (Group 1 (Rep SteamAuth.STEAM_ID_LENGTH CDigit))))
                 (length subject) subject [] SteamAuth.dollar
               = Some matches).
  { destruct subject as [|x s]; cbn [SteamAuth.preg_search] in H.
    - destruct (m _ _ [] [] SteamAuth.dollar); [exact H | discriminate H].
    - destruct (m _ _ (x :: s) [] SteamAuth.dollar) as [c|] eqn:Hc;
        [exact H|].
      rewrite preg_search_bol_fail in H by (simpl; lia). discriminate H. }
  clear H. rewrite m_bol, Nat.eqb_refl in Hm.
  change (m (Seq (lit (str "https://steamcommunity.com/openid/id/"))
                (Group 1 (Rep SteamAuth.STEAM_ID_LENGTH CDigit)))
            (length subject) subject [] SteamAuth.dollar)
    with (m (lit (str "https://steamcommunity.com/openid/id/"))
            (length subject) subject []
            (fun s' c' =>
               m (Group 1 (Rep SteamAuth.STEAM_ID_LENGTH CDigit))
                 (length subject) s' c' SteamAuth.dollar)) in Hm.
  destruct (m_lit_elim _ _ _ _ _ _ Hm) as (t & Hs & Hk).
  change (m (Group 1 (Rep SteamAuth.STEAM_ID_LENGTH CDigit)) (length subject)
            t [] SteamAuth.dollar)
    with (rep 17 CDigit
            (fun s' c' => SteamAuth.dollar s' (setCap 1 (cut t s') c')) t [])
    in Hk.
  destruct (rep_sound _ _ _ _ _ _ Hk) as (id & t' & Ht & Hl & Hd & Hdollar).
  apply dollar_elim in Hdollar as [Hc Hend].
  exists id. subst t. rewrite cut_app in Hc. subst matches.
  split; [reflexivity | split; [exact Hl | split; [exact Hd|]]].
  destruct Hend as [-> | ->]; [left | right]; rewrite Hs.
  - now rewrite app_nil_r.
  - reflexivity.
Qed.

Lemma get_set_same key value params :
  SteamAuth.get key (SteamAuth.set key value params) = Some value.
Proof.
  induction params as [|[k v] params IH]; simpl.
  - now rewrite eqs_refl.
  - destruct (eqs k key) eqn:He; simpl; rewrite He; [reflexivity | exact IH].
Qed.

(** X19. [validate] gives an identifier only for a confirmed answer whose
    claimed identity is Steam's: when it returns an identifier, the mode of
    the callback is [id_res], the four required parameters are set, Steam
    has confirmed the request, which asks for [check_authentication], the
    claimed identity is the address of Steam's identifiers followed by the
    identifier and at most one line feed, and the identifier is made of 17
    digits, so that the format check of the bot accepts it. *)
Theorem validate_sound (verifyWithSteam : SteamAuth.Params -> bool)
  (params : SteamAuth.Params) (steamId : jsstring) :
  SteamAuth.validate verifyWithSteam params = Some steamId ->
  SteamAuth.get (str "openid_mode") params = Some (str "id_res")
  /\ forallb (fun param => SteamAuth.isset param params)
       SteamAuth.requiredParams = true
  /\ verifyWithSteam (SteamAuth.verifyParams params) = true
  /\ SteamAuth.get (str "openid.mode") (SteamAuth.verifyParams params)
     = Some (str "check_authentication")
  /\ (SteamAuth.get (str "openid_claimed_id") params
      = Some (str "https://steamcommunity.com/openid/id/" ++ steamId)
      \/ SteamAuth.get (str "openid_claimed_id") params
         = Some (str "https://steamcommunity.com/openid/id/" ++ steamId
                   ++ [c_newline]))
  /\ length steamId = 17%nat
  /\ forallb isDigit steamId = true
  /\ test steam64 steamId = true.
Proof.
  unfold SteamAuth.validate. intros H.
  destruct (SteamAuth.get (str "openid_mode") params) as [mode|] eqn:Hmode;
    [|discriminate].
  destruct (eqs mode (str "id_res")) eqn:Hres; [|discriminate].
  apply eqs_true in Hres. subst mode. cbn [negb] in H.
  destruct (forallb (fun param => SteamAuth.isset param params)
              SteamAuth.requiredParams) eqn:Hreq; [|discriminate].
  cbn [negb] in H.
  destruct (verifyWithSteam (SteamAuth.verifyParams params)) eqn:Hv;
    [|discriminate].
  cbn [negb] in H.
  destruct (SteamAuth.get (str "openid_claimed_id") params)
    as [claimedId|] eqn:Hclaimed; [|discriminate].
  destruct (SteamAuth.preg_match SteamAuth.claimedIdPattern claimedId)
    as [matches|] eqn:Hp; [|discriminate].
  destruct (preg_match_claimedId _ _ Hp) as (id & Hcap & Hl & Hd & Hs).
  rewrite Hcap in H. injection H as <-.
  assert (Hdigits : forallb isDigit id = true).
  { apply forallb_forall. intros x Hx.
    unfold accepts in Hd. rewrite Forall_forall in Hd. exact (Hd x Hx). }
  split; [reflexivity | split; [reflexivity | split; [reflexivity|]]].
  split; [apply get_set_same | split].
  - destruct Hs as [-> | ->]; [left | right]; reflexivity.
  - split; [exact Hl | split; [exact Hdigits|]].
    rewrite test_steam64, Hl, Hdigits. reflexivity.
Qed.

Lemma validate_sound_witness :
  SteamAuth.validate (fun _ => true) callback0 = Some uid99
  /\ SteamAuth.get (str "openid_mode") callback0 = Some (str "id_res")
  /\ test steam64 uid99 = true.
Proof.
  assert (H1 : SteamAuth.validate (fun _ => true) callback0 = Some uid99)
    by (vm_compute; reflexivity).
  split; [exact H1|].
  destruct (validate_sound (fun _ => true) callback0 uid99 H1)
    as (Hmode & _ & _ & _ & _ & _ & _ & Htest).
  split; [exact Hmode | exact Htest].
Defined.

Lemma rtrim_slashes (b : jsstring) (n : nat) :
  Index.rtrim (b ++ repeat c_slash n) [c_slash] = Index.rtrim b [c_slash].
Proof.
  unfold Index.rtrim. rewrite rev_app_distr. f_equal.
  apply dropWhile_all. apply Forall_rev. apply Forall_forall.
  intros x Hx. apply repeat_spec in Hx. subst x. reflexivity.
Qed.

Lemma dropWhile_head p (s : jsstring) d :
  Str.dropWhile p s <> [] -> p (hd d (Str.dropWhile p s)) = false.
Proof.
  induction s as [|x s IH]; simpl; [congruence|].
  destruct (p x) eqn:Hx; [exact IH | intros _; exact Hx].
Qed.

(** X20. The callback address does not depend on slashes at the end of the
    configured base address: [getCallbackUrl] gives the same address for a
    base address and for that address followed by any number of slashes,
    and the text it puts in front of [/index.php?action=callback] never
    ends in a slash. *)
Theorem getCallbackUrl_slashes (baseUrl : jsstring) (n : nat) :
  Index.getCallbackUrl (baseUrl ++ repeat c_slash n)
  = Index.getCallbackUrl baseUrl
  /\ (last (Index.rtrim baseUrl [c_slash]) 0 =? c_slash) = false.
Proof.
  split.
  - unfold Index.getCallbackUrl. now rewrite rtrim_slashes.
  - unfold Index.rtrim.
    set (p := fun x : char => existsb (N.eqb x) [c_slash]).
    destruct (Str.dropWhile p (rev baseUrl)) as [|x t] eqn:Hd;
      [reflexivity|].
    assert (Hx : p x = false).
    { assert (H := dropWhile_head p (rev baseUrl) 0).
      rewrite Hd in H. apply H. discriminate. }
    simpl rev. rewrite last_snoc.
    unfold p in Hx. simpl in Hx. now rewrite orb_false_r in Hx.
Qed.

(** ** Other roles *)

Lemma star_ext {R : Type} cls (k k' : @cont R) :
  (forall s c, k s c = k' s c) -> forall s c, star cls k s c = star cls k' s c.
Proof.
  intros Hk s c. induction s as [|x s IH]; simpl; [apply Hk|].
  rewrite IH, Hk. reflexivity.
Qed.

Lemma rep_ext {R : Type} n cls (k k' : @cont R) :
  (forall s c, k s c = k' s c) -> forall s c, rep n cls k s c = rep n cls k' s c.
Proof.
  intros Hk. induction n as [|n IH]; intros s c; simpl; [apply Hk|].
  destruct s as [|x s]; [reflexivity|]. now rewrite IH.
Qed.

(** A pattern without [^] and [$] does not look at the length of the
    input. *)
Lemma m_n0 {R : Type} r :
  plain r = true ->
  forall n0 n0' s c (k k' : @cont R),
    (forall s c, k s c = k' s c) -> m r n0 s c k = m r n0' s c k'.
Proof.
  induction r as [|cls|r1 IH1 r2 IH2|cls|cls|n cls|n r IH| |];
    intros Hp n0 n0' s c k k' Hk; simpl in *; try discriminate.
  - apply Hk.
  - destruct s as [|x s]; [reflexivity|]. now rewrite Hk.
  - apply andb_prop in Hp as [Hp1 Hp2].
    apply IH1; [assumption|]. intros s' c'. apply IH2; assumption.
  - apply star_ext; assumption.
  - destruct s as [|x s]; [reflexivity|].
    destruct (cmatch cls x); [|reflexivity]. apply star_ext; assumption.
  - apply rep_ext; assumption.
  - apply IH; [assumption|]. intros s' c'. apply Hk.
Qed.

Lemma parsePattern_plain R : In R roleNames -> plain (parsePattern R) = true.
Proof.
  unfold roleNames; simpl.
  intros H; repeat (destruct H as [<-|H]; [vm_compute; auto|]); contradiction.
Qed.

Lemma listChar_notIn x s :
  forallb listChar s = true -> listChar x = false -> ~ In x s.
Proof.
  intros Hs Hx Hin. rewrite forallb_forall in Hs.
  rewrite (Hs _ Hin) in Hx. discriminate.
Qed.

Lemma guard_head R G : L (ifGuard R) G -> exists h, G = 105 :: h.
Proof.
  unfold ifGuard. cbn [seqs]. intros (u1 & u2 & -> & H1 & _).
  simpl in H1. destruct H1 as (a & b & -> & (x & -> & Hx) & _).
  apply N.eqb_eq in Hx. subst x. eexists. reflexivity.
Qed.

Lemma parseRest_exact n0 Rt body Z :
  L returnOpen Rt -> body <> [] -> accepts notBracket body ->
  m parseRest n0 (Rt ++ body ++ c_rbracket :: Z) [] accept
  = Some (Z, [(1%nat, body)]).
Proof.
  intros HRt Hne Hb.
  destruct returnOpen_checks as (Hp' & Hg' & He' & _).
  change (m parseRest n0 (Rt ++ body ++ c_rbracket :: Z) [] accept)
    with (m returnOpen n0 (Rt ++ body ++ c_rbracket :: Z) []
            (fun s' c' => m (Seq (Group 1 (Plus notBracket))
                                 (Atom (CChar c_rbracket))) n0 s' c' accept)).
  rewrite (m_det returnOpen c_lbracket) by assumption.
  destruct body as [|x body]; [contradiction|].
  inversion Hb as [|? ? Hx Hb']; subst. simpl m.
  change (cmatch notBracket x) with (cmatch (CNoneOf [c_rbracket]) x) in Hx.
  simpl in Hx. simpl. rewrite Hx.
  apply star_intro; [assumption | |].
  - rewrite N.eqb_refl. unfold accept. do 3 f_equal.
    change (x :: body ++ c_rbracket :: Z) with ((x :: body) ++ c_rbracket :: Z).
    now rewrite cut_app.
  - intros B' U' Heq HB' Hlen.
    exfalso. apply (accepts_notIn c_rbracket B' HB').
    assert (Hn : nth_error (B' ++ U') (length body) = Some c_rbracket).
    { rewrite <- Heq, nth_error_app2, Nat.sub_diag by lia. reflexivity. }
    rewrite nth_error_app1 in Hn by lia.
    eapply nth_error_In; eauto.
Qed.

(** The result of the rest of [parsePattern] is fixed by the text. *)
Lemma parseRest_result n0 s y :
  m parseRest n0 s [] accept = Some y ->
  exists Rt body Z,
    s = Rt ++ body ++ c_rbracket :: Z /\ L returnOpen Rt
    /\ body <> [] /\ accepts notBracket body /\ y = (Z, [(1%nat, body)]).
Proof.
  intros H.
  destruct (parseRest_elim _ _ _ _ H) as (Rt & body & Z & -> & HRt & Hne & Hb).
  rewrite parseRest_exact in H by assumption. injection H as <-.
  exists Rt, body, Z. auto.
Qed.

Lemma parseRest_in_hole n0 v Z :
  forallb listChar v = true ->
  m parseRest n0 (v ++ c_rbracket :: Z) [] accept = None.
Proof.
  intros Hv.
  destruct (m parseRest n0 (v ++ c_rbracket :: Z) [] accept) as [y|] eqn:Hm;
    [|reflexivity].
  exfalso.
  destruct (parseRest_elim _ _ _ _ Hm) as (Rt & body & Z' & Heq & HRt & _).
  destruct returnOpen_checks as (_ & _ & _ & Hs & _).
  destruct (startsIn_sound _ _ Hs _ HRt) as (h & -> & _).
  destruct v as [|x v]; simpl in Heq; [discriminate Heq|].
  injection Heq as -> _. simpl in Hv. discriminate Hv.
Qed.

Lemma suffix_snoc (X l : jsstring) (a : char) (B : jsstring) :
  X ++ [a] = B ++ l -> l <> [] -> exists l0, l = l0 ++ [a].
Proof.
  intros Heq Hne.
  destruct (exists_last Hne) as (l0 & b & ->).
  rewrite app_assoc in Heq. apply app_inj_tail in Heq as [_ ->].
  now exists l0.
Qed.

Lemma parseRest_before_hole n0 n0' S0 w1 w2 Z y1 :
  forallb listChar w1 = true -> forallb listChar w2 = true -> w2 <> [] ->
  m parseRest n0 ((S0 ++ [c_lbracket]) ++ w1 ++ c_rbracket :: Z) [] accept
  = Some y1 ->
  exists y2,
    m parseRest n0' ((S0 ++ [c_lbracket]) ++ w2 ++ c_rbracket :: Z) [] accept
    = Some y2
    /\ holeRel w1 w2 Z y1 y2.
Proof.
  intros Hw1 Hw2 Hne2 Hm.
  destruct (parseRest_result _ _ _ Hm)
    as (Rt & body & Z' & Heq & HRt & Hne & Hb & ->).
  destruct returnOpen_checks as (_ & _ & He & _).
  destruct (endsIn_sound _ _ He _ HRt) as (Rh & -> & HRh).
  assert (Hnb1 : ~ In c_rbracket w1) by (apply (listChar_notIn _ _ Hw1); reflexivity).
  assert (Hnb2 : ~ In c_rbracket w2) by (apply (listChar_notIn _ _ Hw2); reflexivity).
  assert (Hnbody : ~ In c_rbracket body) by (apply accepts_notIn; exact Hb).
  assert (Heq' : Rh ++ c_lbracket :: (body ++ c_rbracket :: Z')
                 = S0 ++ c_lbracket :: (w1 ++ c_rbracket :: Z)).
  { rewrite <- !app_assoc in Heq. simpl in Heq. now symmetry. }
  destruct (split_left _ _ _ _ _ Heq' HRh) as (p0 & -> & Hrest).
  destruct p0 as [|x0 p1].
  - simpl in Hrest. injection Hrest as Hrest.
    destruct (first_split_unique _ _ _ _ _ Hrest Hnbody Hnb1) as [-> ->].
    exists (Z, [(1%nat, w2)]). split.
    + rewrite app_nil_r. apply parseRest_exact; auto.
      apply notIn_accepts; exact Hnb2.
    + left. exists []. split; reflexivity.
  - simpl in Hrest. injection Hrest as <- Hrest.
    destruct (in_dec N.eq_dec c_rbracket p1) as [Hin|Hnin].
    + destruct (first_occurrence _ _ Hin) as (h & tl & -> & Hh).
      assert (Hrest' : body ++ c_rbracket :: Z'
                       = h ++ c_rbracket
                           :: (tl ++ c_lbracket :: w1 ++ c_rbracket :: Z))
        by (rewrite Hrest; now rewrite <- !app_assoc).
      destruct (first_split_unique _ _ _ _ _ Hrest' Hnbody Hh) as [-> ->].
      exists (tl ++ c_lbracket :: w2 ++ c_rbracket :: Z, [(1%nat, h)]). split.
      * replace (((Rh ++ c_lbracket :: h ++ c_rbracket :: tl) ++ [c_lbracket])
                   ++ w2 ++ c_rbracket :: Z)
          with ((Rh ++ [c_lbracket]) ++ h
                  ++ c_rbracket :: (tl ++ c_lbracket :: w2 ++ c_rbracket :: Z))
          by (repeat (rewrite <- ?app_assoc; simpl); reflexivity).
        apply parseRest_exact; auto.
      * right. reflexivity.
    + assert (Hnin' : ~ In c_rbracket (p1 ++ c_lbracket :: w1)).
      { intros H. apply in_app_or in H as [H|[H|H]];
          [contradiction | discriminate H | contradiction]. }
      assert (Hrest' : body ++ c_rbracket :: Z'
                       = (p1 ++ c_lbracket :: w1) ++ c_rbracket :: Z)
        by (rewrite Hrest; now rewrite <- !app_assoc).
      destruct (first_split_unique _ _ _ _ _ Hrest' Hnbody Hnin') as [-> ->].
      exists (Z, [(1%nat, (p1 ++ [c_lbracket]) ++ w2)]). split.
      * replace (((Rh ++ c_lbracket :: p1) ++ [c_lbracket])
                   ++ w2 ++ c_rbracket :: Z)
          with ((Rh ++ [c_lbracket]) ++ ((p1 ++ [c_lbracket]) ++ w2)
                  ++ c_rbracket :: Z)
          by (repeat (rewrite <- ?app_assoc; simpl); reflexivity).
        apply parseRest_exact; auto.
        -- destruct p1; discriminate.
        -- apply notIn_accepts. intros H.
           apply in_app_or in H as [H|H]; [|contradiction].
           apply in_app_or in H as [H|[H|[]]]; [|discriminate H].
           apply Hnin. exact H.
      * left. exists (p1 ++ [c_lbracket]). split; [|reflexivity].
        do 3 f_equal. now rewrite <- app_assoc.
Qed.

Lemma hole_split (S w Z B U : jsstring) :
  S ++ w ++ c_rbracket :: Z = B ++ U ->
  (exists l, S = B ++ l /\ U = l ++ w ++ c_rbracket :: Z)
  \/ (exists v1 v2, w = v1 ++ v2 /\ B = S ++ v1 /\ U = v2 ++ c_rbracket :: Z)
  \/ (exists z, B = S ++ w ++ c_rbracket :: z /\ Z = z ++ U).
Proof.
  intros Heq. apply app_eq_app in Heq as [l [[HS HU]|[HB HU]]].
  - left. exists l. auto.
  - right. apply app_eq_app in HU as [l' [[Hw HU']|[Hl HU']]].
    + left. exists l, l'. auto.
    + destruct l' as [|x l']; simpl in HU'.
      * left. exists w, []. rewrite app_nil_r in Hl. subst l.
        rewrite app_nil_r. auto.
      * right. injection HU' as <- HU'. exists l'. subst. auto.
Qed.

Lemma listChar_accepts_notBrace w :
  forallb listChar w = true -> accepts notBrace w.
Proof.
  intros Hw. apply Forall_forall. intros x Hx. rewrite forallb_forall in Hw.
  apply listChar_notBrace. auto.
Qed.

Lemma parseRest_n0 n0 n0' s :
  m parseRest n0 s [] accept = m parseRest n0' s [] accept.
Proof. apply m_n0; [reflexivity | reflexivity]. Qed.

Lemma star_before_hole n0 n0' S0 w1 w2 Z y1 :
  forallb listChar w1 = true -> forallb listChar w2 = true ->
  w1 <> [] -> w2 <> [] ->
  star notBrace (fun s c => m parseRest n0 s c accept)
    ((S0 ++ [c_lbracket]) ++ w1 ++ c_rbracket :: Z) [] = Some y1 ->
  exists y2,
    star notBrace (fun s c => m parseRest n0' s c accept)
      ((S0 ++ [c_lbracket]) ++ w2 ++ c_rbracket :: Z) [] = Some y2
    /\ holeRel w1 w2 Z y1 y2.
Proof.
  intros Hw1 Hw2 Hne1 Hne2 Hs.
  destruct (star_elim _ _ _ _ _ Hs) as (B & U & Heq & HB & Hk & Hmax).
  cbv beta in Hk.
  pose proof (listChar_accepts_notBrace _ Hw1) as Hb1.
  pose proof (listChar_accepts_notBrace _ Hw2) as Hb2.
  destruct (hole_split _ _ _ _ _ Heq)
    as [(l & HS & HU) | [(v1 & v2 & Hw & HBv & HU) | (z & HBz & HZ)]].
  - (* the assignment lies in front of the bracket body *)
    destruct (list_eq_dec N.eq_dec l []) as [->|Hlne].
    { subst U. cbn [app] in Hk.
      rewrite parseRest_in_hole in Hk by assumption. discriminate Hk. }
    destruct (suffix_snoc _ _ _ _ HS Hlne) as (l0 & Hl0).
    subst U. rewrite Hl0 in Hk.
    destruct (parseRest_before_hole n0 n0' l0 w1 w2 Z y1 Hw1 Hw2 Hne2 Hk)
      as (y2 & Hk2 & Hrel).
    exists y2. split; [|exact Hrel].
    rewrite HS, Hl0, <- (app_assoc B).
    apply star_intro; [exact HB | exact Hk2 |].
    intros B' U' Heq' HB' Hlen. cbv beta.
    destruct (m parseRest n0' U' [] accept) as [y'|] eqn:Hk'; [|reflexivity].
    exfalso.
    destruct (longer_prefix _ _ _ _ Heq' Hlen) as (z & Hz & HB'z & Hrest).
    rewrite <- Hl0 in Hrest.
    destruct (hole_split _ _ _ _ _ Hrest)
      as [(l' & Hll & HU') | [(v1 & v2 & Hw & Hzv & HU') | (z' & Hzz & HZ)]].
    + destruct (list_eq_dec N.eq_dec l' []) as [->|Hl'ne].
      { subst U'. cbn [app] in Hk'.
        rewrite parseRest_in_hole in Hk' by assumption. discriminate Hk'. }
      assert (Hl0' : l0 ++ [c_lbracket] = z ++ l') by (rewrite <- Hl0; exact Hll).
      destruct (suffix_snoc _ _ _ _ Hl0' Hl'ne) as (l0' & Hl0'').
      subst U'. rewrite Hl0'' in Hk'.
      destruct (parseRest_before_hole n0' n0 l0' w2 w1 Z y' Hw2 Hw1 Hne1 Hk')
        as (y'' & Hk'' & _).
      rewrite (Hmax B' ((l0' ++ [c_lbracket]) ++ w1 ++ c_rbracket :: Z)) in Hk'';
        [discriminate Hk'' | | exact HB' | exact Hlen].
      rewrite HB'z, Hll, Hl0''. now rewrite <- !app_assoc.
    + subst U'. rewrite parseRest_in_hole in Hk'; [discriminate Hk'|].
      rewrite Hw, forallb_app in Hw2. now apply andb_prop in Hw2 as [_ ?].
    + rewrite (parseRest_n0 n0' n0) in Hk'.
      rewrite (Hmax (B ++ l ++ w1 ++ c_rbracket :: z') U') in Hk';
        [discriminate Hk' | | |].
      * rewrite HZ at 1. repeat (rewrite <- ?app_assoc; simpl). reflexivity.
      * rewrite HB'z, Hzz in HB'.
        apply accepts_app in HB' as [HB1 HB'].
        apply accepts_app in HB' as [Hal HB'].
        apply accepts_app in HB' as [_ HB'].
        apply Forall_inv_tail in HB'.
        apply accepts_app; split; [exact HB1|].
        apply accepts_app; split; [exact Hal|].
        apply accepts_app; split; [exact Hb1|].
        constructor; [reflexivity | exact HB'].
      * rewrite !length_app. simpl. lia.
  - (* the star cannot stop inside the bracket body *)
    subst U. rewrite parseRest_in_hole in Hk; [discriminate Hk|].
    rewrite Hw, forallb_app in Hw1. now apply andb_prop in Hw1 as [_ ?].
  - (* the assignment lies behind the bracket *)
    exists y1. split; [|right; reflexivity].
    rewrite HZ.
    replace ((S0 ++ [c_lbracket]) ++ w2 ++ c_rbracket :: z ++ U)
      with (((S0 ++ [c_lbracket]) ++ w2 ++ c_rbracket :: z) ++ U)
      by (repeat (rewrite <- ?app_assoc; simpl); reflexivity).
    assert (HB2 : accepts notBrace ((S0 ++ [c_lbracket]) ++ w2 ++ c_rbracket :: z)).
    { rewrite HBz in HB.
      apply accepts_app in HB as [HS HB].
      apply accepts_app in HB as [_ HB].
      apply Forall_inv_tail in HB.
      apply accepts_app; split; [exact HS|].
      apply accepts_app; split; [exact Hb2|].
      constructor; [reflexivity | exact HB]. }
    apply star_intro; [exact HB2 | rewrite (parseRest_n0 n0' n0); exact Hk |].
    intros B' U' Heq' HB' Hlen. cbv beta.
    destruct (m parseRest n0' U' [] accept) as [y'|] eqn:Hk'; [|reflexivity].
    exfalso.
    destruct (longer_prefix _ _ _ _ Heq' Hlen) as (z' & Hz' & HB'z & Hrest).
    rewrite (parseRest_n0 n0' n0) in Hk'.
    rewrite (Hmax (B ++ z') U') in Hk'; [discriminate Hk' | | |].
    + rewrite Hrest. now rewrite <- app_assoc.
    + rewrite HB'z in HB'. apply accepts_app in HB' as [_ Hz''].
      apply accepts_app; split; assumption.
    + rewrite length_app. destruct z'; [contradiction | simpl; lia].
Qed.

Lemma run_needs_i R' n0 s :
  In R' roleNames ->
  (forall t, s <> 105 :: t) ->
  m (parsePattern R') n0 s [] accept = None.
Proof.
  intros HR' Hs.
  destruct (m (parsePattern R') n0 s [] accept) as [y|] eqn:Hm; [|reflexivity].
  exfalso. rewrite parsePattern_unfold in Hm.
  destruct (role_checks R' HR') as (Hp & _).
  destruct (m_sound _ Hp _ _ _ _ _ Hm) as (G & T & c' & -> & HG & _).
  destruct (guard_head _ _ HG) as (h & ->).
  apply (Hs (h ++ T)). reflexivity.
Qed.

Lemma run_before_hole R' n0 n0' S00 w1 w2 Z y1 :
  In R' roleNames ->
  forallb listChar w1 = true -> forallb listChar w2 = true ->
  w1 <> [] -> w2 <> [] ->
  m (parsePattern R') n0 (S00 ++ c_lbracket :: w1 ++ c_rbracket :: Z) []
    accept = Some y1 ->
  exists y2,
    m (parsePattern R') n0' (S00 ++ c_lbracket :: w2 ++ c_rbracket :: Z) []
      accept = Some y2
    /\ holeRel w1 w2 Z y1 y2.
Proof.
  intros HR' Hw1 Hw2 Hne1 Hne2 Hm. rewrite parsePattern_unfold in Hm.
  destruct (role_checks R' HR') as (Hp & Hg & He & Ha).
  destruct (m_sound _ Hp _ _ _ _ _ Hm) as (G & T & c' & Heq & HG & Hk & Hc).
  rewrite (Hc Hg) in Hk. clear Hc c'.
  assert (HGn : ~ In c_lbracket G) by exact (avoids_sound _ _ Ha _ HG).
  symmetry in Heq.
  destruct (split_left _ _ _ _ _ Heq HGn) as (p0 & -> & ->).
  replace (p0 ++ c_lbracket :: w1 ++ c_rbracket :: Z)
    with ((p0 ++ [c_lbracket]) ++ w1 ++ c_rbracket :: Z) in Hk
    by (now rewrite <- app_assoc).
  destruct (star_before_hole n0 n0' p0 w1 w2 Z y1 Hw1 Hw2 Hne1 Hne2 Hk)
    as (y2 & Hk2 & Hrel).
  exists y2. split; [|exact Hrel].
  rewrite parsePattern_unfold, <- app_assoc.
  rewrite (m_det (ifGuard R') c_lbrace) by assumption.
  replace (p0 ++ c_lbracket :: w2 ++ c_rbracket :: Z)
    with ((p0 ++ [c_lbracket]) ++ w2 ++ c_rbracket :: Z)
    by (now rewrite <- app_assoc).
  exact Hk2.
Qed.

Lemma search_in_hole R' n0 v s :
  In R' roleNames -> forallb listChar v = true ->
  forall i, search (parsePattern R') n0 i (v ++ s)
            = search (parsePattern R') n0 (i + length v) s.
Proof.
  intros HR' Hv. induction v as [|x v IH]; intros i.
  - simpl. now rewrite Nat.add_0_r.
  - simpl in Hv. apply andb_prop in Hv as [Hx Hv].
    simpl app. rewrite search_step.
    rewrite run_needs_i; [| exact HR' |].
    + rewrite IH by assumption. f_equal. simpl. lia.
    + intros t Ht. injection Ht as -> _. discriminate Hx.
Qed.

Lemma search_plain r :
  plain r = true ->
  forall s n0 n0' i i',
    match search r n0 i s, search r n0' i' s with
    | Some a, Some b => groups a = groups b /\ after a = after b
    | None, None => True
    | _, _ => False
    end.
Proof.
  intros Hp. induction s as [|x s IH]; intros n0 n0' i i'.
  - simpl. rewrite (m_n0 r Hp n0 n0' [] [] accept accept) by reflexivity.
    destruct (m r n0' [] [] accept) as [[t c]|]; simpl; auto.
  - rewrite !search_step.
    rewrite (m_n0 r Hp n0 n0' (x :: s) [] accept accept) by reflexivity.
    destruct (m r n0' (x :: s) [] accept) as [[t c]|]; [simpl; auto|].
    apply IH.
Qed.

Lemma search_before_hole R' n0 n0' w1 w2 Z :
  In R' roleNames ->
  forallb listChar w1 = true -> forallb listChar w2 = true ->
  w1 <> [] -> w2 <> [] ->
  forall S i1 i2,
    match search (parsePattern R') n0 i1
            (S ++ c_lbracket :: w1 ++ c_rbracket :: Z),
          search (parsePattern R') n0' i2
            (S ++ c_lbracket :: w2 ++ c_rbracket :: Z) with
    | Some a, Some b => holeRel w1 w2 Z (after a, groups a) (after b, groups b)
    | None, None => True
    | _, _ => False
    end.
Proof.
  intros HR' Hw1 Hw2 Hne1 Hne2.
  induction S as [|x S IH]; intros i1 i2.
  - simpl app. rewrite !search_step.
    rewrite !run_needs_i;
      [| exact HR' | intros t Ht; discriminate Ht
       | exact HR' | intros t Ht; discriminate Ht].
    rewrite !search_in_hole by assumption.
    assert (H := search_plain _ (parsePattern_plain R' HR') (c_rbracket :: Z)
                   n0 n0' (S i1 + length w1) (S i2 + length w2)).
    destruct (search (parsePattern R') n0 (S i1 + length w1) (c_rbracket :: Z))
      as [a|];
      destruct (search (parsePattern R') n0' (S i2 + length w2)
                  (c_rbracket :: Z)) as [b|]; try exact H.
    right. simpl. exact (proj1 H).
  - simpl app. rewrite !search_step.
    destruct (m (parsePattern R') n0
                (x :: S ++ c_lbracket :: w1 ++ c_rbracket :: Z) [] accept)
      as [[t1 c1]|] eqn:Hm1.
    + destruct (run_before_hole R' n0 n0' (x :: S) w1 w2 Z (t1, c1)
                  HR' Hw1 Hw2 Hne1 Hne2 Hm1) as ([t2 c2] & Hm2 & Hrel).
      simpl app in Hm2. rewrite Hm2. exact Hrel.
    + destruct (m (parsePattern R') n0'
                  (x :: S ++ c_lbracket :: w2 ++ c_rbracket :: Z) [] accept)
        as [[t2 c2]|] eqn:Hm2; [|apply IH].
      destruct (run_before_hole R' n0' n0 (x :: S) w2 w1 Z (t2, c2)
                  HR' Hw2 Hw1 Hne2 Hne1 Hm2) as (y & Hm1' & _).
      simpl app in Hm1'. rewrite Hm1 in Hm1'. discriminate Hm1'.
Qed.

(** The list read for another role does not change when the bracket body
    of a role is rewritten. *)
Lemma parseRole_update_other (content role other : jsstring)
  (uids : list jsstring) :
  In role roleNames -> In other roleNames ->
  wellFormed content role = true -> apart content role other = true ->
  Forall (fun u => isDigitString u = true) uids ->
  parseRole (updateWhitelistInContent content role uids) other
  = parseRole content other.
Proof.
  intros HR HR' Hwf Hap Hu. unfold wellFormed in Hwf. unfold apart in Hap.
  destruct (exec (updatePattern role) content) as [mr|] eqn:Hex;
    [|discriminate].
  assert (Hupd := update_found role content mr uids HR Hu Hex).
  destruct (exec_update_elim _ _ _ HR Hex)
    as (A & G & B & Rt & body & Z & Hc & Hblk & Hi & Hm & Hg & Hz & _ & _).
  assert (Hm' : matched mr = (G ++ B ++ Rt) ++ body ++ [c_rbracket])
    by (rewrite Hm; now rewrite <- !app_assoc).
  rewrite (bodyOf_block _ _ _ Hg Hm') in Hwf, Hap.
  apply andb_prop in Hap as [Hne Hap].
  assert (Hbne : body <> []) by (intros ->; discriminate Hne).
  destruct (replacement_chars _ Hu) as [Hch [tl Htl]].
  assert (Hrepl : forallb listChar (replacement uids) = true).
  { apply forallb_forall. intros x Hx. rewrite forallb_forall in Hch.
    apply replChar_listChar. auto. }
  assert (Hrne : replacement uids <> []) by (rewrite Htl; discriminate).
  destruct Hblk as (_ & _ & HRt & _).
  destruct returnOpen_checks as (_ & _ & He & _).
  destruct (endsIn_sound _ _ He _ HRt) as (Rh & -> & _).
  assert (Hold : content
                 = (A ++ G ++ B ++ Rh) ++ c_lbracket :: body ++ c_rbracket :: Z).
  { rewrite Hc. repeat (rewrite <- ?app_assoc; simpl). reflexivity. }
  assert (Hnew : updateWhitelistInContent content role uids
                 = (A ++ G ++ B ++ Rh)
                     ++ c_lbracket :: replacement uids ++ c_rbracket :: Z).
  { rewrite Hupd. unfold Replace.capture. rewrite Hg, Hi, Hz, Hc; simpl.
    rewrite firstn_app, Nat.sub_diag, firstn_all; simpl. rewrite app_nil_r.
    repeat (rewrite <- ?app_assoc; simpl). reflexivity. }
  unfold parseRole, exec in *.
  assert (H := search_before_hole other (length content)
                 (length (updateWhitelistInContent content role uids))
                 body (replacement uids) Z HR' Hwf Hrepl Hbne Hrne
                 (A ++ G ++ B ++ Rh) 0%nat 0%nat).
  rewrite <- Hold, <- Hnew in H.
  destruct (search (parsePattern other) (length content) 0 content) as [a|];
    destruct (search (parsePattern other)
                (length (updateWhitelistInContent content role uids)) 0
                (updateWhitelistInContent content role uids)) as [b|];
    try contradiction; [|reflexivity].
  destruct H as [(u & Ha & _) | Hsame].
  - injection Ha as Ha _. rewrite Ha, Hz, Nat.eqb_refl in Hap.
    discriminate Hap.
  - simpl in Hsame. unfold Replace.capture. now rewrite Hsame.
Qed.

(** X21. Writing the list of one role leaves the lists of the other roles
    as they are: when the block of [role] is well formed and its bracket is
    not empty, and the block that [parseContent] finds for [other] does not
    end at the bracket of [role], the entry of [other] in the map parsed
    from the text written by [updateWhitelistInContent] is the entry parsed
    before, the list read for [other] by the guard rule. *)
Theorem update_other_role (content role other : jsstring)
  (uids : list jsstring) :
  In role roleNames -> In other roleNames ->
  wellFormed content role = true -> apart content role other = true ->
  Forall (fun u => isDigitString u = true) uids ->
  mapGet other (parseContent (updateWhitelistInContent content role uids))
  = mapGet other (parseContent content)
  /\ mapGet other (parseContent (updateWhitelistInContent content role uids))
     = Some (parseRole content other).
Proof.
  intros HR HR' Hwf Hap Hu.
  rewrite !parseContent_get by assumption.
  rewrite (parseRole_update_other content role other uids HR HR' Hwf Hap Hu).
  split; reflexivity.
Qed.

Lemma update_other_role_witness :
  In (str "ADMIN") roleNames /\ In (str "CAS") roleNames
  /\ wellFormed whitelist_sqf (str "ADMIN") = true
  /\ apart whitelist_sqf (str "ADMIN") (str "CAS") = true
  /\ Forall (fun u => isDigitString u = true) [uid01; uid99]
  /\ mapGet (str "CAS")
       (parseContent (updateWhitelistInContent whitelist_sqf (str "ADMIN")
                        [uid01; uid99]))
     = mapGet (str "CAS") (parseContent whitelist_sqf).
Proof.
  assert (H1 : In (str "ADMIN") roleNames)
    by (apply includes_In; vm_compute; reflexivity).
  assert (H2 : In (str "CAS") roleNames)
    by (apply includes_In; vm_compute; reflexivity).
  assert (H3 : wellFormed whitelist_sqf (str "ADMIN") = true)
    by (vm_compute; reflexivity).
  assert (H4 : apart whitelist_sqf (str "ADMIN") (str "CAS") = true)
    by (vm_compute; reflexivity).
  assert (H5 : Forall (fun u => isDigitString u = true) [uid01; uid99])
    by (repeat constructor).
  split; [exact H1 | split; [exact H2 | split; [exact H3 |
    split; [exact H4 | split; [exact H5|]]]]].
  exact (proj1 (update_other_role whitelist_sqf (str "ADMIN") (str "CAS")
                  [uid01; uid99] H1 H2 H3 H4 H5)).
Defined.

(** X22. Adding or removing an identifier for one role does not change what
    [getUids] answers for another role: on a text where the block of the
    role is well formed with a bracket that is not empty, and the block of
    the other role does not end at that bracket, the answer for the other
    role after [addUid] or [removeUid] is the answer before, whether the
    operation succeeded or not. *)
Theorem other_roles_untouched (toUpperCase : jsstring -> jsstring)
  (filePath content role uid other : jsstring) :
  wellFormed content (toUpperCase role) = true ->
  apart content (toUpperCase role) (toUpperCase other) = true ->
  getUids toUpperCase filePath
    (snd (addUid toUpperCase filePath (Some content) role uid)) other
  = getUids toUpperCase filePath (Some content) other
  /\ getUids toUpperCase filePath
       (snd (removeUid toUpperCase filePath (Some content) role uid)) other
     = getUids toUpperCase filePath (Some content) other.
Proof.
  intros Hwf Hap.
  assert (Hkey : forall l, Forall (fun u => isDigitString u = true) l ->
            In (toUpperCase role) roleNames ->
            getUids toUpperCase filePath
              (Some (updateWhitelistInContent content (toUpperCase role) l))
              other
            = getUids toUpperCase filePath (Some content) other).
  { intros l Hl HR. rewrite !getUids_eq.
    destruct (Str.includes roleNames (toUpperCase other)) eqn:Ho;
      [|reflexivity].
    apply includes_In in Ho.
    now rewrite (parseRole_update_other content (toUpperCase role)
                   (toUpperCase other) l HR Ho Hwf Hap Hl). }
  split.
  - rewrite addUid_eq.
    destruct (Str.includes roleNames (toUpperCase role)) eqn:Hr; cbn [negb];
      [|reflexivity].
    apply includes_In in Hr.
    destruct (test steam64 uid) eqn:Hu; cbn [negb]; [|reflexivity].
    cbv zeta.
    destruct (Str.includes (parseRole content (toUpperCase role)) uid);
      [reflexivity|].
    cbn [snd]. apply Hkey; [|exact Hr].
    apply Forall_app. split; [apply parseRole_digits|].
    constructor; [now apply steam64_digitString | constructor].
  - rewrite removeUid_eq.
    destruct (Str.includes roleNames (toUpperCase role)) eqn:Hr; cbn [negb];
      [|reflexivity].
    apply includes_In in Hr. cbv zeta.
    destruct (Str.includes (parseRole content (toUpperCase role)) uid);
      cbn [negb]; [|reflexivity].
    cbn [snd]. apply Hkey; [|exact Hr].
    apply filter_digits. apply parseRole_digits.
Qed.

Lemma other_roles_untouched_witness :
  wellFormed whitelist_sqf (Str.asciiUpper (str "admin")) = true
  /\ apart whitelist_sqf (Str.asciiUpper (str "admin"))
       (Str.asciiUpper (str "cas")) = true
  /\ getUids Str.asciiUpper path0
       (snd (addUid Str.asciiUpper path0 (Some whitelist_sqf) (str "admin")
               uid99))
       (str "cas")
     = getUids Str.asciiUpper path0 (Some whitelist_sqf) (str "cas").
Proof.
  assert (H1 : wellFormed whitelist_sqf (Str.asciiUpper (str "admin")) = true)
    by (vm_compute; reflexivity).
  assert (H2 : apart whitelist_sqf (Str.asciiUpper (str "admin"))
                 (Str.asciiUpper (str "cas")) = true)
    by (vm_compute; reflexivity).
  split; [exact H1 | split; [exact H2|]].
  exact (proj1 (other_roles_untouched Str.asciiUpper path0 whitelist_sqf
                  (str "admin") uid99 (str "cas") H1 H2)).
Defined.

(** ** The frame of a write *)



